(** * The interactive bash session of the sandbox runtime

    A shallow embedding of [openhands/runtime/utils/bash.py]: the command
    splitter, the shell-safe escaper, the PS1 framing of pane captures and
    the [BashSession] execution engine, followed by the properties proved
    about them.  The startup command of the action execution server
    ([openhands/runtime/utils/command.py]) and the listing of git changes
    of the runtime ([openhands/runtime/base.py]) are embedded beside it.

    Conventions of the embedding.
    - A Python [str] is a [string]; its characters are the 8-bit codes of
      [ascii] (code points above 255 are outside the model).
    - Offsets into a string ([re.Match.start()], [node.pos], slice bounds)
      are [nat]: the code never builds a negative one.
    - Wall-clock readings ([time.time()]) and durations are [Z] ticks of an
      unspecified unit; the rounding of floating point is not modelled.
    - The terminal multiplexer, the clock, the process table and the shell
      grammar parser are outside the program.  Their answers come from a
      [World] (an oracle indexed by the number of external calls made so
      far); what the program sends to them is recorded in a list of
      [Effect]s.
    - A method that can raise returns a [result]; the session object and
      the effect log are threaded through a small state monad. *)

From Stdlib Require Import String Ascii List ZArith Lia Bool Arith DecimalString.
Import ListNotations.
Local Open Scope list_scope.
Local Open Scope string_scope.

(** ** Python strings *)

Module PyStr.

(** [str.isspace] on one character, for the code points the model has:
    TAB, LF, VT, FF, CR, FS, GS, RS, US, SPACE, NEL and NBSP. *)
Definition is_space (c : ascii) : bool :=
  let n := nat_of_ascii c in
  (((9 <=? n) && (n <=? 13)) || ((28 <=? n) && (n <=? 32))
   || (n =? 133) || (n =? 160))%nat.

(** The one-character string ["\n"]. *)
Definition NL : string := String "010"%char EmptyString.

(** The one-character string of a double quote. *)
Definition dquote : string := String "034"%char EmptyString.

(** [s[n:]] *)
Fixpoint drop (n : nat) (s : string) : string :=
  match n, s with
  | 0, _ => s
  | S _, EmptyString => EmptyString
  | S n', String _ s' => drop n' s'
  end.

(** [s[:n]] *)
Fixpoint take (n : nat) (s : string) : string :=
  match n, s with
  | 0, _ => EmptyString
  | S _, EmptyString => EmptyString
  | S n', String c s' => String c (take n' s')
  end.

(** [s[a:b]] for non-negative [a] and [b]: empty when [b <= a], clipped
    at the end of [s]. *)
Definition slice (a b : nat) (s : string) : string := take (b - a) (drop a s).

(** [s.lstrip()] *)
Fixpoint lstrip (s : string) : string :=
  match s with
  | EmptyString => EmptyString
  | String c s' => if is_space c then lstrip s' else s
  end.

(** [s.rstrip()] *)
Fixpoint rstrip (s : string) : string :=
  match s with
  | EmptyString => EmptyString
  | String c s' =>
      match rstrip s' with
      | EmptyString => if is_space c then EmptyString else String c EmptyString
      | r => String c r
      end
  end.

(** [s.strip()] *)
Definition strip (s : string) : string := lstrip (rstrip s).

(** [Some rest] when [s = p + rest]. *)
Fixpoint strip_prefix (p s : string) : option string :=
  match p, s with
  | EmptyString, _ => Some s
  | String _ _, EmptyString => None
  | String a p', String b s' => if Ascii.eqb a b then strip_prefix p' s' else None
  end.

(** [s.startswith(p)] *)
Definition startswith (s p : string) : bool :=
  match strip_prefix p s with Some _ => true | None => false end.

(** [s.removeprefix(p)] *)
Definition removeprefix (s p : string) : string :=
  match strip_prefix p s with Some rest => rest | None => s end.

(** [s.endswith(suf)] *)
Definition endswith (s suf : string) : bool :=
  (String.length suf <=? String.length s)%nat
  && String.eqb (drop (String.length s - String.length suf) s) suf.

(** The line boundaries of [str.splitlines] among the modelled code
    points, CR apart: LF, VT, FF, FS, GS, RS and NEL. *)
Definition is_linebreak (c : ascii) : bool :=
  let n := nat_of_ascii c in
  (((10 <=? n) && (n <=? 12)) || ((28 <=? n) && (n <=? 30)) || (n =? 133))%nat.

Definition is_cr (c : ascii) : bool := (nat_of_ascii c =? 13)%nat.
Definition is_lf (c : ascii) : bool := (nat_of_ascii c =? 10)%nat.

(** [s.splitlines()], with the line being read in [cur] ([None] right
    after a boundary, so that a final boundary opens no empty line). *)
Fixpoint splitlines_from (cur : option string) (s : string) : list string :=
  let line := match cur with Some l => l | None => EmptyString end in
  match s with
  | EmptyString => match cur with Some l => [l] | None => [] end
  | String c s' =>
      if is_cr c then
        match s' with
        | String c2 s'' =>
            if is_lf c2 then line :: splitlines_from None s''
            else line :: splitlines_from None s'
        | EmptyString => [line]
        end
      else if is_linebreak c then line :: splitlines_from None s'
      else splitlines_from (Some (line ++ String c EmptyString)) s'
  end.

Definition splitlines (s : string) : list string := splitlines_from None s.

(** [s.split(' ')]: the pieces between single spaces, empty ones
    included, with the piece being read in [cur]. *)
Fixpoint split_space_from (cur : string) (s : string) : list string :=
  match s with
  | EmptyString => [cur]
  | String c s' =>
      if Ascii.eqb c " "%char then cur :: split_space_from EmptyString s'
      else split_space_from (cur ++ String c EmptyString) s'
  end.

Definition split_space (s : string) : list string :=
  split_space_from EmptyString s.

(** [s.replace(' ', '')] *)
Fixpoint remove_spaces (s : string) : string :=
  match s with
  | EmptyString => EmptyString
  | String c s' =>
      if Ascii.eqb c " "%char then remove_spaces s'
      else String c (remove_spaces s')
  end.

(** [sep.join(ls)] *)
Definition join (sep : string) (ls : list string) : string := String.concat sep ls.

(** [str(n)] for an [int]. *)
Definition str_nat (n : nat) : string := NilZero.string_of_uint (Nat.to_uint n).
Definition str_Z (z : Z) : string := NilZero.string_of_int (Z.to_int z).

(** [c.upper()] on one character: the ASCII letters and the Latin-1
    letters from 224 to 254 (247, the division sign, apart) move down by
    32.  The upper case of the code points 181, 223 and 255 is not one
    character of the model (it is a code point above 255, or two
    letters); they are left as they are here. *)
Definition upper (c : ascii) : ascii :=
  let n := nat_of_ascii c in
  if (((97 <=? n) && (n <=? 122))
      || ((224 <=? n) && (n <=? 254) && negb (n =? 247)))%nat
  then ascii_of_nat (n - 32) else c.

(** [s[-1]], the last character, when there is one. *)
Fixpoint last_char (s : string) : option ascii :=
  match s with
  | EmptyString => None
  | String c EmptyString => Some c
  | String _ s' => last_char s'
  end.

(** The shell metacharacters of the escaper's pattern, [[;&|><]]. *)
Definition is_meta (c : ascii) : bool :=
  match c with
  | ";"%char | "&"%char | "|"%char | ">"%char | "<"%char => true
  | _ => false
  end.

Definition backslash : ascii := "\"%char.

(** [re.sub(r'\\([;&|><])', r'\\\\\1', s)]: every backslash that is
    followed by a metacharacter is doubled, scanning left to right. *)
Fixpoint escape_sub (s : string) : string :=
  match s with
  | EmptyString => EmptyString
  | String c s' =>
      match s' with
      | String d s'' =>
          if Ascii.eqb c backslash && is_meta d
          then String backslash (String backslash (String d (escape_sub s'')))
          else String c (escape_sub s')
      | EmptyString => String c EmptyString
      end
  end.

End PyStr.
Import PyStr.

(** ** Data *)

(** A [re.Match] of the PS1 pattern: its span in the capture and the text
    of group 1 (the JSON between the two markers). *)
Record Match := mkMatch { m_start : nat; m_end : nat; m_group : string }.

(** ** Framing of a capture by its PS1 matches *)

(** The body of the loop of [_combine_outputs_between_matches] at index
    [i]: the text from one character past the end of match [i] to the
    start of match [i + 1], and a newline, are added to the output.  The
    default match is never read: the loop keeps both indices in range. *)
Definition add_segment (pane_content : string) (ps1_matches : list Match)
    (combined_output : string) (i : nat) : string :=
  let nomatch := mkMatch 0 0 "" in
  let output_segment :=
    slice (m_end (nth i ps1_matches nomatch) + 1)
          (m_start (nth (i + 1) ps1_matches nomatch)) pane_content in
  combined_output ++ (output_segment ++ NL).

Definition _combine_outputs_between_matches
    (pane_content : string) (ps1_matches : list Match)
    (get_content_before_last_match : bool) : string :=
  match List.length ps1_matches with
  | 1 =>
      let m0 := nth 0 ps1_matches (mkMatch 0 0 "") in
      if get_content_before_last_match
      then take (m_start m0) pane_content
      else drop (m_end m0 + 1) pane_content
  | 0 => pane_content
  | _ =>
      fold_left (add_segment pane_content ps1_matches)
                (seq 0 (List.length ps1_matches - 1)) ""
  end.

(** The framing rule as the specification words it: the text after the
    match, and the spans between one match's end and the next one's
    start. *)
Definition framing_rule_as_worded
    (pane_content : string) (ps1_matches : list Match)
    (get_content_before_last_match : bool) : string :=
  match ps1_matches with
  | [] => pane_content
  | [m] =>
      if get_content_before_last_match
      then take (m_start m) pane_content
      else drop (m_end m) pane_content
  | _ =>
      String.concat ""
        (map (fun mm => slice (m_end (fst mm)) (m_start (snd mm)) pane_content ++ NL)
             (List.combine ps1_matches (tl ps1_matches)))
  end.

(** ** The shell grammar parser's trees *)

(** A [bashlex] AST node, with the attributes the program reads: [kind],
    [pos], [heredoc] ([None] when the attribute is missing or is [None])
    and [parts] (empty when the node has no such attribute). *)
#[warnings="-register-all"]
Inductive node : Type :=
  Node (kind : string) (pos : nat * nat) (heredoc : option (nat * nat))
       (parts : list node).

Definition n_pos (n : node) : nat * nat := let 'Node _ p _ _ := n in p.

(** [result[-1] += text] on a non-empty list. *)
Fixpoint append_to_last (result : list string) (text : string) : list string :=
  match result with
  | [] => []
  | [x] => [x ++ text]
  | x :: rest => x :: append_to_last rest text
  end.

Definition is_nil {A} (l : list A) : bool :=
  match l with [] => true | _ => false end.

Definition nonempty (s : string) : bool :=
  match s with EmptyString => false | _ => true end.

(** The word test of the escaper: a quoted string, [$(...)] or backticks. *)
Definition is_quoted_word (word_text : string) : bool :=
  (startswith word_text dquote && endswith word_text dquote)
  || (startswith word_text "'" && endswith word_text "'")
  || (startswith word_text "$(" && endswith word_text ")")
  || (startswith word_text "`" && endswith word_text "`").

(** [visit_node] of the escaper.  The closure's [parts] list and
    [last_pos] cursor are passed in and out. *)
Fixpoint visit_node (command : string) (n : node) (acc : list string * nat)
  {struct n} : list string * nat :=
  let '(parts, last_pos) := acc in
  let 'Node kind (start, stop) heredoc children := n in
  match (if String.eqb kind "redirect" then heredoc else None) with
  | Some (hstart, hstop) =>
      let between := slice last_pos start command in
      (((parts ++ [between])
          ++ [slice start hstart command])
          ++ [slice hstart hstop command], stop)%list
  | None =>
      if String.eqb kind "word" then
        let between := slice last_pos start command in
        let word_text := slice start stop command in
        let between := escape_sub between in
        let parts := (parts ++ [between])%list in
        if is_quoted_word word_text
        then ((parts ++ [word_text])%list, stop)
        else ((parts ++ [escape_sub word_text])%list, stop)
      else
        fold_left (fun acc part => visit_node command part acc) children acc
  end.

(** ** Observations, actions and the session object *)

Inductive BashCommandStatus : Type :=
  CONTINUE | COMPLETED | NO_CHANGE_TIMEOUT | HARD_TIMEOUT.

(** Modelled from the spec: the class [CmdOutputMetadata] is declared in
    [openhands/events/observation/commands.py], which is not among the
    sources.  Its fields and defaults are those of the specification's
    data model: exit code -1 when unknown, the other fields empty. *)
Record CmdOutputMetadata : Type := mkMetadata {
  md_exit_code : Z;
  md_pid : Z;
  md_username : option string;
  md_hostname : option string;
  md_working_dir : option string;
  md_py_interpreter_path : option string;
  md_prefix : string;
  md_suffix : string
}.

(** [CmdOutputMetadata()] *)
Definition CmdOutputMetadata_new : CmdOutputMetadata :=
  mkMetadata (-1) (-1) None None None None "" "".

Definition set_prefix (md : CmdOutputMetadata) (p : string) : CmdOutputMetadata :=
  mkMetadata (md_exit_code md) (md_pid md) (md_username md) (md_hostname md)
             (md_working_dir md) (md_py_interpreter_path md) p (md_suffix md).

Definition set_suffix (md : CmdOutputMetadata) (x : string) : CmdOutputMetadata :=
  mkMetadata (md_exit_code md) (md_pid md) (md_username md) (md_hostname md)
             (md_working_dir md) (md_py_interpreter_path md) (md_prefix md) x.

Inductive Observation : Type :=
| CmdOutputObservation (content : string) (command : string)
                       (metadata : CmdOutputMetadata)
| ErrorObservation (content : string).

(** The attributes of a [CmdRunAction] that the session reads.  The
    timeout is a whole number of seconds: a timeout given as a [float]
    (which would print with its decimal point in the note of the
    hard-timeout handler) is outside the model. *)
Record CmdRunAction : Type := mkCmdRun {
  command : string;
  is_input : bool;
  timeout : option Z;
  blocking : bool
}.

(** The actions [execute] distinguishes; [OtherAction] carries the text of
    [type(action)]. *)
Inductive Action : Type :=
| RunAction (a : CmdRunAction)
| StopProcessesAction
| OtherAction (type_name : string).

(** The attributes of a [BashSession] object.  Those that only
    [initialize] assigns are options: [None] is an attribute the object
    does not have, and reading it raises [AttributeError]. *)
Record BashSession : Type := mkSession {
  NO_CHANGE_TIMEOUT_SECONDS : Z;
  work_dir : string;
  username : option string;
  _initialized : bool;
  max_memory_mb : option Z;
  pane : option unit;       (* server, session, window and pane *)
  prev_status : option (option BashCommandStatus);
  prev_output : option string;
  _closed : option bool;
  _cwd : option string
}.

(** [BashSession.__init__] *)
Definition BashSession_new (work_dir : string) (username : option string)
    (no_change_timeout_seconds : Z) (max_memory_mb : option Z) : BashSession :=
  mkSession no_change_timeout_seconds work_dir username false max_memory_mb
            None None None None None.

(** ** The outside world *)

Inductive PyExc : Type :=
| AttributeError (name : string)
| AssertionError
| RuntimeError (msg : string)
| IndexError
| ValueError.

(** The reply to [display-message -p '#{pane_pid}'] once passed through
    [int(stdout[0].strip())]. *)
Inductive PidReply : Type :=
| PanePid (pid : nat)
| NoStdout              (* IndexError *)
| NotANumber.           (* ValueError *)

Inductive KillReply : Type := Killed | NoSuchProcess | AccessDenied.

(** One descendant as [psutil] shows it; [None] for a process whose
    accessors raise [NoSuchProcess] or [AccessDenied]. *)
Record ProcFacts : Type := mkFacts {
  pf_ppid : nat;
  pf_status_flag : ascii;          (* status()[0] *)
  pf_cmdline : list string
}.

Record Child : Type := mkChild { child_pid : nat; child_facts : option ProcFacts }.

Record ShellProcess : Type := mkShell {
  sh_facts : ProcFacts;
  sh_children : list Child         (* children(recursive=True) *)
}.

(** What the program asks of its environment, in the order it asks, each
    with the answer it got. *)
Inductive Effect : Type :=
| EffNewSession (start_directory : string)
| EffSetHistoryLimit (limit : N)
| EffNewWindow (window_shell : string)
| EffKillWindow
| EffSendKeys (keys : string) (enter : bool)
| EffCapturePane (stdout : list string)
| EffClearHistory
| EffDisplayPanePid (reply : PidReply)
| EffKillSession
| EffProcessTree (shell_pid : nat) (reply : option ShellProcess)
| EffKill (pid : nat) (reply : KillReply)
| EffTime (reading : Z)
| EffSleep (milliseconds : nat)
| EffShouldContinue (go : bool).

(** The answers of the environment; the [nat] is the number of external
    calls made before this one. *)
Record World : Type := mkWorld {
  capture_pane_stdout : nat -> list string;
  time_time : nat -> Z;
  should_continue : nat -> bool;
  display_pane_pid : nat -> PidReply;
  psutil_Process : nat -> nat -> option ShellProcess;
  psutil_kill : nat -> nat -> KillReply
}.

Inductive result (A : Type) : Type :=
| Ok (a : A)
| Raise (e : PyExc)
| Unfinished.            (* the polling loop was cut off by the fuel *)
Arguments Ok {A} a.
Arguments Raise {A} e.
Arguments Unfinished {A}.

Record St : Type := mkSt {
  self : BashSession;
  tick : nat;
  effects : list Effect
}.

Definition M (A : Type) : Type := St -> result A * St.

Definition ret {A} (a : A) : M A := fun st => (Ok a, st).
Definition raise {A} (e : PyExc) : M A := fun st => (Raise e, st).
Definition bind {A B} (m : M A) (k : A -> M B) : M B :=
  fun st =>
    match m st with
    | (Ok a, st') => k a st'
    | (Raise e, st') => (Raise e, st')
    | (Unfinished, st') => (Unfinished, st')
    end.

Declare Scope py_scope.
Delimit Scope py_scope with py.
Notation "x <- m ;; k" := (bind m (fun x => k))
  (at level 61, m at next level, right associativity) : py_scope.
Notation "m ;;; k" := (bind m (fun _ => k))
  (at level 61, right associativity) : py_scope.
Local Open Scope py_scope.

(** [try: m except Exception: handler] *)
Definition try_except {A} (m : M A) (handler : PyExc -> M A) : M A :=
  fun st =>
    match m st with
    | (Raise e, st') => handler e st'
    | r => r
    end.

Definition set_pane (v : option unit) (b : BashSession) : BashSession :=
  mkSession (NO_CHANGE_TIMEOUT_SECONDS b) (work_dir b) (username b)
            (_initialized b) (max_memory_mb b) v (prev_status b)
            (prev_output b) (_closed b) (_cwd b).

Definition set_prev_status (v : option BashCommandStatus) (b : BashSession)
  : BashSession :=
  mkSession (NO_CHANGE_TIMEOUT_SECONDS b) (work_dir b) (username b)
            (_initialized b) (max_memory_mb b) (pane b) (Some v)
            (prev_output b) (_closed b) (_cwd b).

Definition set_prev_output (v : string) (b : BashSession) : BashSession :=
  mkSession (NO_CHANGE_TIMEOUT_SECONDS b) (work_dir b) (username b)
            (_initialized b) (max_memory_mb b) (pane b) (prev_status b)
            (Some v) (_closed b) (_cwd b).

Definition set_closed (v : bool) (b : BashSession) : BashSession :=
  mkSession (NO_CHANGE_TIMEOUT_SECONDS b) (work_dir b) (username b)
            (_initialized b) (max_memory_mb b) (pane b) (prev_status b)
            (prev_output b) (Some v) (_cwd b).

Definition set_cwd (v : string) (b : BashSession) : BashSession :=
  mkSession (NO_CHANGE_TIMEOUT_SECONDS b) (work_dir b) (username b)
            (_initialized b) (max_memory_mb b) (pane b) (prev_status b)
            (prev_output b) (_closed b) (Some v).

Definition set_initialized (v : bool) (b : BashSession) : BashSession :=
  mkSession (NO_CHANGE_TIMEOUT_SECONDS b) (work_dir b) (username b)
            v (max_memory_mb b) (pane b) (prev_status b)
            (prev_output b) (_closed b) (_cwd b).

(** [self.attr = v] *)
Definition assign (f : BashSession -> BashSession) : M unit :=
  fun st => (Ok tt, mkSt (f (self st)) (tick st) (effects st)).

(** [self.attr] *)
Definition getattr {A} (name : string) (field : BashSession -> option A) : M A :=
  fun st =>
    match field (self st) with
    | Some a => (Ok a, st)
    | None => (Raise (AttributeError name), st)
    end.

Definition get_self : M BashSession := fun st => (Ok (self st), st).

(** A call that leaves the program: the effect is logged and the answer
    is the world's answer at the current tick. *)
Definition external {A} (e : A -> Effect) (answer : nat -> A) : M A :=
  fun st =>
    let a := answer (tick st) in
    (Ok a, mkSt (self st) (S (tick st)) (effects st ++ [e a])%list).

(** An external call that returns nothing. *)
Definition tell (e : Effect) : M unit := external (fun _ => e) (fun _ => tt).

(** A call on [self.pane] or [self.session]. *)
Definition pane_call {A} (e : A -> Effect) (answer : nat -> A) : M A :=
  getattr "pane" pane ;;; external e answer.

Definition time_sleep (milliseconds : nat) : M unit :=
  tell (EffSleep milliseconds).

(** ** Process discovery results *)

(** A line of [process_list]: the text built by the f-string, kept with
    the pid that [int(proc.split()[0])] reads back from it. *)
Record ProcStr : Type := mkProcStr { ps_pid : nat; ps_text : string }.

Definition process_str (p : nat) (f : ProcFacts) : ProcStr :=
  mkProcStr p (str_nat p ++ " " ++ str_nat (pf_ppid f) ++ " "
               ++ String (pf_status_flag f) "" ++ " " ++ join " " (pf_cmdline f)).

Record ProcessInfo : Type := mkProcessInfo {
  is_command_running : bool;
  current_command_pid : option nat;
  processes : list ProcStr;
  command_processes : list ProcStr;
  process_pids : list nat;
  command_pids : list nat
}.

Definition no_processes (running : bool) : ProcessInfo :=
  mkProcessInfo running None [] [] [] [].

(** [any(p == int(proc.split()[0]) for proc in command_processes)] *)
Definition pid_among (p : nat) (procs : list ProcStr) : bool :=
  existsb (fun proc => Nat.eqb p (ps_pid proc)) procs.

(** First pass over the children: list every process that has a command
    line, and take the direct children of the shell as command processes. *)
Definition first_pass (shell_pid : nat) (children : list Child)
  : list ProcStr * list ProcStr * option nat :=
  fold_left
    (fun acc child =>
       let '(process_list, command_processes, current_command_pid) := acc in
       match child_facts child with
       | None => acc
       | Some f =>
           if is_nil (pf_cmdline f) then acc
           else
             let process_str := process_str (child_pid child) f in
             let process_list := (process_list ++ [process_str])%list in
             if Nat.eqb (pf_ppid f) shell_pid then
               (process_list,
                (command_processes ++ [process_str])%list,
                match current_command_pid with
                | None | Some 0 => Some (child_pid child)
                | Some _ => current_command_pid
                end)
             else (process_list, command_processes, current_command_pid)
       end)
    children ([], [], None).

(** Second pass: the children of the command processes found so far. *)
Definition second_pass (children : list Child) (command_processes : list ProcStr)
  : list ProcStr :=
  fold_left
    (fun command_processes child =>
       match child_facts child with
       | None => command_processes
       | Some f =>
           if is_nil (pf_cmdline f) then command_processes
           else if pid_among (child_pid child) command_processes
           then command_processes
           else if pid_among (pf_ppid f) command_processes
           then (command_processes ++ [process_str (child_pid child) f])%list
           else command_processes
       end)
    children command_processes.

(** The body of [get_running_processes] once the shell process has been
    found. *)
Definition classify_processes (shell_pid : nat) (shell : ShellProcess)
  : ProcessInfo :=
  let '(process_list, command_processes, current_command_pid) :=
    first_pass shell_pid (sh_children shell) in
  let process_list := (process_str shell_pid (sh_facts shell) :: process_list) in
  let command_processes := second_pass (sh_children shell) command_processes in
  mkProcessInfo (negb (is_nil command_processes)) current_command_pid
                process_list command_processes
                (map ps_pid process_list) (map ps_pid command_processes).

(** The text of a capture whose lines are [stdout]. *)
Definition pane_text (stdout : list string) : string := join NL (map rstrip stdout).

(** ** Relations between the state before and the state after *)

(** A computation keeps a relation between the state it starts in and the
    state it ends in, whatever it returns or raises. *)
Definition keeps (R : St -> St -> Prop) {A} (m : M A) : Prop :=
  forall st r st', m st = (r, st') -> R st st'.

(** The state after one external call that was answered with effect [e]. *)
Definition after_call (st : St) (e : Effect) : St :=
  mkSt (self st) (S (tick st)) (effects st ++ [e])%list.

(** The state after an assignment to an attribute of the session. *)
Definition after_assign (st : St) (f : BashSession -> BashSession) : St :=
  mkSt (f (self st)) (tick st) (effects st).

Definition is_some {A} (o : option A) : bool :=
  match o with Some _ => true | None => false end.

(** Every attribute that [initialize] assigns is there. *)
Definition has_attrs (b : BashSession) : bool :=
  is_some (pane b) && is_some (prev_status b) && is_some (prev_output b)
  && is_some (_closed b) && is_some (_cwd b).

Definition same_cwd (st st' : St) : Prop := _cwd (self st') = _cwd (self st).

(** The effects of [st'] are those of [st] followed by effects that all
    satisfy [P]. *)
Definition emits (P : Effect -> Prop) (st st' : St) : Prop :=
  exists es, effects st' = (effects st ++ es)%list /\ Forall P es.

Definition not_keys (e : Effect) : Prop :=
  match e with EffSendKeys _ _ => False | _ => True end.

(** The session object is left as it is and no key is sent: the
    computation only looks at the world (or kills processes). *)
Definition observes (st st' : St) : Prop :=
  self st' = self st /\ emits not_keys st st'.

(** Nothing was asked of the world. *)
Definition silent (st st' : St) : Prop :=
  effects st' = effects st /\ tick st' = tick st.

(** ** Vocabulary of the statements *)

(** The spans the framing keeps when there are two matches or more: from
    one character past the end of a match to the start of the next match,
    each followed by a newline. *)
Definition spans_between (pane_content : string) (ps1_matches : list Match)
  : list string :=
  map (fun mm => slice (m_end (fst mm) + 1) (m_start (snd mm)) pane_content ++ NL)
      (List.combine ps1_matches (tl ps1_matches)).

(** The effects of a kill loop over [pids]: for each pid in turn, the pane
    pid is asked, and a kill follows exactly when the pid is not the pane
    pid; the loop goes on whatever the kill answers. *)
Inductive kill_trace : list nat -> list Effect -> Prop :=
| kill_none : kill_trace [] []
| kill_skip p pids es :
    kill_trace pids es ->
    kill_trace (p :: pids) (EffDisplayPanePid (PanePid p) :: es)
| kill_one p pane_pid reply pids es :
    p <> pane_pid ->
    kill_trace pids es ->
    kill_trace (p :: pids)
               (EffDisplayPanePid (PanePid pane_pid) :: EffKill p reply :: es).

Definition not_a_pid (r : PidReply) : Prop :=
  match r with PanePid _ => False | _ => True end.

(** The pids a list of effects tried to kill. *)
Fixpoint killed_pids (es : list Effect) : list nat :=
  match es with
  | [] => []
  | EffKill p _ :: rest => p :: killed_pids rest
  | _ :: rest => killed_pids rest
  end.

(** No backslash of [s] is followed by one of [;&|><]. *)
Fixpoint escape_free (s : string) : bool :=
  match s with
  | EmptyString => true
  | String c s' =>
      match s' with
      | String d _ => negb (Ascii.eqb c backslash && is_meta d) && escape_free s'
      | EmptyString => true
      end
  end.

(** A parse tree is tidy for the escaper, from the cursor [cur] on, when
    what it visits comes in document order and what it rewrites holds no
    escaped metacharacter: a heredoc redirect starts at or after the
    cursor and ends where its heredoc ends; a word starts at or after the
    cursor, the text before it is [escape_free], and the word is quoted or
    [escape_free]; any other node is tidy when its parts are, one after
    the other.  The result is the cursor after the node. *)
Fixpoint tidy_node (command : string) (n : node) (cur : nat) {struct n}
  : option nat :=
  let 'Node kind (start, stop) heredoc children := n in
  match (if String.eqb kind "redirect" then heredoc else None) with
  | Some (hstart, hstop) =>
      if ((cur <=? start) && (start <=? hstart) && (hstart <=? hstop)
          && (hstop =? stop))%nat
      then Some stop else None
  | None =>
      if String.eqb kind "word" then
        if ((cur <=? start) && (start <=? stop))%nat
           && escape_free (slice cur start command)
           && (is_quoted_word (slice start stop command)
               || escape_free (slice start stop command))
        then Some stop else None
      else
        fold_left
          (fun acc part =>
             match acc with
             | Some c => tidy_node command part c
             | None => None
             end)
          children (Some cur)
  end.

(** The same for the list of top-level nodes: the text before each node
    is [escape_free] and the node is tidy from its own start. *)
Definition tidy_from (command : string) (nodes : list node) (cur : nat)
  : option nat :=
  fold_left
    (fun acc n =>
       match acc with
       | Some c =>
           if (c <=? fst (n_pos n))%nat
              && escape_free (slice c (fst (n_pos n)) command)
           then tidy_node command n (fst (n_pos n))
           else None
       | None => None
       end)
    nodes (Some cur).

Definition tidy (command : string) (nodes : list node) : bool :=
  is_some (tidy_from command nodes 0).

(** What the escaper has emitted so far is the input up to the cursor. *)
Definition emitted_upto (command : string) (acc : list string * nat) : Prop :=
  join "" (fst acc) = take (snd acc) command.

(** ** The startup command of the action execution server *)

(** [openhands/runtime/utils/command.py].  Of the configuration objects
    only the attributes that the function reads are kept. *)

Record PluginRequirement : Type := mkPlugin { plugin_name : string }.

Record SandboxConfig : Type := mkSandboxConfig {
  browsergym_eval_env : option string;
  user_id : Z
}.

Record AppConfig : Type := mkAppConfig {
  sandbox : SandboxConfig;
  run_as_openhands : bool;
  workspace_mount_path_in_sandbox : string
}.

Definition DEFAULT_PYTHON_PREFIX : list string :=
  ["/openhands/micromamba/bin/micromamba"; "run"; "-n"; "openhands";
   "poetry"; "run"].

(** [x or y] for an optional [str]: [None] and the empty string are
    falsy. *)
Definition or_str (x : option string) (y : string) : string :=
  match x with
  | Some EmptyString | None => y
  | Some v => v
  end.

(** [x or y] for an optional [int]: [None] and [0] are falsy. *)
Definition or_int (x : option Z) (y : Z) : Z :=
  match x with
  | Some 0%Z | None => y
  | Some v => v
  end.

(** The defaults of the source are [python_prefix = DEFAULT_PYTHON_PREFIX],
    [use_nice_for_root = True] and no override. *)
Definition get_action_execution_server_startup_command
    (server_port : Z) (plugins : option (list PluginRequirement))
    (app_config : AppConfig) (python_prefix : list string)
    (use_nice_for_root : bool) (override_user_id : option Z)
    (override_username : option string) : list string :=
  let sandbox_config := sandbox app_config in
  let plugin_args :=
    match plugins with
    | Some ((_ :: _) as ps) => "--plugins" :: map plugin_name ps
    | _ => []
    end in
  let browsergym_args :=
    match browsergym_eval_env sandbox_config with
    | Some env => "--browsergym-eval-env" :: split_space env
    | None => []
    end in
  let username :=
    or_str override_username
           (if run_as_openhands app_config then "openhands" else "root") in
  let user_id :=
    or_int override_user_id
           (if run_as_openhands app_config then user_id sandbox_config
            else 0%Z) in
  let is_root := String.eqb username "root" in
  let base_cmd :=
    (python_prefix
     ++ ["python"; "-u"; "-m"; "openhands.runtime.action_execution_server";
         str_Z server_port; "--working-dir";
         workspace_mount_path_in_sandbox app_config]
     ++ plugin_args
     ++ ["--username"; username; "--user-id"; str_Z user_id]
     ++ browsergym_args)%list in
  if is_root && use_nice_for_root then
    let cmd_str := join " " base_cmd in
    ["nice"; "-n"; "-20"; "sh"; "-c";
     "echo -1000 > /proc/self/oom_score_adj && exec " ++ cmd_str]
  else base_cmd.

(** No character of [s] is a space. *)
Definition spaceless (s : string) : Prop := remove_spaces s = s.

(** ** The git changes of the runtime *)

(** [Runtime.get_untracked_files] and [Runtime.get_git_changes] of
    [openhands/runtime/base.py].  [Runtime.run] is abstract: its answer
    to a command is [Some] of the content of the observation it returns,
    and [None] when the call, or the reading of the content, raises an
    [Exception] (both methods catch every [Exception]).  An entry of the
    result, a [dict] with the keys [status] and [path], is a record. *)

Record GitChange : Type := mkGitChange {
  change_status : string;
  change_path : string
}.

Definition status_map : list (string * string) :=
  [("M", "M"); ("A", "A"); ("D", "D"); ("R", "R")].

(** [d.get(key, default)] *)
Fixpoint dict_get (d : list (string * string)) (key default : string) : string :=
  match d with
  | [] => default
  | (k, v) :: d' => if String.eqb k key then v else dict_get d' key default
  end.

(** One turn of the loop of [get_git_changes]; [None] when
    [status.replace(' ', '')[0]] raises [IndexError]. *)
Definition change_of_line (line : string) : option GitChange :=
  let status := strip (take 2 line) in
  let path := strip (drop 2 line) in
  match remove_spaces status with
  | EmptyString => None
  | String c _ =>
      let primary_status := String c EmptyString in
      let mapped_status := dict_get status_map primary_status primary_status in
      Some (mkGitChange mapped_status path)
  end.

(** The loop over the lines, with the [result] built so far. *)
Fixpoint changes_of_lines (obs_list : list string) (result : list GitChange)
  : option (list GitChange) :=
  match obs_list with
  | [] => Some result
  | line :: rest =>
      match change_of_line line with
      | Some change => changes_of_lines rest (result ++ [change])
      | None => None
      end
  end.

Section GitChanges.

Variable run : string -> option string.

Definition get_untracked_files : list GitChange :=
  match run "git ls-files --others --exclude-standard" with
  | Some content => map (fun path => mkGitChange "A" path) (splitlines content)
  | None => []
  end.

Definition get_git_changes : list GitChange :=
  match run "git diff --name-status HEAD" with
  | Some content =>
      match changes_of_lines (splitlines content) [] with
      | Some result => result ++ get_untracked_files
      | None => []
      end
  | None => []
  end.

End GitChanges.

(** ** Sample collaborators for the examples *)

(** A capture that holds one PS1 block followed by the output [hello], and
    the match of that block. *)
Definition sample_block : string :=
  "###PS1JSON###" ++ NL ++ "{}" ++ NL ++ "###PS1END###".

Definition sample_pane_after : string := sample_block ++ NL ++ "hello".

Definition sample_match_first : Match := mkMatch 0 29 (NL ++ "{}" ++ NL).

(** Modelled from the spec: the scan of a capture for fenced blocks and
    the parse of a block, [CmdOutputMetadata.matches_ps1_metadata] and
    [CmdOutputMetadata.from_ps1_match], which are not in the files embedded
    here.  The engine takes both as parameters; these two stand for them
    on the sample panes.  They read the JSON texts that the prompt prints:
    an object whose members are strings written without escapes.  Other
    JSON texts (numbers, nested values, escapes) are not used in the
    examples. *)

Definition dquote_char : ascii := "034"%char.

(** The white space of JSON. *)
Definition is_json_space (c : ascii) : bool :=
  let n := nat_of_ascii c in
  ((n =? 32) || (n =? 9) || (n =? 10) || (n =? 13))%nat.

Fixpoint json_skip (s : string) : string :=
  match s with
  | String c s' => if is_json_space c then json_skip s' else s
  | EmptyString => EmptyString
  end.

(** The rest of a JSON string after its opening quote: its text and what
    follows the closing quote.  A backslash or a control character ends
    the reading. *)
Fixpoint json_chars (s : string) : option (string * string) :=
  match s with
  | EmptyString => None
  | String c s' =>
      if Ascii.eqb c dquote_char then Some (EmptyString, s')
      else if Ascii.eqb c backslash || (nat_of_ascii c <? 32)%nat then None
      else match json_chars s' with
           | Some (text, rest) => Some (String c text, rest)
           | None => None
           end
  end.

Definition json_string (s : string) : option (string * string) :=
  match s with
  | String c s' => if Ascii.eqb c dquote_char then json_chars s' else None
  | EmptyString => None
  end.

(** The members of an object from the first one on, up to the closing
    brace and the end of the text. *)
Fixpoint json_members (fuel : nat) (s : string)
  : option (list (string * string)) :=
  match fuel with
  | 0 => None
  | S fuel' =>
      match json_string s with
      | None => None
      | Some (key, after_key) =>
          match json_skip after_key with
          | String ":"%char after_colon =>
              match json_string (json_skip after_colon) with
              | None => None
              | Some (value, after_value) =>
                  match json_skip after_value with
                  | String ","%char more =>
                      match json_members fuel' (json_skip more) with
                      | Some members => Some ((key, value) :: members)
                      | None => None
                      end
                  | String "}"%char rest =>
                      match json_skip rest with
                      | EmptyString => Some [(key, value)]
                      | String _ _ => None
                      end
                  | _ => None
                  end
              end
          | _ => None
          end
      end
  end.

(** [json.loads] on an object of string members. *)
Definition json_object (s : string) : option (list (string * string)) :=
  match json_skip s with
  | String "{"%char inside =>
      match json_skip inside with
      | String "}"%char rest =>
          match json_skip rest with
          | EmptyString => Some []
          | String _ _ => None
          end
      | first => json_members (String.length s) first
      end
  | _ => None
  end.

(** [d.get(key)]: of two members with the same key the later one counts. *)
Fixpoint json_get (key : string) (members : list (string * string))
  : option string :=
  match members with
  | [] => None
  | (k, v) :: rest =>
      match json_get key rest with
      | Some later => Some later
      | None => if String.eqb k key then Some v else None
      end
  end.

(** The value of a numeral written in decimal digits. *)
Fixpoint digits_value (acc : Z) (s : string) : option Z :=
  match s with
  | EmptyString => Some acc
  | String c s' =>
      let n := nat_of_ascii c in
      if ((48 <=? n) && (n <=? 57))%nat
      then digits_value (10 * acc + Z.of_nat (n - 48))%Z s'
      else None
  end.

(** [int(float(str(v)))] when the member is there, with [-1] for a text
    that is not a numeral, and [-1] as the default of the field. *)
Definition json_int (key : string) (members : list (string * string)) : Z :=
  match json_get key members with
  | Some (String c s' as v) =>
      match digits_value 0 v with
      | Some n => n
      | None => (-1)%Z
      end
  | _ => (-1)%Z
  end.

(** [true] at the start of the text and right after a newline: where [^]
    matches under [re.MULTILINE]. *)
Definition at_line_start (i : nat) (s : string) : bool :=
  match i with
  | 0 => true
  | S k => match String.get k s with
           | Some c => is_lf c
           | None => false
           end
  end.

(** The matches of [^###PS1JSON###(.*?)###PS1END###] from left to right
    (with [re.DOTALL]), those whose group 1 is not JSON being left out. *)
Fixpoint scan_ps1 (fuel from : nat) (s : string) : list Match :=
  match fuel with
  | 0 => []
  | S fuel' =>
      match String.index from "###PS1JSON###" s with
      | None => []
      | Some i =>
          if at_line_start i s then
            match String.index (i + 13) "###PS1END###" s with
            | None => []
            | Some j =>
                let group1 := String.substring (i + 13) (j - (i + 13)) s in
                match json_object (strip group1) with
                | Some _ => mkMatch i (j + 12) group1 :: scan_ps1 fuel' (j + 12) s
                | None => scan_ps1 fuel' (j + 12) s
                end
            end
          else scan_ps1 fuel' (i + 1) s
      end
  end.

Definition sample_matches_ps1_metadata (s : string) : list Match :=
  scan_ps1 (String.length s) 0 s.

(** The metadata of a block that the scan has kept. *)
Definition sample_from_ps1_match (m : Match) : CmdOutputMetadata :=
  match json_object (m_group m) with
  | Some members =>
      mkMetadata (json_int "exit_code" members) (json_int "pid" members)
                 (json_get "username" members) (json_get "hostname" members)
                 (json_get "working_dir" members)
                 (json_get "py_interpreter_path" members)
                 (match json_get "prefix" members with Some t => t | None => "" end)
                 (match json_get "suffix" members with Some t => t | None => "" end)
  | None => CmdOutputMetadata_new
  end.

(** The body of a prompt: the exit code of the command and the working
    directory of the shell. *)
Definition json_member (key value : string) : string :=
  dquote ++ key ++ dquote ++ ": " ++ dquote ++ value ++ dquote.

Definition ps1_body (exit_code working_dir : string) : string :=
  "{" ++ json_member "exit_code" exit_code ++ ", "
      ++ json_member "working_dir" working_dir ++ "}".

Definition sample_PS1_END : string := NL ++ "###PS1END###".

(** A pane that shows the prompt and nothing else. *)
Definition idle_stdout : list string :=
  ["###PS1JSON###"; ps1_body "0" "/workspace"; "###PS1END###"].

(** A pane where the command started after the first prompt has printed
    [1] and is still running, and the same pane once the command has also
    printed [2] and the next prompt has come. *)
Definition running_stdout : list string :=
  ["###PS1JSON###"; ps1_body "0" "/workspace"; "###PS1END###"; "1"].

Definition finished_stdout : list string :=
  ["###PS1JSON###"; ps1_body "0" "/workspace"; "###PS1END###"; "1"; "2"; "";
   "###PS1JSON###"; ps1_body "0" "/workspace"; "###PS1END###"].

(** The pane after a long command whose first lines, and the prompt before
    them, have left the scrollback: the tail of the output and the final
    PS1 block. *)
Definition truncated_stdout : list string :=
  ["19999"; "20000"; "";
   "###PS1JSON###"; ps1_body "0" "/workspace"; "###PS1END###"].

(** A pane after [cd /tmp]: the prompt before the command and the prompt
    after it, which reports the new directory. *)
Definition moved_stdout : list string :=
  ["###PS1JSON###"; ps1_body "0" "/workspace"; "###PS1END###"; "";
   "###PS1JSON###"; ps1_body "0" "/tmp"; "###PS1END###"].

(** A world that always shows the same pane and where time advances by
    one unit per external call; the shell has pid 100 and no process can
    be inspected or killed. *)
Definition still_world (stdout : list string) : World :=
  mkWorld (fun _ => stdout) (fun n => Z.of_nat n) (fun _ => true)
          (fun _ => PanePid 100) (fun _ _ => None) (fun _ _ => NoSuchProcess).

(** A process tree under the shell 100: a job 101, a child 102 of the job
    that shows no command line, and a child 103 of that one. *)
Definition sample_shell : ShellProcess :=
  mkShell (mkFacts 1 "S" ["/bin/bash"])
          [mkChild 101 (Some (mkFacts 100 "S" ["bash"; "job.sh"]));
           mkChild 102 (Some (mkFacts 101 "S" []));
           mkChild 103 (Some (mkFacts 102 "S" ["sleep"; "60"]))].

(** A world where the command of [running_stdout] is still running, the
    shell has that process tree and every kill succeeds. *)
Definition busy_world : World :=
  mkWorld (fun _ => running_stdout) (fun n => Z.of_nat n) (fun _ => true)
          (fun _ => PanePid 100)
          (fun _ p => if Nat.eqb p 100 then Some sample_shell else None)
          (fun _ _ => Killed).

(** The world of [still_world] once the shutdown of the process has been
    requested. *)
Definition halted_world (stdout : list string) : World :=
  mkWorld (fun _ => stdout) (fun n => Z.of_nat n) (fun _ => false)
          (fun _ => PanePid 100) (fun _ _ => None) (fun _ _ => NoSuchProcess).

(** A session as [initialize] leaves it, with the given status and
    previous output. *)
Definition sample_session (status : option BashCommandStatus) (prev : string)
  : BashSession :=
  mkSession 30 "/workspace" None true None
            (Some tt) (Some status) (Some prev) (Some false) (Some "/workspace").

Definition sample_state (status : option BashCommandStatus) (prev : string) : St :=
  mkSt (sample_session status prev) 0 [].

(** A parser that knows four inputs: two commands on two lines, an
    [echo] of a single-quoted word that holds an escaped semicolon, an
    [ls] followed by an escaped semicolon, and a [cat] of a heredoc into a
    file.  In the last one the heredoc redirect, [<<EOF], is followed by
    another redirect on the same line, so its span ends before its
    heredoc starts. *)
Definition two_commands : string := "echo a" ++ NL ++ "echo b".

Definition quoted_command : string := "echo 'a\;b'".

Definition escaped_command : string := "ls \;".

Definition heredoc_command : string :=
  "cat <<EOF > out.txt" ++ NL ++ "body" ++ NL ++ "EOF".

Definition sample_bashlex_parse (s : string) : option (list node) :=
  if String.eqb s two_commands then
    Some [Node "command" (0, 6) None
               [Node "word" (0, 4) None []; Node "word" (5, 6) None []];
          Node "command" (7, 13) None
               [Node "word" (7, 11) None []; Node "word" (12, 13) None []]]
  else if String.eqb s quoted_command then
    Some [Node "command" (0, 11) None
               [Node "word" (0, 4) None []; Node "word" (5, 11) None []]]
  else if String.eqb s escaped_command then
    Some [Node "command" (0, 5) None
               [Node "word" (0, 2) None []; Node "word" (3, 5) None []]]
  else if String.eqb s heredoc_command then
    Some [Node "command" (0, 19) None
               [Node "word" (0, 3) None [];
                Node "redirect" (4, 9) (Some (20, 28)) [];
                Node "redirect" (10, 19) None []]]
  else None.

(** ** The engine *)

Fixpoint enumerate_from {A} (i : nat) (l : list A) : list (nat * A) :=
  match l with
  | [] => []
  | x :: rest => (i, x) :: enumerate_from (S i) rest
  end.

(** The loop variables of [_poll_for_command_completion]. *)
Record PollVars : Type := mkPollVars {
  start_time : Z;
  last_change_time : Z;
  last_pane_output : string
}.

Section Engine.

(** Declared in [openhands/events/observation/commands.py], which is not
    among the sources: the end marker of the PS1 block, the scan of a
    capture for PS1 blocks and the parse of one block.  The parse is taken
    to return for every match it is given: an exception raised by it would
    pass through the completed handler and [execute] uncaught. *)
Variable CMD_OUTPUT_PS1_END : string.
Variable matches_ps1_metadata : string -> list Match.
Variable from_ps1_match : Match -> CmdOutputMetadata.

(** [bashlex.parse]; [None] when it raises [ParsingError] or
    [NotImplementedError], the two exceptions that the splitter and the
    escaper catch.  Any other exception of the parser would pass through
    both, and through [execute], uncaught: the embedding takes a parser
    that raises no other. *)
Variable bashlex_parse : string -> option (list node).

Variable os_path_abspath : string -> string.

(** The keys that install the prompt function (the literal of
    [initialize]). *)
Variable PS1_SETUP_KEYS : string.

Variable W : World.

(** *** Command splitter *)

Definition split_bash_commands (commands : string) : list string :=
  if negb (nonempty (strip commands)) then [""]
  else
    match bashlex_parse commands with
    | None => [commands]
    | Some parsed =>
        let '(result, last_end) :=
          fold_left
            (fun acc node =>
               let '(result, last_end) := acc in
               let '(start, stop) := n_pos node in
               let result :=
                 if (last_end <? start)%nat then
                   let between := slice last_end start commands in
                   if negb (is_nil result)
                   then append_to_last result (rstrip between)
                   else if nonempty (strip between)
                   then (result ++ [rstrip between])%list
                   else result
                 else result in
               let command := rstrip (slice start stop commands) in
               ((result ++ [command])%list, stop))
            parsed ([], 0) in
        let remaining := rstrip (drop last_end commands) in
        if (last_end <? String.length commands)%nat && negb (is_nil result)
        then append_to_last result remaining
        else if (last_end <? String.length commands)%nat
        then (if nonempty remaining then (result ++ [remaining])%list else result)
        else result
    end.

(** *** Shell-safe escaper *)

(** One turn of the loop over the top-level nodes. *)
Definition visit_top_node (command : string) (acc : list string * nat)
    (node : node) : list string * nat :=
  let '(parts, last_pos) := acc in
  let between := slice last_pos (fst (n_pos node)) command in
  let between := escape_sub between in
  visit_node command node ((parts ++ [between])%list, fst (n_pos node)).

Definition escape_bash_special_chars (command : string) : string :=
  if String.eqb (strip command) "" then ""
  else
    match bashlex_parse command with
    | None => command
    | Some nodes =>
        let '(parts, last_pos) :=
          fold_left (visit_top_node command) nodes ([], 0) in
        let remaining := drop last_pos command in
        join "" (parts ++ [remaining])%list
    end.

Definition _remove_command_prefix (command_output command : string) : string :=
  lstrip (removeprefix (lstrip command_output) (lstrip command)).

(** *** Pane driver *)

Definition now : M Z := external EffTime (time_time W).

Definition send_keys (keys : string) (enter : bool) : M unit :=
  pane_call (fun _ => EffSendKeys keys enter) (fun _ => tt).

Definition _get_pane_content : M string :=
  stdout <- pane_call EffCapturePane (capture_pane_stdout W) ;;
  ret (pane_text stdout).

Definition _clear_screen : M unit :=
  send_keys "C-l" false ;;;
  time_sleep 100 ;;;
  pane_call (fun _ => EffClearHistory) (fun _ => tt).

Definition _ready_for_next_command : M unit := _clear_screen.

Definition HISTORY_LIMIT : N := 10000%N.

Definition initialize : M unit :=
  me <- get_self ;;
  let _shell_command :=
    match username me with
    | Some u =>
        if String.eqb u "root" || String.eqb u "openhands"
        then "su " ++ u ++ " -" else "/bin/bash"
    | None => "/bin/bash"
    end in
  let window_command := _shell_command in
  tell (EffNewSession (work_dir me)) ;;;
  tell (EffSetHistoryLimit HISTORY_LIMIT) ;;;
  tell (EffNewWindow window_command) ;;;
  assign (set_pane (Some tt)) ;;;
  tell EffKillWindow ;;;
  send_keys "whoami > /tmp/user.txt && hostname > /tmp/host.txt" true ;;;
  time_sleep 100 ;;;
  send_keys PS1_SETUP_KEYS true ;;;
  time_sleep 100 ;;;
  _clear_screen ;;;
  assign (set_prev_status None) ;;;
  assign (set_prev_output "") ;;;
  assign (set_closed false) ;;;
  assign (set_cwd (os_path_abspath (work_dir me))) ;;;
  assign (set_initialized true).

Definition _is_special_key (command : string) : bool :=
  let _command := strip command in
  startswith _command "C-" && Nat.eqb (String.length _command) 3.

(** *** Process discovery and kill *)

Definition get_running_processes : M ProcessInfo :=
  pane_content <- _get_pane_content ;;
  let ps1_matches := matches_ps1_metadata pane_content in
  let is_command_running :=
    negb (endswith (rstrip pane_content) (rstrip CMD_OUTPUT_PS1_END)) in
  if (0 <? List.length ps1_matches)%nat && negb is_command_running
  then ret (no_processes false)
  else
    reply <- pane_call EffDisplayPanePid (display_pane_pid W) ;;
    match reply with
    | NoStdout | NotANumber => ret (no_processes is_command_running)
    | PanePid shell_pid =>
        shell <- external (EffProcessTree shell_pid)
                          (fun t => psutil_Process W t shell_pid) ;;
        match shell with
        | None => ret (no_processes is_command_running)
        | Some shell_process => ret (classify_processes shell_pid shell_process)
        end
    end.

Definition kill_process (p : nat) : M bool :=
  reply <- external (EffKill p) (fun t => psutil_kill W t p) ;;
  match reply with
  | Killed => ret true
  | NoSuchProcess | AccessDenied => ret false
  end.

(** The loop of [kill_all_processes]; the pane pid is asked again for
    every pid, and a reply that is not a number raises. *)
Fixpoint kill_each (pids : list nat) (success : bool) : M bool :=
  match pids with
  | [] => ret success
  | p :: rest =>
      reply <- pane_call EffDisplayPanePid (display_pane_pid W) ;;
      match reply with
      | NoStdout => raise IndexError
      | NotANumber => raise ValueError
      | PanePid pane_pid =>
          if negb (Nat.eqb p pane_pid) then
            killed <- kill_process p ;;
            kill_each rest (if killed then true else success)
          else kill_each rest success
      end
  end.

Definition kill_all_processes : M bool :=
  process_info <- get_running_processes ;;
  kill_each (process_pids process_info) false.

Definition close : M unit :=
  closed <- getattr "_closed" _closed ;;
  if (closed : bool) then ret tt
  else
    kill_all_processes ;;;
    pane_call (fun _ => EffKillSession) (fun _ => tt) ;;;
    assign (set_closed true).

(** [__del__] *)
Definition __del__ : M unit := close.

(** *** Observation builders *)

Definition _get_command_output (command raw_command_output : string)
    (metadata : CmdOutputMetadata) (continue_prefix : string)
  : M (string * CmdOutputMetadata) :=
  prev <- getattr "prev_output" prev_output ;;
  let '(command_output, metadata) :=
    if nonempty prev
    then (removeprefix raw_command_output prev, set_prefix metadata continue_prefix)
    else (raw_command_output, metadata) in
  assign (set_prev_output raw_command_output) ;;;
  let command_output := _remove_command_prefix command_output command in
  ret (rstrip command_output, metadata).

Definition truncation_banner (num_lines : nat) : string :=
  "[Previous command outputs are truncated. Showing the last "
    ++ str_nat num_lines ++ " lines of the output below.]" ++ NL.

Definition continuation_banner : string :=
  "[Below is the output of the previous command.]" ++ NL.

(** [metadata.working_dir != self._cwd and metadata.working_dir] *)
Definition cwd_changed (working_dir : option string) (cwd : string) : bool :=
  match working_dir with
  | Some d => negb (String.eqb d cwd) && nonempty d
  | None => false
  end.

Definition _handle_completed_command (command pane_content : string)
    (ps1_matches : list Match) : M Observation :=
  let is_special_key := _is_special_key command in
  match rev ps1_matches with
  | [] => raise AssertionError
  | last_match :: _ =>
      let metadata := from_ps1_match last_match in
      let get_content_before_last_match :=
        Nat.eqb (List.length ps1_matches) 1 in
      cwd <- getattr "_cwd" _cwd ;;
      (if cwd_changed (md_working_dir metadata) cwd
       then assign (set_cwd (match md_working_dir metadata with
                             | Some d => d | None => "" end))
       else ret tt) ;;;
      let raw_command_output :=
        _combine_outputs_between_matches pane_content ps1_matches
          get_content_before_last_match in
      let metadata :=
        if get_content_before_last_match
        then set_prefix metadata
               (truncation_banner (List.length (splitlines raw_command_output)))
        else metadata in
      suffix <-
        (if negb is_special_key
         then ret (NL ++ "[The command completed with exit code "
                      ++ str_Z (md_exit_code metadata) ++ ".]")
         else match last_char command with
              | Some key =>
                  ret (NL ++ "[The command completed with exit code "
                          ++ str_Z (md_exit_code metadata) ++ ". CTRL+"
                          ++ String (upper key) "" ++ " was sent.]")
              | None => raise IndexError
              end) ;;
      let metadata := set_suffix metadata suffix in
      out <- _get_command_output command raw_command_output metadata "" ;;
      let '(command_output, metadata) := out in
      assign (set_prev_status (Some COMPLETED)) ;;;
      assign (set_prev_output "") ;;;
      _ready_for_next_command ;;;
      ret (CmdOutputObservation command_output command metadata)
  end.

Definition waiting_advice : string :=
  "You may wait longer to see additional output by sending empty command '', "
    ++ "send other commands to interact with the current process, "
    ++ "or send keys to interrupt/kill the command.]".

Definition _handle_nochange_timeout_command (command pane_content : string)
    (ps1_matches : list Match) : M Observation :=
  assign (set_prev_status (Some NO_CHANGE_TIMEOUT)) ;;;
  let raw_command_output :=
    _combine_outputs_between_matches pane_content ps1_matches false in
  me <- get_self ;;
  let metadata :=
    set_suffix CmdOutputMetadata_new
      (NL ++ "[The command has no new output after "
          ++ str_Z (NO_CHANGE_TIMEOUT_SECONDS me) ++ " seconds. "
          ++ waiting_advice) in
  out <- _get_command_output command raw_command_output metadata
                             continuation_banner ;;
  let '(command_output, metadata) := out in
  ret (CmdOutputObservation command_output command metadata).

Definition _handle_hard_timeout_command (command pane_content : string)
    (ps1_matches : list Match) (timeout : Z) : M Observation :=
  assign (set_prev_status (Some HARD_TIMEOUT)) ;;;
  let raw_command_output :=
    _combine_outputs_between_matches pane_content ps1_matches false in
  let metadata :=
    set_suffix CmdOutputMetadata_new
      (NL ++ "[The command timed out after " ++ str_Z timeout ++ " seconds. "
          ++ waiting_advice) in
  out <- _get_command_output command raw_command_output metadata
                             continuation_banner ;;
  let '(command_output, metadata) := out in
  ret (CmdOutputObservation command_output command metadata).

Definition interrupted_suffix (command : string) : string :=
  NL ++ "[Your command " ++ dquote ++ command ++ dquote ++ " is NOT executed. "
     ++ "The previous command is still running - You CANNOT send new commands until the previous command is completed. "
     ++ "By setting `is_input` to `true`, you can interact with the current process: "
     ++ "You may wait longer to see additional output of the previous command by sending empty command '', "
     ++ "send other commands to interact with the current process, "
     ++ "or send keys (" ++ dquote ++ "C-c" ++ dquote ++ ", " ++ dquote ++ "C-z"
     ++ dquote ++ ", " ++ dquote ++ "C-d" ++ dquote
     ++ ") to interrupt/kill the previous command before sending your new command.]".

Definition _handle_interrupted_command (command last_pane_output : string)
  : M Observation :=
  let _ps1_matches := matches_ps1_metadata last_pane_output in
  let raw_command_output :=
    _combine_outputs_between_matches last_pane_output _ps1_matches false in
  let metadata := set_suffix CmdOutputMetadata_new (interrupted_suffix command) in
  out <- _get_command_output command raw_command_output metadata
                             continuation_banner ;;
  let '(command_output, metadata) := out in
  ret (CmdOutputObservation command_output command metadata).

(** *** The polling loop *)

(** [action.timeout] as a condition: set and not zero. *)
Definition timeout_set (t : option Z) : option Z :=
  match t with
  | Some z => if Z.eqb z 0 then None else Some z
  | None => None
  end.

(** One turn of the [while] loop: the observation that ends the loop, or
    the loop variables of the next turn.  The clock readings that only
    feed debug messages are taken and dropped, as the f-strings do. *)
Definition poll_iteration (command : string) (action : CmdRunAction)
    (v : PollVars) : M (Observation + PollVars) :=
  _start_time <- now ;;
  cur_pane_output <- _get_pane_content ;;
  _logged <- now ;;
  try_except (get_running_processes ;;; ret tt) (fun _ => ret tt) ;;;
  let ps1_matches := matches_ps1_metadata cur_pane_output in
  v <- (if negb (String.eqb cur_pane_output (last_pane_output v))
        then last_change_time <- now ;;
             ret (mkPollVars (start_time v) last_change_time cur_pane_output)
        else ret v) ;;
  if endswith (rstrip cur_pane_output) (rstrip CMD_OUTPUT_PS1_END)
  then
    obs <- _handle_completed_command command cur_pane_output ps1_matches ;;
    ret (inl obs)
  else
    t <- now ;;
    let time_since_last_change := (t - last_change_time v)%Z in
    me <- get_self ;;
    if negb (blocking action)
       && (NO_CHANGE_TIMEOUT_SECONDS me <=? time_since_last_change)%Z
    then
      obs <- _handle_nochange_timeout_command command cur_pane_output
                                              ps1_matches ;;
      ret (inl obs)
    else
      _logged <- now ;;
      timed_out <-
        match timeout_set (timeout action) with
        | Some limit =>
            t <- now ;;
            ret (if (limit <=? t - start_time v)%Z then Some limit else None)
        | None => ret None
        end ;;
      match timed_out with
      | Some limit =>
          obs <- _handle_hard_timeout_command command cur_pane_output
                                              ps1_matches limit ;;
          ret (inl obs)
      | None =>
          time_sleep 500 ;;;
          ret (inr v)
      end.

(** [while should_continue(): ...], cut off after [fuel] turns. *)
Fixpoint poll_loop (fuel : nat) (command : string) (action : CmdRunAction)
    (v : PollVars) : M Observation :=
  match fuel with
  | 0 => fun st => (Unfinished, st)
  | S fuel' =>
      go <- external EffShouldContinue (should_continue W) ;;
      if (go : bool) then
        r <- poll_iteration command action v ;;
        match r with
        | inl obs => ret obs
        | inr v' => poll_loop fuel' command action v'
        end
      else raise (RuntimeError "Bash session was likely interrupted...")
  end.

Definition _poll_for_command_completion (fuel : nat) (command : string)
    (action : CmdRunAction) : M Observation :=
  start_time <- now ;;
  let last_change_time := start_time in
  last_pane_output <- _get_pane_content ;;
  poll_loop fuel command action
            (mkPollVars start_time last_change_time last_pane_output).

(** *** Action dispatch *)

(** [self.prev_status in {CONTINUE, NO_CHANGE_TIMEOUT, HARD_TIMEOUT}] *)
Definition is_continuing (s : option BashCommandStatus) : bool :=
  match s with
  | Some CONTINUE | Some NO_CHANGE_TIMEOUT | Some HARD_TIMEOUT => true
  | _ => false
  end.

(** [self.prev_status in {HARD_TIMEOUT, NO_CHANGE_TIMEOUT}] *)
Definition is_timed_out (s : option BashCommandStatus) : bool :=
  match s with
  | Some NO_CHANGE_TIMEOUT | Some HARD_TIMEOUT => true
  | _ => false
  end.

Definition _handle_empty_command (fuel : nat) (action : CmdRunAction)
  : M Observation :=
  (if String.eqb (strip (command action)) "" then ret tt
   else raise AssertionError) ;;;
  status <- getattr "prev_status" prev_status ;;
  if negb (is_continuing status) then
    ret (CmdOutputObservation
           "ERROR: No previous running command to retrieve logs from."
           "" CmdOutputMetadata_new)
  else _poll_for_command_completion fuel "" action.

Definition _handle_input_command (fuel : nat) (action : CmdRunAction)
  : M Observation :=
  let command := strip (command action) in
  status <- getattr "prev_status" prev_status ;;
  if negb (is_continuing status) then
    ret (CmdOutputObservation
           "ERROR: No previous running command to interact with."
           "" CmdOutputMetadata_new)
  else
    let is_special_key := _is_special_key command in
    send_keys command (negb is_special_key) ;;;
    _poll_for_command_completion fuel command action.

Definition multiple_commands_error (splited_commands : list string) : string :=
  "ERROR: Cannot execute multiple commands at once." ++ NL
    ++ "Please run each command separately OR chain them into a single command via && or ;"
    ++ NL ++ "Provided commands:" ++ NL
    ++ join NL (map (fun ic => "(" ++ str_nat (fst ic + 1) ++ ") " ++ snd ic)
                    (enumerate_from 0 splited_commands)).

Definition _handle_normal_command (fuel : nat) (action : CmdRunAction)
  : M Observation :=
  let command := strip (command action) in
  last_pane_output <- _get_pane_content ;;
  status <- getattr "prev_status" prev_status ;;
  if is_timed_out status
     && negb (endswith last_pane_output CMD_OUTPUT_PS1_END)
  then _handle_interrupted_command command last_pane_output
  else
    let splited_commands := split_bash_commands command in
    if (1 <? List.length splited_commands)%nat
    then ret (ErrorObservation (multiple_commands_error splited_commands))
    else
      let is_special_key := _is_special_key command in
      let command := escape_bash_special_chars command in
      send_keys command (negb is_special_key) ;;;
      _poll_for_command_completion fuel command action.

Definition execute (fuel : nat) (action : Action) : M Observation :=
  me <- get_self ;;
  if negb (_initialized me)
  then raise (RuntimeError "Bash session is not initialized")
  else
    match action with
    | StopProcessesAction =>
        success <- kill_all_processes ;;
        ret (CmdOutputObservation
               (if (success : bool)
                then "All running processes have been terminated"
                else "No processes were terminated")
               "" CmdOutputMetadata_new)
    | OtherAction type_name =>
        ret (ErrorObservation ("Unsupported action type: " ++ type_name))
    | RunAction action =>
        let command := strip (command action) in
        if String.eqb command "" then _handle_empty_command fuel action
        else if is_input action then _handle_input_command fuel action
        else _handle_normal_command fuel action
    end.

(** [BashSession.cwd] *)
Definition cwd : M string := getattr "_cwd" _cwd.

(** *** Vocabulary of the session statements *)

(** The effects of [_clear_screen]. *)
Definition clear_effects : list Effect :=
  [EffSendKeys "C-l" false; EffSleep 100; EffClearHistory].

(** What [_get_command_output] computes from the previous output [p]. *)
Definition diffed_output (command raw p : string) : string :=
  rstrip (_remove_command_prefix
            (if nonempty p then removeprefix raw p else raw) command).

(** The change time of the loop variables is a clock reading that the
    session has taken. *)
Definition change_logged (v : PollVars) (st : St) : Prop :=
  In (EffTime (last_change_time v)) (effects st).

(** The capture that comes right after a clock reading at the head of a
    log, as a pane content. *)
Definition capture_after_reading (es : list Effect) : list string :=
  match es with
  | EffTime _ :: EffCapturePane stdout :: _ => [pane_text stdout]
  | _ => []
  end.

(** The pane contents that the turns of the polling loop compare with the
    content seen last, read off a log: in each turn, the capture that
    follows the clock reading made right after [should_continue()].  The
    captures of the process discovery are not among them: they follow
    another capture and its clock reading. *)
Fixpoint turn_captures (es : list Effect) : list string :=
  match es with
  | [] => []
  | EffShouldContinue _ :: rest =>
      (capture_after_reading rest ++ turn_captures rest)%list
  | _ :: rest => turn_captures rest
  end.

(** What the process discovery asks of the world. *)
Definition is_probe (e : Effect) : Prop :=
  match e with
  | EffCapturePane _ | EffDisplayPanePid _ | EffProcessTree _ _ => True
  | _ => False
  end.

Definition is_reading (e : Effect) : Prop :=
  match e with EffTime _ => True | _ => False end.

(** Any effect but the call of [should_continue()] that opens a turn. *)
Definition no_turn (e : Effect) : Prop :=
  match e with EffShouldContinue _ => False | _ => True end.

(** The effects that a log of the polling loop ends with between two
    turns: the first capture of the call, or the sleep that ends a turn. *)
Definition ends_turn (e : Effect) : Prop :=
  match e with EffCapturePane _ | EffSleep _ => True | _ => False end.

(** Where the pane content [cur] was seen around a clock reading that has
    the log [before] before it and the log [after] after it: the reading
    is the first effect of the call and the capture right after it shows
    [cur], or the last turn before the reading captured [cur]. *)
Definition seen_at_reading (cur : string) (before after : list Effect) : Prop :=
  match before with
  | [] => exists stdout rest,
            after = EffCapturePane stdout :: rest /\ pane_text stdout = cur
  | _ :: _ => exists earlier, turn_captures before = (earlier ++ [cur])%list
  end.

(** The log [es] of a call of the polling loop shows a pane that has not
    changed between two clock readings [t0] and [t1]: [t1] is the last
    effect of the log, [cur] was seen at [t0], and every turn between the
    two readings captured [cur]. *)
Definition quiet_between (cur : string) (t0 t1 : Z) (es : list Effect) : Prop :=
  exists before quiet,
    es = (before ++ EffTime t0 :: quiet ++ [EffTime t1])%list
    /\ seen_at_reading cur before quiet
    /\ Forall (eq cur) (turn_captures quiet).

(** The same between turns, for the loop variables [v]: the log [es] of
    the call so far holds the change time, the content kept with it was
    seen at that reading, and every turn since has captured it. *)
Definition watching (v : PollVars) (es : list Effect) : Prop :=
  exists before quiet last,
    es = (before ++ EffTime (last_change_time v) :: quiet ++ [last])%list
    /\ ends_turn last
    /\ seen_at_reading (last_pane_output v) before (quiet ++ [last])
    /\ Forall (eq (last_pane_output v)) (turn_captures (quiet ++ [last])).

(** How one turn of the polling loop updates its variables on the
    capture [cur]: nothing changes when [cur] is the capture seen last;
    otherwise [cur] is recorded together with a new change time. *)
Inductive vars_step (v : PollVars) (cur : string) : PollVars -> Prop :=
| step_same : cur = last_pane_output v -> vars_step v cur v
| step_changed (t : Z) :
    cur <> last_pane_output v ->
    vars_step v cur (mkPollVars (start_time v) t cur).

(** The loop variables that can follow [v0] after some turns. *)
Inductive vars_reach (v0 : PollVars) : PollVars -> Prop :=
| reach_here : vars_reach v0 v0
| reach_turn v cur v' :
    vars_reach v0 v -> vars_step v cur v' -> vars_reach v0 v'.

(** The three ways a turn of the polling loop, started with variables [v]
    in state [st], ends the loop with observation [obs] in state [st']:
    [st0] is the state in which the handler is called, [cur] the capture of
    the turn and [v'] the variables after the change test. *)
Inductive poll_exit (command : string) (action : CmdRunAction) (v : PollVars)
    (st : St) (obs : Observation) (st' : St) : Prop :=
| exit_completed st0 cur v' :
    observes st st0 -> vars_step v cur v' ->
    endswith (rstrip cur) (rstrip CMD_OUTPUT_PS1_END) = true ->
    _handle_completed_command command cur (matches_ps1_metadata cur) st0
    = (Ok obs, st') ->
    poll_exit command action v st obs st'
| exit_nochange st0 cur v' t :
    observes st st0 -> vars_step v cur v' ->
    (change_logged v st -> change_logged v' st0) ->
    endswith (rstrip cur) (rstrip CMD_OUTPUT_PS1_END) = false ->
    blocking action = false ->
    (NO_CHANGE_TIMEOUT_SECONDS (self st) <= t - last_change_time v')%Z ->
    In (EffTime t) (effects st0) ->
    _handle_nochange_timeout_command command cur (matches_ps1_metadata cur) st0
    = (Ok obs, st') ->
    poll_exit command action v st obs st'
| exit_hard st0 cur v' t limit :
    observes st st0 -> vars_step v cur v' ->
    endswith (rstrip cur) (rstrip CMD_OUTPUT_PS1_END) = false ->
    timeout action = Some limit -> limit <> 0%Z ->
    (limit <= t - start_time v')%Z ->
    _handle_hard_timeout_command command cur (matches_ps1_metadata cur) limit st0
    = (Ok obs, st') ->
    poll_exit command action v st obs st'.

(** The four observation builders that go through [_get_command_output],
    each called the way the engine calls it: on a capture and the PS1
    matches of that capture. *)
Inductive Builder : Type :=
| ByCompleted
| ByNoChangeTimeout
| ByHardTimeout (limit : Z)
| ByInterrupted.

Definition build (b : Builder) (command pane_content : string) : M Observation :=
  match b with
  | ByCompleted =>
      _handle_completed_command command pane_content
                                (matches_ps1_metadata pane_content)
  | ByNoChangeTimeout =>
      _handle_nochange_timeout_command command pane_content
                                       (matches_ps1_metadata pane_content)
  | ByHardTimeout limit =>
      _handle_hard_timeout_command command pane_content
                                   (matches_ps1_metadata pane_content) limit
  | ByInterrupted => _handle_interrupted_command command pane_content
  end.

Definition is_completed (b : Builder) : bool :=
  match b with ByCompleted => true | _ => false end.

(** The raw output a builder extracts from a capture. *)
Definition raw_output_of (b : Builder) (pane_content : string) : string :=
  let ms := matches_ps1_metadata pane_content in
  _combine_outputs_between_matches pane_content ms
    (is_completed b && Nat.eqb (List.length ms) 1).

(** The [continue_prefix] a builder passes to [_get_command_output]. *)
Definition continue_prefix_of (b : Builder) : string :=
  if is_completed b then "" else continuation_banner.

(** [prev_output] when a builder returns. *)
Definition prev_output_after (b : Builder) (pane_content : string) : string :=
  if is_completed b then "" else raw_output_of b pane_content.

(** The last sentence of claim C10 as it is worded: whatever builder makes
    the observation that follows a timeout or interrupted observation, it
    carries the continuation banner as prefix. *)
Definition next_observation_gets_banner : Prop :=
  forall b1 b2 c1 pane1 c2 pane2 st obs1 st1 st2 content command md st3,
    is_completed b1 = false ->
    build b1 c1 pane1 st = (Ok obs1, st1) ->
    prev_output (self st2) = prev_output (self st1) ->
    build b2 c2 pane2 st2 = (Ok (CmdOutputObservation content command md), st3) ->
    md_prefix md = continuation_banner.

(** Claim C6 as it is worded: the pids that [kill_all_processes] tries to
    kill are command pids of the discovery. *)
Definition kill_all_only_command_pids : Prop :=
  forall st b st' info st1 es,
    kill_all_processes st = (Ok b, st') ->
    get_running_processes st = (Ok info, st1) ->
    effects st' = (effects st1 ++ es)%list ->
    forall p, In p (killed_pids es) -> In p (command_pids info).

(** Claim C7 as it is worded: on an initialized session, a command that is
    not an input and that the splitter cuts in two or more always gets the
    error observation. *)
Definition multiple_commands_always_rejected : Prop :=
  forall fuel action st,
    _initialized (self st) = true ->
    has_attrs (self st) = true ->
    is_input action = false ->
    1 < List.length (split_bash_commands (strip (command action))) ->
    exists content st',
      execute fuel (RunAction action) st = (Ok (ErrorObservation content), st')
      /\ startswith content "ERROR: Cannot execute multiple commands at once."
         = true.

(** The calls a user of the session can make once it is initialized, and
    what they return. *)
Inductive SessionCall : Type :=
| CallExecute (fuel : nat) (action : Action)
| CallClose
| CallKillAllProcesses
| CallGetRunningProcesses
| CallCwd.

Inductive Returned : Type :=
| ReturnedObservation (obs : Observation)
| ReturnedNone
| ReturnedBool (b : bool)
| ReturnedProcesses (info : ProcessInfo)
| ReturnedString (s : string).

Definition run_call (c : SessionCall) : M Returned :=
  match c with
  | CallExecute fuel action =>
      obs <- execute fuel action ;; ret (ReturnedObservation obs)
  | CallClose => close ;;; ret ReturnedNone
  | CallKillAllProcesses => b <- kill_all_processes ;; ret (ReturnedBool b)
  | CallGetRunningProcesses =>
      info <- get_running_processes ;; ret (ReturnedProcesses info)
  | CallCwd => d <- cwd ;; ret (ReturnedString d)
  end.

(** [_cwd] has become the working directory parsed from the last of the
    matches [ms], which is not empty and is not what [_cwd] was. *)
Definition cwd_taken_from (ms : list Match) (st st' : St) : Prop :=
  exists d,
    ms <> []
    /\ md_working_dir (from_ps1_match (last ms (mkMatch 0 0 ""))) = Some d
    /\ d <> ""
    /\ _cwd (self st) <> Some d
    /\ _cwd (self st') = Some d.

(** [_cwd] is what it was, or was taken from the matches of some capture. *)
Definition cwd_rule (st st' : St) : Prop :=
  same_cwd st st'
  \/ exists pane_content,
       cwd_taken_from (matches_ps1_metadata pane_content) st st'.

(** Claim C8 as it is worded: the escaper gives back every input in which
    no backslash is followed by a metacharacter, whitespace-only inputs and
    inputs that do not parse included. *)
Definition escaper_identity_as_worded : Prop :=
  forall command,
    escape_free command = true -> escape_bash_special_chars command = command.

(** *** Vocabulary of the statements about the splitter *)

(** The body of the loop of [split_bash_commands]: the pieces found so
    far and the end of the last node. *)
Definition split_step (commands : string) (acc : list string * nat)
    (node : node) : list string * nat :=
  let '(result, last_end) := acc in
  let '(start, stop) := n_pos node in
  let result :=
    if (last_end <? start)%nat then
      let between := slice last_end start commands in
      if negb (is_nil result)
      then append_to_last result (rstrip between)
      else if nonempty (strip between)
      then (result ++ [rstrip between])%list
      else result
    else result in
  let command := rstrip (slice start stop commands) in
  ((result ++ [command])%list, stop).

(** The top-level nodes come one after the other from offset [cur] on:
    each starts at or after the end of the one before and does not end
    before it starts. *)
Fixpoint nodes_in_order (cur : nat) (nodes : list node) : bool :=
  match nodes with
  | [] => true
  | n :: rest =>
      (cur <=? fst (n_pos n))%nat && (fst (n_pos n) <=? snd (n_pos n))%nat
      && nodes_in_order (snd (n_pos n)) rest
  end.

(** The characters of [s] that are not white space, in order. *)
Fixpoint without_space (s : string) : string :=
  match s with
  | EmptyString => EmptyString
  | String c s' =>
      if is_space c then without_space s' else String c (without_space s')
  end.

(** *** Vocabulary of the statements about exceptions *)

(** On a session that has its attributes, the computation leaves them
    there, and every exception that it lets out satisfies [P]. *)
Definition lets_out (P : PyExc -> Prop) {A} (m : M A) : Prop :=
  forall st r st',
    has_attrs (self st) = true -> m st = (r, st') ->
    has_attrs (self st') = true
    /\ match r with Raise e => P e | _ => True end.

(** Some text ends with the PS1 end marker (white space at the end of
    either apart) and yet holds no PS1 match. *)
Definition marker_without_match : Prop :=
  exists cur,
    endswith (rstrip cur) (rstrip CMD_OUTPUT_PS1_END) = true
    /\ matches_ps1_metadata cur = [].

(** The two exceptions of the polling loop. *)
Definition poll_failure (e : PyExc) : Prop :=
  e = RuntimeError "Bash session was likely interrupted..."
  \/ (e = AssertionError /\ marker_without_match).

(** The exceptions of the kill loop. *)
Definition pid_failure (e : PyExc) : Prop := e = IndexError \/ e = ValueError.

Definition no_exception (e : PyExc) : Prop := False.

(** *** Vocabulary of the statements about time *)

(** The computation returns or raises: it is never cut off by the fuel. *)
Definition finishes {A} (m : M A) : Prop :=
  forall st st', m st <> (Unfinished, st').

(** The clock moves on by at least one unit between two external calls. *)
Definition clock_advances : Prop :=
  forall n, (time_time W n + 1 <= time_time W (S n))%Z.

(** The count of external calls has not gone back. *)
Definition ticks_on (st st' : St) : Prop := tick st <= tick st'.

(** *** Vocabulary of the statements about processes *)

(** The descendants that the discovery lists: those that can be
    inspected and show a command line. *)
Definition listed (c : Child) : bool :=
  match child_facts c with
  | Some f => negb (is_nil (pf_cmdline f))
  | None => false
  end.

(** The listed descendants whose parent is the shell. *)
Definition direct_child (shell_pid : nat) (c : Child) : bool :=
  match child_facts c with
  | Some f => negb (is_nil (pf_cmdline f)) && Nat.eqb (pf_ppid f) shell_pid
  | None => false
  end.

(** The lines of the process list for the listed children among [l]. *)
Definition child_lines (l : list Child) : list ProcStr :=
  flat_map
    (fun c =>
       match child_facts c with
       | Some f =>
           if is_nil (pf_cmdline f) then []
           else [process_str (child_pid c) f]
       | None => []
       end) l.

(** An effect that is not a kill. *)
Definition no_kill (e : Effect) : Prop :=
  match e with EffKill _ _ => False | _ => True end.

(** *** Vocabulary of the statements about the keys sent *)

(** What [execute] may send to the pane for [action]: anything that is
    not a key; the clearing of the screen ([C-l] without Enter); and, for
    a command action whose command is not empty, the command itself, with
    Enter unless it is a control key - as it is for an input, through the
    escaper otherwise. *)
Definition keys_of (action : Action) (e : Effect) : Prop :=
  match e with
  | EffSendKeys keys enter =>
      (keys = "C-l" /\ enter = false)
      \/ exists a,
           action = RunAction a
           /\ strip (command a) <> ""
           /\ enter = negb (_is_special_key (strip (command a)))
           /\ keys = (if is_input a then strip (command a)
                      else escape_bash_special_chars (strip (command a)))
  | _ => True
  end.

(** *** Vocabulary of the statements about what a call leaves alone *)

(** The attributes given to the constructor, the pane and the
    [_initialized] flag are what they were. *)
Definition config_kept (st st' : St) : Prop :=
  NO_CHANGE_TIMEOUT_SECONDS (self st') = NO_CHANGE_TIMEOUT_SECONDS (self st)
  /\ work_dir (self st') = work_dir (self st)
  /\ username (self st') = username (self st)
  /\ max_memory_mb (self st') = max_memory_mb (self st)
  /\ _initialized (self st') = _initialized (self st)
  /\ pane (self st') = pane (self st).

(** The status is what it was, or has been set to one of the statuses
    other than [CONTINUE]. *)
Definition status_rule (st st' : St) : Prop :=
  prev_status (self st') = prev_status (self st)
  \/ exists s, prev_status (self st') = Some (Some s) /\ s <> CONTINUE.

Definition frame (st st' : St) : Prop :=
  config_kept st st' /\ status_rule st st'.

(** [_closed] is what it was. *)
Definition same_closed (st st' : St) : Prop :=
  _closed (self st') = _closed (self st).

(** *** Vocabulary of the statements about the end of a session *)

(** Any effect but the kill of the tmux session. *)
Definition session_spared (e : Effect) : Prop :=
  match e with EffKillSession => False | _ => True end.

(* ================================================================== *)
(** * Properties *)

(** ** Strings *)

Lemma append_empty_r (s : string) : s ++ "" = s.
Proof. induction s as [|c s IH]; simpl; [reflexivity | now rewrite IH]. Qed.

Lemma append_assoc (a b c : string) : (a ++ b) ++ c = a ++ (b ++ c).
Proof. induction a as [|x a IH]; simpl; [reflexivity | now rewrite IH]. Qed.

Lemma take_drop (n : nat) (s : string) : take n s ++ drop n s = s.
Proof.
  revert s; induction n as [|n IH]; intros [|c s]; simpl; try reflexivity.
  now rewrite IH.
Qed.

(** ** Reasoning about computations *)

Lemma bind_ok {A B} (m : M A) (k : A -> M B) st b st' :
  bind m k st = (Ok b, st') ->
  exists a st1, m st = (Ok a, st1) /\ k a st1 = (Ok b, st').
Proof.
  unfold bind. destruct (m st) as [[a|e|] st1]; intros H; try discriminate.
  now exists a, st1.
Qed.

Lemma bind_run {A B} (m : M A) (k : A -> M B) st a st1 :
  m st = (Ok a, st1) -> bind m k st = k a st1.
Proof. unfold bind. now intros ->. Qed.

Lemma bind_raise {A B} (m : M A) (k : A -> M B) st e st1 :
  m st = (Raise e, st1) -> bind m k st = (Raise e, st1).
Proof. unfold bind. now intros ->. Qed.

Lemma bind_assign {B} f (k : unit -> M B) st :
  bind (assign f) k st = k tt (after_assign st f).
Proof. reflexivity. Qed.

Lemma bind_ret {A B} (a : A) (k : A -> M B) st : bind (ret a) k st = k a st.
Proof. reflexivity. Qed.

Lemma keeps_ret R {A} (a : A) :
  (forall st, R st st) -> keeps R (ret a).
Proof. intros Hr st r st' H. inversion H; subst. apply Hr. Qed.

Lemma keeps_raise R {A} (e : PyExc) :
  (forall st, R st st) -> keeps R (@raise A e).
Proof. intros Hr st r st' H. inversion H; subst. apply Hr. Qed.

Lemma keeps_getattr R {A} name (field : BashSession -> option A) :
  (forall st, R st st) -> keeps R (getattr name field).
Proof.
  intros Hr st r st' H. unfold getattr in H.
  destruct (field (self st)); inversion H; subst; apply Hr.
Qed.

Lemma keeps_get_self R :
  (forall st, R st st) -> keeps R get_self.
Proof. intros Hr st r st' H. inversion H; subst. apply Hr. Qed.

Lemma keeps_external R {A} (e : A -> Effect) (answer : nat -> A) :
  (forall st x, R st (after_call st (e x))) -> keeps R (external e answer).
Proof. intros He st r st' H. inversion H; subst. apply He. Qed.

Lemma keeps_assign R f :
  (forall st, R st (after_assign st f)) -> keeps R (assign f).
Proof. intros Hf st r st' H. inversion H; subst. apply Hf. Qed.

(** Sequencing: a first part that keeps [R1], then a second that keeps
    [R2], keep any [R3] that contains [R1] and the composition. *)
Lemma keeps_seq (R1 R2 R3 : St -> St -> Prop) {A B} (m : M A) (k : A -> M B) :
  (forall x y, R1 x y -> R3 x y) ->
  (forall x y z, R1 x y -> R2 y z -> R3 x z) ->
  keeps R1 m -> (forall a, keeps R2 (k a)) -> keeps R3 (bind m k).
Proof.
  intros Hsub Hcomp Hm Hk st r st' H. unfold bind in H.
  destruct (m st) as [[a|e|] st1] eqn:E.
  - eapply Hcomp; [eapply Hm, E | eapply Hk, H].
  - inversion H; subst. eapply Hsub, Hm, E.
  - inversion H; subst. eapply Hsub, Hm, E.
Qed.

Lemma keeps_bind R {A B} (m : M A) (k : A -> M B) :
  (forall x y z, R x y -> R y z -> R x z) ->
  keeps R m -> (forall a, keeps R (k a)) -> keeps R (bind m k).
Proof. intros Ht. apply keeps_seq; auto. Qed.

Lemma keeps_try_except R {A} (m : M A) (handler : PyExc -> M A) :
  (forall x y z, R x y -> R y z -> R x z) ->
  keeps R m -> (forall e, keeps R (handler e)) -> keeps R (try_except m handler).
Proof.
  intros Ht Hm Hh st r st' H. unfold try_except in H.
  destruct (m st) as [[a|e|] st1] eqn:E.
  - inversion H; subst. eapply Hm, E.
  - eapply Ht; [eapply Hm, E | eapply Hh, H].
  - inversion H; subst. eapply Hm, E.
Qed.

Lemma keeps_weaken (R1 R2 : St -> St -> Prop) {A} (m : M A) :
  (forall x y, R1 x y -> R2 x y) -> keeps R1 m -> keeps R2 m.
Proof. intros Hs Hm st r st' H. eapply Hs, Hm, H. Qed.

(** ** Framing *)

(** The indices of the loop can be shifted past the head of the list. *)
Lemma fold_segment_shift pane_content (m : Match) (ms : list Match)
    (n a : nat) (acc : string) :
  fold_left (add_segment pane_content (m :: ms)) (seq (S a) n) acc
  = fold_left (add_segment pane_content ms) (seq a n) acc.
Proof.
  revert a acc; induction n as [|n IH]; intros a acc; simpl.
  - reflexivity.
  - rewrite IH. reflexivity.
Qed.

Lemma fold_segment_spans pane_content (ms : list Match) :
  forall (m : Match) (acc : string),
    fold_left (add_segment pane_content (m :: ms)) (seq 0 (List.length ms)) acc
    = acc ++ String.concat "" (spans_between pane_content (m :: ms)).
Proof.
  induction ms as [|m' ms IH]; intros m acc.
  - simpl. now rewrite append_empty_r.
  - cbn [List.length seq fold_left].
    rewrite fold_segment_shift, IH.
    unfold add_segment at 1. cbn [nth Nat.add].
    unfold spans_between. cbn [tl List.combine map fst snd].
    destruct ms as [|m'' ms].
    + cbn. now rewrite !append_empty_r.
    + cbn [tl List.combine map String.concat fst snd].
      now rewrite append_assoc.
Qed.

(** C1 (as amended).  [_combine_outputs_between_matches] returns the whole
    capture when there is no match; with one match, the text before the
    match when [get_content_before_last_match] is set and otherwise the
    text from one character past the end of the match; with two matches
    or more, the concatenation of the spans that run from one character
    past the end of a match to the start of the next, each followed by a
    newline. *)
Theorem combine_outputs_framing
    (pane_content : string) (ps1_matches : list Match)
    (get_content_before_last_match : bool) :
  _combine_outputs_between_matches pane_content ps1_matches
                                   get_content_before_last_match
  = match ps1_matches with
    | [] => pane_content
    | [m] =>
        if get_content_before_last_match
        then take (m_start m) pane_content
        else drop (m_end m + 1) pane_content
    | _ => String.concat "" (spans_between pane_content ps1_matches)
    end.
Proof.
  unfold _combine_outputs_between_matches.
  destruct ps1_matches as [|m [|m' ms]]; try reflexivity.
  cbn [List.length Nat.sub].
  change (S (List.length ms) - 0) with (List.length (m' :: ms)).
  exact (fold_segment_spans pane_content (m' :: ms) m "").
Qed.

(** C1, counterexample.  On a capture with one PS1 block followed by a
    newline and [hello], the code returns [hello]: the newline that
    follows the match is dropped, so the result is not everything after
    the match. *)
Lemma combine_outputs_not_as_worded :
  ~ (forall pane_content ps1_matches flag,
        _combine_outputs_between_matches pane_content ps1_matches flag
        = framing_rule_as_worded pane_content ps1_matches flag).
Proof.
  intros H.
  specialize (H sample_pane_after [sample_match_first] false).
  vm_compute in H. discriminate H.
Qed.

Example combine_outputs_sample :
  _combine_outputs_between_matches sample_pane_after [sample_match_first] false
  = "hello"
  /\ framing_rule_as_worded sample_pane_after [sample_match_first] false
     = NL ++ "hello".
Proof. split; reflexivity. Qed.

(** ** The observation builders, step by step *)

Lemma getattr_run {A} name (field : BashSession -> option A) st a :
  field (self st) = Some a -> getattr name field st = (Ok a, st).
Proof. unfold getattr. now intros ->. Qed.

Lemma getattr_none {A} name (field : BashSession -> option A) st :
  field (self st) = None ->
  getattr name field st = (Raise (AttributeError name), st).
Proof. unfold getattr. now intros ->. Qed.

Lemma getattr_ok {A} name (field : BashSession -> option A) st a st' :
  getattr name field st = (Ok a, st') -> field (self st) = Some a /\ st' = st.
Proof.
  unfold getattr. destruct (field (self st)); intros H; inversion H; auto.
Qed.

Lemma external_run {A} (e : A -> Effect) (answer : nat -> A) st :
  external e answer st
  = (Ok (answer (tick st)), after_call st (e (answer (tick st)))).
Proof. reflexivity. Qed.

Lemma pane_call_run {A} (e : A -> Effect) (answer : nat -> A) st :
  pane (self st) = Some tt ->
  pane_call e answer st
  = (Ok (answer (tick st)), after_call st (e (answer (tick st)))).
Proof.
  intros Hp. unfold pane_call.
  now rewrite (bind_run _ _ _ _ _ (getattr_run "pane" pane st tt Hp)).
Qed.

Lemma pane_call_none {A} (e : A -> Effect) (answer : nat -> A) st :
  pane (self st) = None ->
  pane_call e answer st = (Raise (AttributeError "pane"), st).
Proof.
  intros Hp. unfold pane_call.
  now rewrite (bind_raise _ _ _ _ _ (getattr_none "pane" pane st Hp)).
Qed.

Lemma pane_cases st : pane (self st) = Some tt \/ pane (self st) = None.
Proof. destruct (pane (self st)) as [[]|]; auto. Qed.

Lemma clear_screen_run st :
  pane (self st) = Some tt ->
  _clear_screen st
  = (Ok tt, mkSt (self st) (3 + tick st) (effects st ++ clear_effects)%list).
Proof.
  intros Hp. unfold _clear_screen, send_keys.
  rewrite (bind_run _ _ _ _ _ (pane_call_run _ _ st Hp)).
  unfold time_sleep, tell.
  rewrite (bind_run _ _ _ _ _ (external_run _ _ _)).
  rewrite pane_call_run by exact Hp.
  unfold after_call, external; cbn. now rewrite <- !app_assoc.
Qed.

Lemma clear_screen_none st :
  pane (self st) = None ->
  _clear_screen st = (Raise (AttributeError "pane"), st).
Proof.
  intros Hp. unfold _clear_screen, send_keys.
  now rewrite (bind_raise _ _ _ _ _ (pane_call_none _ _ st Hp)).
Qed.

Lemma clear_screen_ok st u st' :
  _clear_screen st = (Ok u, st') ->
  pane (self st) = Some tt
  /\ st' = mkSt (self st) (3 + tick st) (effects st ++ clear_effects)%list.
Proof.
  intros H. destruct (pane_cases st) as [Hp|Hp].
  - rewrite (clear_screen_run _ Hp) in H. inversion H; auto.
  - rewrite (clear_screen_none _ Hp) in H. discriminate.
Qed.

Lemma get_command_output_run command raw md continue_prefix st p :
  prev_output (self st) = Some p ->
  _get_command_output command raw md continue_prefix st
  = (Ok (diffed_output command raw p,
         if nonempty p then set_prefix md continue_prefix else md),
     after_assign st (set_prev_output raw)).
Proof.
  intros Hp. unfold _get_command_output, bind, getattr, assign, diffed_output.
  rewrite Hp. destruct (nonempty p); reflexivity.
Qed.

Lemma get_command_output_ok command raw md continue_prefix st out st' :
  _get_command_output command raw md continue_prefix st = (Ok out, st') ->
  exists p,
    prev_output (self st) = Some p
    /\ out = (diffed_output command raw p,
              if nonempty p then set_prefix md continue_prefix else md)
    /\ st' = after_assign st (set_prev_output raw).
Proof.
  intros H. destruct (prev_output (self st)) as [p|] eqn:Hp.
  - rewrite (get_command_output_run _ _ _ _ _ _ Hp) in H.
    inversion H; subst. now exists p.
  - unfold _get_command_output, bind, getattr in H. rewrite Hp in H. discriminate.
Qed.

Ltac bind_inv H a st1 H1 :=
  apply bind_ok in H; destruct H as (a & st1 & H1 & H).

Lemma rev_cons_last {A} (l : list A) (x : A) (r : list A) :
  rev l = x :: r -> l = (rev r ++ [x])%list.
Proof.
  intros H. rewrite <- (rev_involutive l), H. reflexivity.
Qed.

(** Everything a completed observation and the state after it are made
    of. *)
Lemma handle_completed_ok command pane_content ms st obs st' :
  _handle_completed_command command pane_content ms st = (Ok obs, st') ->
  exists front last_match cwd0 p suffix,
    ms = (front ++ [last_match])%list
    /\ pane (self st) = Some tt
    /\ _cwd (self st) = Some cwd0
    /\ prev_output (self st) = Some p
    /\ let md0 := from_ps1_match last_match in
       let one := Nat.eqb (List.length ms) 1 in
       let raw := _combine_outputs_between_matches pane_content ms one in
       let md1 :=
         if one
         then set_prefix md0 (truncation_banner (List.length (splitlines raw)))
         else md0 in
       let md2 := set_suffix md1 suffix in
       let me :=
         if cwd_changed (md_working_dir md0) cwd0
         then set_cwd (match md_working_dir md0 with Some d => d | None => "" end)
                      (self st)
         else self st in
       obs = CmdOutputObservation (diffed_output command raw p) command
               (if nonempty p then set_prefix md2 "" else md2)
       /\ st' = mkSt (set_prev_output ""
                        (set_prev_status (Some COMPLETED) (set_prev_output raw me)))
                     (3 + tick st) (effects st ++ clear_effects)%list.
Proof.
  unfold _handle_completed_command. intros H.
  destruct (rev ms) as [|last_match r] eqn:Hrev; [discriminate H|].
  apply rev_cons_last in Hrev.
  bind_inv H cwd0 st1 Hcwd. apply getattr_ok in Hcwd as [Hcwd ->].
  bind_inv H u st2 Hupd.
  bind_inv H suffix st3 Hsuf.
  bind_inv H out st4 Hout.
  apply get_command_output_ok in Hout as (p & Hp & -> & ->).
  bind_inv H u1 st5 H5. inversion H5; subst u1 st5; clear H5.
  bind_inv H u2 st6 H6. inversion H6; subst u2 st6; clear H6.
  bind_inv H u3 st7 H7. apply clear_screen_ok in H7 as [Hpane ->].
  inversion H; subst obs st'; clear H.
  assert (Hst3 : st3 = st2).
  { destruct (negb (_is_special_key command)).
    - now inversion Hsuf.
    - destruct (last_char command); now inversion Hsuf. }
  subst st3.
  assert (Hst2 : st2 = mkSt (if cwd_changed (md_working_dir (from_ps1_match last_match)) cwd0
                             then set_cwd (match md_working_dir (from_ps1_match last_match)
                                           with Some d => d | None => "" end) (self st)
                             else self st) (tick st) (effects st)).
  { destruct (cwd_changed _ cwd0); inversion Hupd; subst; [reflexivity|].
    now destruct st2. }
  exists (rev r), last_match, cwd0, p, suffix.
  rewrite Hst2 in *. cbn [self tick effects after_assign] in *.
  repeat split; try assumption.
  - destruct (cwd_changed _ cwd0); exact Hpane.
  - destruct (cwd_changed _ cwd0); exact Hp.
Qed.

(** ** Computations that only observe *)

Lemma emits_refl P st : emits P st st.
Proof. exists []. split; [now rewrite app_nil_r | constructor]. Qed.

Lemma emits_trans P a b c : emits P a b -> emits P b c -> emits P a c.
Proof.
  intros (e1 & H1 & F1) (e2 & H2 & F2). exists (e1 ++ e2)%list. split.
  - now rewrite H2, H1, app_assoc.
  - apply Forall_app; auto.
Qed.

Lemma emits_call (P : Effect -> Prop) st e : P e -> emits P st (after_call st e).
Proof. intros He. exists [e]. split; [reflexivity | now constructor]. Qed.

Lemma observes_refl st : observes st st.
Proof. split; [reflexivity | apply emits_refl]. Qed.

Lemma observes_trans a b c : observes a b -> observes b c -> observes a c.
Proof.
  intros [S1 E1] [S2 E2]. split; [congruence | eapply emits_trans; eauto].
Qed.

Lemma observes_call st e : not_keys e -> observes st (after_call st e).
Proof. intros He. split; [reflexivity | now apply emits_call]. Qed.

Create HintDb keeps_db.
#[local] Hint Resolve observes_refl observes_trans observes_call
  emits_refl emits_trans emits_call : keeps_db.
#[local] Hint Extern 1 (not_keys _) => exact I : keeps_db.

(** Goes through a computation built from [bind], [ret], [raise],
    attribute reads, external calls and branches. *)
Ltac keeps_walk :=
  repeat first
    [ solve [eauto 4 with keeps_db]
    | apply keeps_ret; solve [eauto with keeps_db]
    | apply keeps_raise; solve [eauto with keeps_db]
    | apply keeps_getattr; solve [eauto with keeps_db]
    | apply keeps_get_self; solve [eauto with keeps_db]
    | apply keeps_external; solve [intros; eauto with keeps_db]
    | apply keeps_assign; solve [intros; eauto with keeps_db]
    | apply keeps_bind; [solve [eauto with keeps_db] | | intros ?]
    | apply keeps_try_except; [solve [eauto with keeps_db] | | intros ?]
    | solve [eauto with keeps_db]
    | match goal with
      | |- keeps _ (if ?b then _ else _) => destruct b
      | |- keeps _ (match ?x with _ => _ end) => destruct x
      | |- keeps _ (let '(_, _) := ?x in _) => destruct x
      end ].

Lemma keeps_observes_now : keeps observes now.
Proof. unfold now. keeps_walk. Qed.

Lemma keeps_observes_sleep n : keeps observes (time_sleep n).
Proof. unfold time_sleep, tell. keeps_walk. Qed.

Lemma keeps_observes_pane_content : keeps observes _get_pane_content.
Proof. unfold _get_pane_content, pane_call. keeps_walk. Qed.

Lemma keeps_observes_discovery : keeps observes get_running_processes.
Proof.
  unfold get_running_processes, pane_call.
  apply keeps_bind; [eauto with keeps_db | apply keeps_observes_pane_content |].
  intros pane_content. keeps_walk.
Qed.

Lemma keeps_observes_kill_process p : keeps observes (kill_process p).
Proof. unfold kill_process. keeps_walk. Qed.

Lemma keeps_observes_kill_each pids :
  forall success, keeps observes (kill_each pids success).
Proof.
  induction pids as [|p rest IH]; intros success; cbn [kill_each].
  - keeps_walk.
  - unfold pane_call.
    apply keeps_bind; [eauto with keeps_db | keeps_walk |].
    intros [q| |]; keeps_walk.
Qed.

Lemma keeps_observes_kill_all : keeps observes kill_all_processes.
Proof.
  unfold kill_all_processes.
  apply keeps_bind; [eauto with keeps_db | apply keeps_observes_discovery |].
  intros info. apply keeps_observes_kill_each.
Qed.

(** ** The timeout and interrupted handlers *)

Lemma handle_nochange_ok command pane_content ms st obs st' :
  _handle_nochange_timeout_command command pane_content ms st = (Ok obs, st') ->
  exists p md,
    prev_output (self st) = Some p
    /\ let raw := _combine_outputs_between_matches pane_content ms false in
       obs = CmdOutputObservation (diffed_output command raw p) command md
       /\ md_prefix md = (if nonempty p then continuation_banner else "")
       /\ st' = after_assign
                  (after_assign st (set_prev_status (Some NO_CHANGE_TIMEOUT)))
                  (set_prev_output raw).
Proof.
  unfold _handle_nochange_timeout_command. intros H.
  bind_inv H u st1 H1. inversion H1; subst u st1; clear H1.
  bind_inv H me st2 H2. inversion H2; subst me st2; clear H2.
  bind_inv H out st3 H3.
  apply get_command_output_ok in H3 as (p & Hp & -> & ->).
  inversion H; subst obs st'; clear H.
  exists p. eexists. split; [exact Hp|]. cbn zeta. split; [reflexivity|].
  split; [|reflexivity]. now destruct (nonempty p).
Qed.

Lemma handle_hard_ok command pane_content ms limit st obs st' :
  _handle_hard_timeout_command command pane_content ms limit st = (Ok obs, st') ->
  exists p md,
    prev_output (self st) = Some p
    /\ let raw := _combine_outputs_between_matches pane_content ms false in
       obs = CmdOutputObservation (diffed_output command raw p) command md
       /\ md_prefix md = (if nonempty p then continuation_banner else "")
       /\ st' = after_assign
                  (after_assign st (set_prev_status (Some HARD_TIMEOUT)))
                  (set_prev_output raw).
Proof.
  unfold _handle_hard_timeout_command. intros H.
  bind_inv H u st1 H1. inversion H1; subst u st1; clear H1.
  bind_inv H out st3 H3.
  apply get_command_output_ok in H3 as (p & Hp & -> & ->).
  inversion H; subst obs st'; clear H.
  exists p. eexists. split; [exact Hp|]. cbn zeta. split; [reflexivity|].
  split; [|reflexivity]. now destruct (nonempty p).
Qed.

Lemma handle_interrupted_ok command last_pane st obs st' :
  _handle_interrupted_command command last_pane st = (Ok obs, st') ->
  exists p md,
    prev_output (self st) = Some p
    /\ let raw := _combine_outputs_between_matches
                    last_pane (matches_ps1_metadata last_pane) false in
       obs = CmdOutputObservation (diffed_output command raw p) command md
       /\ md_prefix md = (if nonempty p then continuation_banner else "")
       /\ st' = after_assign st (set_prev_output raw).
Proof.
  unfold _handle_interrupted_command. intros H.
  bind_inv H out st3 H3.
  apply get_command_output_ok in H3 as (p & Hp & -> & ->).
  inversion H; subst obs st'; clear H.
  exists p. eexists. split; [exact Hp|]. cbn zeta. split; [reflexivity|].
  split; [|reflexivity]. now destruct (nonempty p).
Qed.

(** ** One turn of the polling loop *)

Lemma now_ok st t st' :
  now st = (Ok t, st') -> st' = after_call st (EffTime t).
Proof. unfold now. rewrite external_run. intros H. now inversion H. Qed.

Lemma observes_logged v a b : observes a b -> change_logged v a -> change_logged v b.
Proof.
  intros [_ (es & E & _)] H. unfold change_logged in *. rewrite E.
  apply in_or_app. now left.
Qed.

Lemma change_test_ok (v : PollVars) (cur : string) st v' st' :
  (if negb (String.eqb cur (last_pane_output v))
   then last_change_time <- now ;;
        ret (mkPollVars (start_time v) last_change_time cur)
   else ret v) st = (Ok v', st') ->
  vars_step v cur v' /\ observes st st'
  /\ (change_logged v st -> change_logged v' st').
Proof.
  destruct (String.eqb_spec cur (last_pane_output v)) as [E|E]; cbn [negb]; intros H.
  - inversion H; subst. split; [now constructor|].
    split; [apply observes_refl | auto].
  - bind_inv H t st1 H1. inversion H; subst.
    split; [now constructor|]. split; [eapply keeps_observes_now, H1|].
    intros _. apply now_ok in H1. subst st'. unfold change_logged. cbn.
    apply in_or_app. right. now left.
Qed.

Lemma keeps_observes_discovery_logged :
  keeps observes (try_except (get_running_processes ;;; ret tt) (fun _ => ret tt)).
Proof.
  apply keeps_try_except; [eauto with keeps_db | | intros; keeps_walk].
  apply keeps_bind; [eauto with keeps_db | apply keeps_observes_discovery |].
  intros; keeps_walk.
Qed.

Lemma poll_iteration_exit command action v st obs st' :
  poll_iteration command action v st = (Ok (inl obs), st') ->
  poll_exit command action v st obs st'.
Proof.
  unfold poll_iteration. intros H.
  bind_inv H t0 st1 H1. apply keeps_observes_now in H1.
  bind_inv H cur st2 H2. apply keeps_observes_pane_content in H2.
  bind_inv H t1 st3 H3. apply keeps_observes_now in H3.
  bind_inv H u st4 H4. apply keeps_observes_discovery_logged in H4.
  bind_inv H v' st5 H5. apply change_test_ok in H5 as (Hstep & H5 & Hlog5).
  pose proof (observes_trans _ _ _ (observes_trans _ _ _
                (observes_trans _ _ _ H1 H2) H3) H4) as Hobs4.
  pose proof (observes_trans _ _ _ Hobs4 H5) as Hobs5.
  clear H1 H2 H3 H4 H5.
  destruct (endswith (rstrip cur) (rstrip CMD_OUTPUT_PS1_END)) eqn:Hend.
  - bind_inv H o st6 H6. inversion H; subst o st6.
    apply (exit_completed _ _ _ _ _ _ st5 cur v'); auto.
  - bind_inv H t st6 H6. pose proof (now_ok _ _ _ H6) as Hst6.
    apply keeps_observes_now in H6.
    bind_inv H me st7 H7. inversion H7; subst me st7; clear H7.
    assert (Hself : self st6 = self st) by (destruct Hobs5, H6; congruence).
    destruct (negb (blocking action)
              && (NO_CHANGE_TIMEOUT_SECONDS (self st6) <=? t - last_change_time v')%Z)
      eqn:Hquiet.
    + bind_inv H o st8 H8. inversion H; subst o st8.
      apply andb_prop in Hquiet as [Hb Hle].
      apply (exit_nochange _ _ _ _ _ _ st6 cur v' t).
      * eapply observes_trans; eauto.
      * exact Hstep.
      * intros Hl. eapply observes_logged; [exact H6|].
        apply Hlog5. eapply observes_logged; [exact Hobs4 | exact Hl].
      * exact Hend.
      * now destruct (blocking action).
      * rewrite <- Hself. now apply Z.leb_le.
      * rewrite Hst6. cbn. apply in_or_app. right. now left.
      * exact H8.
    + bind_inv H t2 st8 H8. apply keeps_observes_now in H8.
      bind_inv H timed_out st9 H9.
      assert (Hhard : observes st8 st9
                      /\ (forall limit, timed_out = Some limit ->
                            timeout action = Some limit /\ limit <> 0%Z
                            /\ exists t, (limit <= t - start_time v')%Z)).
      { unfold timeout_set in H9.
        destruct (timeout action) as [z|].
        - destruct (Z.eqb_spec z 0).
          + inversion H9; subst. split; [apply observes_refl|]. discriminate.
          + bind_inv H9 t3 st10 H10. apply keeps_observes_now in H10.
            destruct (z <=? t3 - start_time v')%Z eqn:Hz;
              inversion H9; subst; (split; [exact H10|]); intros l Hl;
              inversion Hl; subst.
            repeat split; auto. exists t3. now apply Z.leb_le.
        - inversion H9; subst. split; [apply observes_refl|]. discriminate. }
      destruct Hhard as [Hobs Hlim].
      destruct timed_out as [limit|].
      * bind_inv H o st10 H10. inversion H; subst o st10.
        destruct (Hlim limit eq_refl) as (Hto & Hnz & t3 & Hle).
        apply (exit_hard _ _ _ _ _ _ st9 cur v' t3 limit); auto.
        exact (observes_trans _ _ _ (observes_trans _ _ _
                 (observes_trans _ _ _ Hobs5 H6) H8) Hobs).
      * bind_inv H u1 st10 H10. inversion H.
Qed.

Lemma poll_iteration_next command action v st v' st' :
  poll_iteration command action v st = (Ok (inr v'), st') ->
  observes st st'
  /\ (exists cur, vars_step v cur v')
  /\ (change_logged v st -> change_logged v' st').
Proof.
  unfold poll_iteration. intros H.
  bind_inv H t0 st1 H1. apply keeps_observes_now in H1.
  bind_inv H cur st2 H2. apply keeps_observes_pane_content in H2.
  bind_inv H t1 st3 H3. apply keeps_observes_now in H3.
  bind_inv H u st4 H4. apply keeps_observes_discovery_logged in H4.
  bind_inv H v1 st5 H5. apply change_test_ok in H5 as (Hstep & H5 & Hlog5).
  pose proof (observes_trans _ _ _ (observes_trans _ _ _
                (observes_trans _ _ _ H1 H2) H3) H4) as Hobs4.
  pose proof (observes_trans _ _ _ Hobs4 H5) as Hobs5.
  clear H1 H2 H3 H4 H5.
  destruct (endswith (rstrip cur) (rstrip CMD_OUTPUT_PS1_END)) eqn:Hend.
  - bind_inv H o st6 H6. inversion H.
  - bind_inv H t st6 H6. apply keeps_observes_now in H6.
    bind_inv H me st7 H7. inversion H7; subst me st7; clear H7.
    destruct (negb (blocking action) && _).
    + bind_inv H o st8 H8. inversion H.
    + bind_inv H t2 st8 H8. apply keeps_observes_now in H8.
      bind_inv H timed_out st9 H9.
      assert (Hobs : observes st8 st9).
      { destruct (timeout_set (timeout action)).
        - bind_inv H9 t3 st10 H10. apply keeps_observes_now in H10.
          inversion H9; subst; exact H10.
        - inversion H9; subst. apply observes_refl. }
      destruct timed_out as [limit|].
      * bind_inv H o st10 H10. inversion H.
      * bind_inv H u1 st10 H10. apply keeps_observes_sleep in H10.
        inversion H; subst.
        pose proof (observes_trans _ _ _ (observes_trans _ _ _
                      (observes_trans _ _ _ H6 H8) Hobs) H10) as Hrest.
        split; [exact (observes_trans _ _ _ Hobs5 Hrest)|].
        split; [now exists cur|].
        intros Hl. eapply observes_logged; [exact Hrest|].
        apply Hlog5. eapply observes_logged; [exact Hobs4 | exact Hl].
Qed.

(** ** The polling loop as a whole *)

Lemma vars_reach_front v cur v2 v1 :
  vars_step v cur v2 -> vars_reach v2 v1 -> vars_reach v v1.
Proof.
  intros Hstep Hreach. induction Hreach as [|w c w' _ IH Hs].
  - eapply reach_turn; [apply reach_here | exact Hstep].
  - eapply reach_turn; [exact IH | exact Hs].
Qed.

Lemma poll_loop_exit fuel command action :
  forall v st obs st',
    poll_loop fuel command action v st = (Ok obs, st') ->
    exists v1 st1,
      vars_reach v v1 /\ observes st st1
      /\ (change_logged v st -> change_logged v1 st1)
      /\ poll_exit command action v1 st1 obs st'.
Proof.
  induction fuel as [|fuel IH]; intros v st obs st' H; cbn [poll_loop] in H.
  - discriminate H.
  - bind_inv H go st1 H1.
    assert (Hobs1 : observes st st1).
    { revert H1. apply keeps_external. intros; eauto with keeps_db. }
    destruct go; [|discriminate H].
    bind_inv H r st2 H2. destruct r as [o|v'].
    + inversion H; subst o st2.
      exists v, st1. split; [apply reach_here|]. split; [exact Hobs1|].
      split; [apply observes_logged, Hobs1|].
      now apply poll_iteration_exit.
    + apply poll_iteration_next in H2 as (Hobs2 & [cur Hstep] & Hlog2).
      destruct (IH _ _ _ _ H) as (v1 & st3 & Hreach & Hobs3 & Hlog3 & Hexit).
      exists v1, st3. split; [eapply vars_reach_front; eauto|].
      split; [exact (observes_trans _ _ _ (observes_trans _ _ _ Hobs1 Hobs2) Hobs3)|].
      split; [|exact Hexit].
      intros Hl. apply Hlog3, Hlog2. eapply observes_logged; [exact Hobs1 | exact Hl].
Qed.

Lemma poll_for_completion_exit fuel command action st obs st' :
  _poll_for_command_completion fuel command action st = (Ok obs, st') ->
  exists t0 pane0 v1 st1,
    vars_reach (mkPollVars t0 t0 pane0) v1 /\ observes st st1
    /\ change_logged v1 st1
    /\ poll_exit command action v1 st1 obs st'.
Proof.
  unfold _poll_for_command_completion. intros H.
  bind_inv H t0 st1 H1. pose proof (now_ok _ _ _ H1) as Hst1.
  apply keeps_observes_now in H1.
  bind_inv H pane0 st2 H2. apply keeps_observes_pane_content in H2.
  destruct (poll_loop_exit _ _ _ _ _ _ _ H)
    as (v1 & st3 & Hreach & Hobs & Hlog & Hexit).
  exists t0, pane0, v1, st3. split; [exact Hreach|].
  split; [exact (observes_trans _ _ _ (observes_trans _ _ _ H1 H2) Hobs)|].
  split; [|exact Hexit].
  apply Hlog. eapply observes_logged; [exact H2|].
  rewrite Hst1. unfold change_logged. cbn. apply in_or_app. right. now left.
Qed.

(** ** After a completed observation *)

(** The state in which the completed handler returns. *)
Lemma completed_leaves_reset command pane_content ps1_matches st obs st' :
  _handle_completed_command command pane_content ps1_matches st = (Ok obs, st') ->
  prev_status (self st') = Some (Some COMPLETED)
  /\ prev_output (self st') = Some ""
  /\ effects st' = (effects st ++ clear_effects)%list.
Proof.
  intros H.
  apply handle_completed_ok in H
    as (front & last_match & cwd0 & p & suffix & _ & _ & _ & _ & _ & ->).
  cbn. repeat split; reflexivity.
Qed.

(** C3.  When the completed-command handler returns its observation, the
    session has [prev_status = COMPLETED] and [prev_output = ""], and the
    last things sent to the pane are the clearing of the screen ([C-l]
    without Enter) and of the history. *)
Theorem completed_resets_session command pane_content ps1_matches st obs st' :
  _handle_completed_command command pane_content ps1_matches st = (Ok obs, st') ->
  prev_status (self st') = Some (Some COMPLETED)
  /\ prev_output (self st') = Some ""
  /\ effects st'
     = (effects st
          ++ [EffSendKeys "C-l" false; EffSleep 100; EffClearHistory])%list.
Proof. apply completed_leaves_reset. Qed.

(** The same at the level of the polling loop: an observation that leaves
    the status [COMPLETED] was built by the completed handler. *)
Corollary poll_completed_resets_session fuel command action st obs st' :
  _poll_for_command_completion fuel command action st = (Ok obs, st') ->
  prev_status (self st') = Some (Some COMPLETED) ->
  prev_output (self st') = Some ""
  /\ exists es, effects st' = (es ++ clear_effects)%list.
Proof.
  intros H Hstatus.
  apply poll_for_completion_exit in H
    as (t0 & pane0 & v1 & st1 & _ & _ & _ & Hexit).
  destruct Hexit as [st0 cur v' _ _ _ Hh | st0 cur v' t _ _ _ _ _ _ _ Hh
                    | st0 cur v' t limit _ _ _ _ _ _ Hh].
  - apply completed_leaves_reset in Hh as (_ & Hout & Heff).
    split; [exact Hout | now exists (effects st0)].
  - apply handle_nochange_ok in Hh as (p & md & _ & _ & _ & ->).
    cbn in Hstatus. discriminate.
  - apply handle_hard_ok in Hh as (p & md & _ & _ & _ & ->).
    cbn in Hstatus. discriminate.
Qed.

(** ** The truncation banner *)

(** With a single match, the completed handler reports the text before the
    match; the truncation banner survives only when there was no previous
    output, because [_get_command_output] then leaves the prefix alone. *)
Lemma completed_single_match command pane_content m st obs st' p :
  _handle_completed_command command pane_content [m] st = (Ok obs, st') ->
  prev_output (self st) = Some p ->
  exists md,
    obs = CmdOutputObservation
            (diffed_output command (take (m_start m) pane_content) p) command md
    /\ md_prefix md
       = if nonempty p then ""
         else truncation_banner
                (List.length (splitlines (take (m_start m) pane_content))).
Proof.
  intros H Hp.
  apply handle_completed_ok in H
    as (front & last_match & cwd0 & p' & suffix & _ & _ & _ & Hp' & Hobs & _).
  rewrite Hp in Hp'. inversion Hp'; subst p'. cbn in Hobs.
  eexists. split; [exact Hobs|]. now destruct (nonempty p).
Qed.

(** ** What is left in [prev_output] *)

Lemma build_ok b command pane_content st obs st' :
  build b command pane_content st = (Ok obs, st') ->
  exists p md,
    prev_output (self st) = Some p
    /\ obs = CmdOutputObservation
               (diffed_output command (raw_output_of b pane_content) p) command md
    /\ (nonempty p = true -> md_prefix md = continue_prefix_of b)
    /\ prev_output (self st') = Some (prev_output_after b pane_content).
Proof.
  destruct b as [| |limit|]; cbn [build]; intros H.
  - apply handle_completed_ok in H
      as (front & last_match & cwd0 & p & suffix & _ & _ & _ & Hp & Hobs & ->).
    exists p. eexists. split; [exact Hp|]. split; [exact Hobs|].
    split; [|reflexivity]. intros ->. reflexivity.
  - apply handle_nochange_ok in H as (p & md & Hp & Hobs & Hpre & ->).
    exists p, md. split; [exact Hp|]. split; [exact Hobs|].
    split; [|reflexivity]. intros Hne. now rewrite Hpre, Hne.
  - apply handle_hard_ok in H as (p & md & Hp & Hobs & Hpre & ->).
    exists p, md. split; [exact Hp|]. split; [exact Hobs|].
    split; [|reflexivity]. intros Hne. now rewrite Hpre, Hne.
  - apply handle_interrupted_ok in H as (p & md & Hp & Hobs & Hpre & ->).
    exists p, md. split; [exact Hp|]. split; [exact Hobs|].
    split; [|reflexivity]. intros Hne. now rewrite Hpre, Hne.
Qed.

(** Two builders in a row, the first one a timeout or the interrupted one. *)
Lemma builders_in_sequence
    b1 b2 c1 pane1 c2 pane2 st obs1 st1 st2 content command md st3 :
  is_completed b1 = false ->
  build b1 c1 pane1 st = (Ok obs1, st1) ->
  prev_output (self st2) = prev_output (self st1) ->
  build b2 c2 pane2 st2 = (Ok (CmdOutputObservation content command md), st3) ->
  let previous := raw_output_of b1 pane1 in
  let raw := raw_output_of b2 pane2 in
  prev_output (self st1) = Some previous
  /\ content
     = rstrip (_remove_command_prefix
                 (if nonempty previous then removeprefix raw previous else raw) c2)
  /\ (nonempty previous = true ->
      if is_completed b2
      then List.length (matches_ps1_metadata pane2) <> 1 -> md_prefix md = ""
      else md_prefix md = continuation_banner)
  /\ prev_output (self st3) = Some (if is_completed b2 then "" else raw).
Proof.
  intros Hb1 H1 Hsame H2.
  apply build_ok in H1 as (p1 & md1 & _ & _ & _ & Hprev1).
  unfold prev_output_after in Hprev1. rewrite Hb1 in Hprev1.
  apply build_ok in H2 as (p2 & md2 & Hp2 & Hobs2 & Hpre2 & Hprev2).
  rewrite Hsame, Hprev1 in Hp2. inversion Hp2; subst p2.
  inversion Hobs2; subst content command md2.
  cbn zeta. split; [exact Hprev1|]. split; [reflexivity|].
  split; [|exact Hprev2].
  intros Hne. specialize (Hpre2 Hne). unfold continue_prefix_of in Hpre2.
  destruct (is_completed b2); [intros _|]; exact Hpre2.
Qed.

(** C10 (as amended).  A timeout or interrupted observation leaves in
    [prev_output] the raw output it extracted from its capture.  As long
    as nothing else assigns [prev_output], the observation built next, by
    any of the four builders, takes that text off the front of its own raw
    output (when it is not empty and is a prefix of it) before the command
    echo and the surrounding white space are stripped.  When that text is
    not empty, the prefix of the metadata is the continuation banner if
    the next builder is a timeout or the interrupted one, and the empty
    string if it is the completed one on a capture that does not hold
    exactly one match.  Afterwards [prev_output] is the new raw output, or
    the empty string after a completed observation. *)
Theorem prev_output_carried_over
    b1 b2 c1 pane1 c2 pane2 st obs1 st1 st2 content command md st3 :
  is_completed b1 = false ->
  build b1 c1 pane1 st = (Ok obs1, st1) ->
  prev_output (self st2) = prev_output (self st1) ->
  build b2 c2 pane2 st2 = (Ok (CmdOutputObservation content command md), st3) ->
  let previous := raw_output_of b1 pane1 in
  let raw := raw_output_of b2 pane2 in
  prev_output (self st1) = Some previous
  /\ content
     = rstrip (_remove_command_prefix
                 (if nonempty previous then removeprefix raw previous else raw) c2)
  /\ (nonempty previous = true ->
      if is_completed b2
      then List.length (matches_ps1_metadata pane2) <> 1 -> md_prefix md = ""
      else md_prefix md = continuation_banner)
  /\ prev_output (self st3) = Some (if is_completed b2 then "" else raw).
Proof. apply builders_in_sequence. Qed.

(** Every observation that the polling loop returns is the work of one of
    the builders, called on a session object that the loop has not
    touched. *)
Lemma poll_builds fuel command action st obs st' :
  _poll_for_command_completion fuel command action st = (Ok obs, st') ->
  exists b pane_content st0,
    self st0 = self st /\ build b command pane_content st0 = (Ok obs, st').
Proof.
  intros H.
  apply poll_for_completion_exit in H
    as (t0 & pane0 & v1 & st1 & _ & [Hself1 _] & _ & Hexit).
  destruct Hexit as [st0 cur v' [Hself0 _] _ _ Hh
                    | st0 cur v' t [Hself0 _] _ _ _ _ _ _ Hh
                    | st0 cur v' t limit [Hself0 _] _ _ _ _ _ Hh].
  - exists ByCompleted, cur, st0. split; [congruence | exact Hh].
  - exists ByNoChangeTimeout, cur, st0. split; [congruence | exact Hh].
  - exists (ByHardTimeout limit), cur, st0. split; [congruence | exact Hh].
Qed.

(** The same for [execute]: its observation either leaves the session
    object as it was (the error observations and the Stop action), or is
    the work of one of the builders. *)
Lemma execute_builds fuel action st obs st' :
  execute fuel action st = (Ok obs, st') ->
  self st' = self st
  \/ exists b command pane_content st0,
       self st0 = self st /\ build b command pane_content st0 = (Ok obs, st').
Proof.
  unfold execute. intros H.
  rewrite bind_run with (a := self st) (st1 := st) in H by reflexivity.
  destruct (negb (_initialized (self st))); [discriminate H|].
  destruct action as [a| |name].
  - destruct (String.eqb (strip (command a)) "");
      [|destruct (is_input a)].
    + unfold _handle_empty_command in H.
      bind_inv H u st1 H1.
      assert (st1 = st) as -> by (destruct (String.eqb _ ""); now inversion H1).
      bind_inv H status st2 H2. apply getattr_ok in H2 as [_ ->].
      destruct (negb (is_continuing status)).
      * inversion H; subst. now left.
      * right. apply poll_builds in H as (b & pc & st0 & Hs & Hb).
        exists b. eexists. exists pc, st0. split; [exact Hs | exact Hb].
    + unfold _handle_input_command in H.
      bind_inv H status st2 H2. apply getattr_ok in H2 as [_ ->].
      destruct (negb (is_continuing status)).
      * inversion H; subst. now left.
      * bind_inv H u st3 H3.
        assert (Hs3 : self st3 = self st).
        { unfold send_keys, pane_call in H3. bind_inv H3 u' st4 H4.
          apply getattr_ok in H4 as [_ ->]. now inversion H3. }
        right. apply poll_builds in H as (b & pc & st0 & Hs & Hb).
        exists b. eexists. exists pc, st0. split; [congruence | exact Hb].
    + unfold _handle_normal_command in H.
      bind_inv H last_pane st1 H1.
      apply keeps_observes_pane_content in H1 as [Hs1 _].
      bind_inv H status st2 H2. apply getattr_ok in H2 as [_ ->].
      destruct (is_timed_out status && _).
      * right. exists ByInterrupted. eexists. exists last_pane, st1.
        split; [exact Hs1 | exact H].
      * destruct (1 <? _)%nat.
        -- inversion H; subst. now left.
        -- bind_inv H u st3 H3.
           assert (Hs3 : self st3 = self st1).
           { unfold send_keys, pane_call in H3. bind_inv H3 u' st4 H4.
             apply getattr_ok in H4 as [_ ->]. now inversion H3. }
           right. apply poll_builds in H as (b & pc & st0 & Hs & Hb).
           exists b. eexists. exists pc, st0. split; [congruence | exact Hb].
  - bind_inv H b st1 H1. inversion H; subst.
    left. now apply keeps_observes_kill_all in H1 as [Hs _].
  - inversion H; subst. now left.
Qed.

(** What [execute] returns right after a timeout or interrupted
    observation: unless it is an error observation or the answer to a Stop
    action, it is a command observation built as the theorem above says. *)
Corollary next_execute_after_timeout
    b1 c1 pane1 st obs1 st1 fuel action obs2 st2 :
  is_completed b1 = false ->
  build b1 c1 pane1 st = (Ok obs1, st1) ->
  execute fuel action st1 = (Ok obs2, st2) ->
  let previous := raw_output_of b1 pane1 in
  self st2 = self st1
  \/ exists b2 c2 pane2 md,
       let raw := raw_output_of b2 pane2 in
       obs2 = CmdOutputObservation
                (rstrip (_remove_command_prefix
                           (if nonempty previous
                            then removeprefix raw previous else raw) c2))
                c2 md
       /\ (nonempty previous = true ->
           if is_completed b2
           then List.length (matches_ps1_metadata pane2) <> 1 -> md_prefix md = ""
           else md_prefix md = continuation_banner)
       /\ prev_output (self st2) = Some (if is_completed b2 then "" else raw).
Proof.
  intros Hb1 H1 H2. cbv zeta.
  apply execute_builds in H2 as [Hsame|(b2 & c2 & pane2 & st0 & Hs & Hb)];
    [now left|right].
  pose proof (build_ok _ _ _ _ _ _ Hb) as (p & md & _ & Hobs & _ & _).
  subst obs2.
  assert (Hprev : prev_output (self st0) = prev_output (self st1)) by now rewrite Hs.
  destruct (builders_in_sequence _ _ _ _ _ _ _ _ _ _ _ _ _ _
              Hb1 H1 Hprev Hb) as (_ & Hc & Hp & Ho).
  exists b2, c2, pane2, md. rewrite <- Hc. repeat split; assumption.
Qed.

(** ** Killing processes *)

Lemma kill_process_run p st :
  kill_process p st
  = (Ok (match psutil_kill W (tick st) p with Killed => true | _ => false end),
     after_call st (EffKill p (psutil_kill W (tick st) p))).
Proof.
  unfold kill_process. rewrite (bind_run _ _ _ _ _ (external_run _ _ _)).
  now destruct (psutil_kill W (tick st) p).
Qed.

Lemma kill_each_spec pids :
  forall success st r st',
    pane (self st) = Some tt ->
    kill_each pids success st = (r, st') ->
    exists es,
      effects st' = (effects st ++ es)%list
      /\ match r with
         | Ok b =>
             kill_trace pids es
             /\ (b = true <-> success = true \/ exists p, In (EffKill p Killed) es)
         | Raise e =>
             (e = IndexError \/ e = ValueError)
             /\ exists bad, not_a_pid bad /\ In (EffDisplayPanePid bad) es
         | Unfinished => False
         end.
Proof.
  induction pids as [|p rest IH]; intros success st r st' Hpane H; cbn [kill_each] in H.
  - inversion H; subst. exists []. split; [now rewrite app_nil_r|].
    split; [constructor|]. split; [auto | intros [E|[q []]]; exact E].
  - rewrite (bind_run _ _ _ _ _ (pane_call_run _ _ _ Hpane)) in H.
    set (reply := display_pane_pid W (tick st)) in *.
    set (st1 := after_call st (EffDisplayPanePid reply)) in *.
    destruct reply as [q| |] eqn:Hreply.
    + destruct (Nat.eqb_spec p q) as [E|E]; cbn [negb] in H.
      * subst q. destruct (IH success st1 r st' Hpane H) as (es & Heff & Hr).
        exists (EffDisplayPanePid (PanePid p) :: es). split.
        { rewrite Heff. cbn. now rewrite <- app_assoc. }
        destruct r as [b|e|]; [| |exact Hr].
        -- destruct Hr as [Ht Hb]. split; [now constructor|].
           rewrite Hb. split; (intros [S|[x Hx]]; [now left|right; exists x]).
           ++ now right.
           ++ destruct Hx as [Hx|Hx]; [discriminate|exact Hx].
        -- destruct Hr as [He (bad & B & Hin)]. split; [exact He|].
           exists bad. split; [exact B|]. now right.
      * rewrite (bind_run _ _ _ _ _ (kill_process_run p st1)) in H.
        set (kr := psutil_kill W (tick st1) p) in *.
        set (st2 := after_call st1 (EffKill p kr)) in *.
        destruct (IH _ st2 r st' Hpane H) as (es & Heff & Hr).
        exists (EffDisplayPanePid (PanePid q) :: EffKill p kr :: es). split.
        { rewrite Heff. cbn. now rewrite <- !app_assoc. }
        clear H. clearbody kr.
        destruct r as [b|e|]; [| |exact Hr].
        -- destruct Hr as [Ht Hb]. split; [now constructor|].
           rewrite Hb. split.
           ++ intros [S|[x Hx]].
              ** destruct kr; [right; exists p; right; now left| |]; now left.
              ** right. exists x. right. now right.
           ++ intros [S|[x Hx]].
              ** left. rewrite S. now destruct kr.
              ** destruct Hx as [Hx|[Hx|Hx]]; [discriminate| |].
                 --- inversion Hx; subst. now left.
                 --- right. now exists x.
        -- destruct Hr as [He (bad & B & Hin)]. split; [exact He|].
           exists bad. split; [exact B|]. right. now right.
    + inversion H; subst. exists [EffDisplayPanePid NoStdout].
      split; [reflexivity|]. split; [now left|].
      exists NoStdout. split; [exact I | now left].
    + inversion H; subst. exists [EffDisplayPanePid NotANumber].
      split; [reflexivity|]. split; [now right|].
      exists NotANumber. split; [exact I | now left].
Qed.

Lemma pane_content_run st :
  pane (self st) = Some tt ->
  _get_pane_content st
  = (Ok (pane_text (capture_pane_stdout W (tick st))),
     after_call st (EffCapturePane (capture_pane_stdout W (tick st)))).
Proof.
  intros Hp. unfold _get_pane_content.
  now rewrite (bind_run _ _ _ _ _ (pane_call_run _ _ _ Hp)).
Qed.

(** With a pane, the discovery never raises. *)
Lemma discovery_total st :
  pane (self st) = Some tt ->
  exists info st1, get_running_processes st = (Ok info, st1) /\ observes st st1.
Proof.
  intros Hp.
  destruct (get_running_processes st) as [r st1] eqn:E.
  pose proof (keeps_observes_discovery _ _ _ E) as Hobs.
  revert E. unfold get_running_processes.
  rewrite (bind_run _ _ _ _ _ (pane_content_run _ Hp)).
  destruct (_ && _).
  - intros E; inversion E; subst. eauto.
  - rewrite (bind_run _ _ _ _ _ (pane_call_run _ _ (after_call st _) Hp)).
    destruct (display_pane_pid W _) as [q| |].
    + rewrite (bind_run _ _ _ _ _ (external_run _ _ _)).
      destruct (psutil_Process W _ q); intros E; inversion E; subst; eauto.
    + intros E; inversion E; subst; eauto.
    + intros E; inversion E; subst; eauto.
Qed.

(** C6 (as amended).  [kill_all_processes] goes through [process_pids] of
    the discovery (the shell and every descendant that shows a command
    line), asks the pane pid for each, sends a kill to each pid that is
    not the pane pid and to no other, and returns true exactly when one of
    these kills succeeded.  A kill answered by [NoSuchProcess] or
    [AccessDenied] counts as a failure and the loop goes on; the only thing
    that makes the call raise is a pane pid that cannot be read. *)
Theorem kill_all_processes_spec st r st' :
  pane (self st) = Some tt ->
  kill_all_processes st = (r, st') ->
  exists info st1 es,
    get_running_processes st = (Ok info, st1)
    /\ effects st' = (effects st1 ++ es)%list
    /\ match r with
       | Ok b =>
           kill_trace (process_pids info) es
           /\ (b = true <-> exists p, In (EffKill p Killed) es)
       | Raise e =>
           (e = IndexError \/ e = ValueError)
           /\ exists bad, not_a_pid bad /\ In (EffDisplayPanePid bad) es
       | Unfinished => False
       end.
Proof.
  intros Hp H.
  destruct (discovery_total st Hp) as (info & st1 & Hd & [Hself _]).
  unfold kill_all_processes in H. rewrite (bind_run _ _ _ _ _ Hd) in H.
  assert (Hp1 : pane (self st1) = Some tt) by now rewrite Hself.
  destruct (kill_each_spec _ _ _ _ _ Hp1 H) as (es & Heff & Hr).
  exists info, st1, es. split; [exact Hd|]. split; [exact Heff|].
  destruct r as [b|e|]; [|exact Hr|exact Hr].
  destruct Hr as [Ht Hb]. split; [exact Ht|].
  rewrite Hb. split; [intros [S|S]; [discriminate|exact S] | now right].
Qed.

(** ** Closing *)

(** [initialize] returns and leaves every attribute assigned. *)
Lemma initialize_ok st :
  exists st',
    initialize st = (Ok tt, st')
    /\ has_attrs (self st') = true
    /\ _initialized (self st') = true
    /\ _closed (self st') = Some false
    /\ prev_status (self st') = Some None
    /\ prev_output (self st') = Some ""
    /\ _cwd (self st') = Some (os_path_abspath (work_dir (self st))).
Proof.
  destruct st as [b t es]. eexists. split.
  - unfold initialize, _clear_screen, send_keys, pane_call, time_sleep, tell.
    cbn. reflexivity.
  - cbn. repeat split; reflexivity.
Qed.

Lemma close_without_attribute st :
  _closed (self st) = None ->
  close st = (Raise (AttributeError "_closed"), st).
Proof.
  intros H. unfold close.
  now rewrite (bind_raise _ _ _ _ _ (getattr_none "_closed" _closed st H)).
Qed.

Lemma close_when_closed st :
  _closed (self st) = Some true -> close st = (Ok tt, st).
Proof.
  intros H. unfold close.
  now rewrite (bind_run _ _ _ _ _ (getattr_run "_closed" _closed st true H)).
Qed.

(** A close that returned leaves the session closed. *)
Lemma close_ok st u st' :
  close st = (Ok u, st') -> _closed (self st') = Some true.
Proof.
  unfold close. intros H.
  bind_inv H closed st1 H1. apply getattr_ok in H1 as [H1 ->].
  destruct closed.
  - inversion H; subst. exact H1.
  - bind_inv H b st2 H2. bind_inv H u2 st3 H3. inversion H; subst. reflexivity.
Qed.

(** Closing twice: the second call does nothing. *)
Lemma close_idempotent st u st' :
  close st = (Ok u, st') -> close st' = (Ok tt, st').
Proof. intros H. apply close_when_closed. eapply close_ok, H. Qed.

(** C5, the failing call.  On a session object that was constructed and
    never initialized, [close] raises [AttributeError]: [__init__] does not
    assign [_closed], and [close] reads it first.  The destructor calls
    [close] and meets the same exception. *)
Theorem close_raises_before_initialize
    (work_dir : string) (username : option string) (no_change_timeout : Z)
    (max_memory_mb : option Z) (t : nat) (es : list Effect) :
  let st :=
    mkSt (BashSession_new work_dir username no_change_timeout max_memory_mb) t es in
  close st = (Raise (AttributeError "_closed"), st)
  /\ __del__ st = (Raise (AttributeError "_closed"), st).
Proof. cbv zeta. split; apply close_without_attribute; reflexivity. Qed.

(** ** One command per action *)

Lemma silent_refl st : silent st st.
Proof. split; reflexivity. Qed.

Lemma silent_trans a b c : silent a b -> silent b c -> silent a c.
Proof. intros [E1 T1] [E2 T2]. split; congruence. Qed.

Lemma silent_assign st f : silent st (after_assign st f).
Proof. split; reflexivity. Qed.

#[local] Hint Resolve silent_refl silent_trans silent_assign : keeps_db.

Lemma keeps_silent_get_command_output command raw md continue_prefix :
  keeps silent (_get_command_output command raw md continue_prefix).
Proof. unfold _get_command_output. keeps_walk. Qed.

Lemma keeps_silent_interrupted command last_pane :
  keeps silent (_handle_interrupted_command command last_pane).
Proof.
  unfold _handle_interrupted_command.
  apply keeps_bind; [eauto with keeps_db | apply keeps_silent_get_command_output |].
  intros [out md]. keeps_walk.
Qed.

Lemma strip_blank (s : string) : strip s = "" -> strip (strip s) = "".
Proof. now intros ->. Qed.

Lemma split_blank (commands : string) :
  strip commands = "" -> split_bash_commands commands = [""].
Proof. unfold split_bash_commands. now intros ->. Qed.

(** C7 (as amended).  On an initialized session, a command that is not an
    input and that the splitter cuts in two or more makes [execute] capture
    the pane once and send no keys.  Unless the previous command timed out
    and the capture does not end with the PS1 end marker, the result is the
    error observation whose content starts with
    [ERROR: Cannot execute multiple commands at once.] and lists the
    commands numbered from (1), and the session is left as it was; in the
    excepted case the result is the interrupted-command observation. *)
Theorem multiple_commands_rejected fuel action st status :
  _initialized (self st) = true ->
  pane (self st) = Some tt ->
  prev_status (self st) = Some status ->
  is_input action = false ->
  1 < List.length (split_bash_commands (strip (command action))) ->
  let stdout := capture_pane_stdout W (tick st) in
  let st1 := after_call st (EffCapturePane stdout) in
  let commands := split_bash_commands (strip (command action)) in
  exists r st',
    execute fuel (RunAction action) st = (r, st')
    /\ effects st' = (effects st ++ [EffCapturePane stdout])%list
    /\ if is_timed_out status
          && negb (endswith (pane_text stdout) CMD_OUTPUT_PS1_END)
       then (r, st')
            = _handle_interrupted_command (strip (command action))
                                          (pane_text stdout) st1
       else st' = st1
            /\ r = Ok (ErrorObservation
                   ("ERROR: Cannot execute multiple commands at once." ++ NL
                    ++ "Please run each command separately OR chain them into a single command via && or ;"
                    ++ NL ++ "Provided commands:" ++ NL
                    ++ join NL
                         (map (fun ic => "(" ++ str_nat (fst ic + 1) ++ ") " ++ snd ic)
                              (enumerate_from 0 commands)))).
Proof.
  intros Hinit Hpane Hstatus Hinput Hmany. cbv zeta.
  assert (Hne : String.eqb (strip (command action)) "" = false).
  { destruct (String.eqb_spec (strip (command action)) "") as [E|E]; [|reflexivity].
    rewrite (split_blank _ (strip_blank _ E)) in Hmany. cbn in Hmany. lia. }
  unfold execute. rewrite (bind_run _ _ _ _ _ (eq_refl : get_self st = (Ok (self st), st))).
  rewrite Hinit. cbn [negb]. rewrite Hne, Hinput.
  unfold _handle_normal_command.
  rewrite (bind_run _ _ _ _ _ (pane_content_run _ Hpane)).
  rewrite (bind_run _ _ _ _ _
             (getattr_run "prev_status" prev_status (after_call st _) status Hstatus)).
  destruct (is_timed_out status && negb (endswith _ CMD_OUTPUT_PS1_END)).
  - destruct (_handle_interrupted_command _ _ _) as [r st'] eqn:E.
    exists r, st'. split; [reflexivity|]. split; [|reflexivity].
    apply keeps_silent_interrupted in E as [E _]. exact E.
  - apply Nat.ltb_lt in Hmany. rewrite Hmany.
    eexists. eexists. split; [reflexivity|]. split; [reflexivity|].
    split; reflexivity.
Qed.

(** ** The working directory *)

Lemma same_cwd_refl st : same_cwd st st.
Proof. reflexivity. Qed.

Lemma same_cwd_trans a b c : same_cwd a b -> same_cwd b c -> same_cwd a c.
Proof. unfold same_cwd. congruence. Qed.

Lemma same_cwd_call st e : same_cwd st (after_call st e).
Proof. reflexivity. Qed.

Lemma observes_same_cwd a b : observes a b -> same_cwd a b.
Proof. intros [E _]. unfold same_cwd. now rewrite E. Qed.

Lemma cwd_rule_refl st : cwd_rule st st.
Proof. now left. Qed.

Lemma cwd_rule_trans a b c : cwd_rule a b -> cwd_rule b c -> cwd_rule a c.
Proof.
  unfold cwd_rule, same_cwd.
  intros [E1|(p1 & d1 & N1 & W1 & D1 & O1 & C1)] [E2|(p2 & d2 & N2 & W2 & D2 & O2 & C2)].
  - left. congruence.
  - right. exists p2, d2. repeat split; auto; congruence.
  - right. exists p1, d1. repeat split; auto; congruence.
  - destruct (_cwd (self a)) as [c0|] eqn:Ha.
    + destruct (string_dec c0 d2) as [->|Hne].
      * left. congruence.
      * right. exists p2, d2. repeat split; auto; congruence.
    + right. exists p2, d2. repeat split; auto; congruence.
Qed.

Lemma same_cwd_rule a b : same_cwd a b -> cwd_rule a b.
Proof. now left. Qed.

#[local] Hint Resolve same_cwd_refl same_cwd_trans same_cwd_call
  cwd_rule_refl cwd_rule_trans same_cwd_rule : keeps_db.
#[local] Hint Extern 1 (same_cwd _ (after_assign _ (set_prev_status _))) =>
  reflexivity : keeps_db.
#[local] Hint Extern 1 (same_cwd _ (after_assign _ (set_prev_output _))) =>
  reflexivity : keeps_db.
#[local] Hint Extern 1 (same_cwd _ (after_assign _ (set_closed _))) =>
  reflexivity : keeps_db.
#[local] Hint Extern 1 (cwd_rule _ (after_call _ _)) =>
  left; reflexivity : keeps_db.
#[local] Hint Extern 1 (cwd_rule _ (after_assign _ (set_prev_status _))) =>
  left; reflexivity : keeps_db.
#[local] Hint Extern 1 (cwd_rule _ (after_assign _ (set_prev_output _))) =>
  left; reflexivity : keeps_db.
#[local] Hint Extern 1 (cwd_rule _ (after_assign _ (set_closed _))) =>
  left; reflexivity : keeps_db.

Lemma keeps_same_cwd_of_observes {A} (m : M A) :
  keeps observes m -> keeps same_cwd m.
Proof. apply keeps_weaken. exact observes_same_cwd. Qed.

Lemma keeps_cwd_rule_of_same {A} (m : M A) :
  keeps same_cwd m -> keeps cwd_rule m.
Proof. apply keeps_weaken. exact same_cwd_rule. Qed.

Lemma keeps_same_cwd_send_keys keys enter : keeps same_cwd (send_keys keys enter).
Proof. unfold send_keys, pane_call. keeps_walk. Qed.

Lemma keeps_same_cwd_clear_screen : keeps same_cwd _clear_screen.
Proof.
  unfold _clear_screen, pane_call, time_sleep, tell.
  apply keeps_bind; [eauto with keeps_db | apply keeps_same_cwd_send_keys |].
  intros _. keeps_walk.
Qed.

Lemma keeps_same_cwd_get_command_output command raw md continue_prefix :
  keeps same_cwd (_get_command_output command raw md continue_prefix).
Proof. unfold _get_command_output. keeps_walk. Qed.

Lemma keeps_same_cwd_nochange command pane_content ms :
  keeps same_cwd (_handle_nochange_timeout_command command pane_content ms).
Proof.
  unfold _handle_nochange_timeout_command.
  apply keeps_bind; [eauto with keeps_db | keeps_walk | intros _].
  apply keeps_bind; [eauto with keeps_db | keeps_walk | intros me].
  apply keeps_bind;
    [eauto with keeps_db | apply keeps_same_cwd_get_command_output |].
  intros [out md]. keeps_walk.
Qed.

Lemma keeps_same_cwd_hard command pane_content ms limit :
  keeps same_cwd (_handle_hard_timeout_command command pane_content ms limit).
Proof.
  unfold _handle_hard_timeout_command.
  apply keeps_bind; [eauto with keeps_db | keeps_walk | intros _].
  apply keeps_bind;
    [eauto with keeps_db | apply keeps_same_cwd_get_command_output |].
  intros [out md]. keeps_walk.
Qed.

Lemma keeps_same_cwd_interrupted command last_pane :
  keeps same_cwd (_handle_interrupted_command command last_pane).
Proof.
  unfold _handle_interrupted_command.
  apply keeps_bind;
    [eauto with keeps_db | apply keeps_same_cwd_get_command_output |].
  intros [out md]. keeps_walk.
Qed.

(** The completed handler is the one place where [_cwd] is assigned. *)
Lemma completed_cwd command pane_content ms st r st' :
  _handle_completed_command command pane_content ms st = (r, st') ->
  same_cwd st st' \/ cwd_taken_from ms st st'.
Proof.
  unfold _handle_completed_command. intros H.
  destruct (rev ms) as [|last_match front] eqn:Hrev.
  { inversion H; subst. now left. }
  apply rev_cons_last in Hrev.
  destruct (_cwd (self st)) as [cwd0|] eqn:Hcwd.
  2:{ rewrite (bind_raise _ _ _ _ _ (getattr_none "_cwd" _cwd st Hcwd)) in H.
      inversion H; subst. now left. }
  rewrite (bind_run _ _ _ _ _ (getattr_run "_cwd" _cwd st cwd0 Hcwd)) in H.
  match type of H with
  | bind _ ?k _ = _ => assert (K : keeps same_cwd (k tt))
  end.
  { apply keeps_bind; [eauto with keeps_db | keeps_walk | intros suffix].
    apply keeps_bind;
      [eauto with keeps_db | apply keeps_same_cwd_get_command_output |].
    intros [out md].
    apply keeps_bind; [eauto with keeps_db | keeps_walk | intros _].
    apply keeps_bind; [eauto with keeps_db | keeps_walk | intros _].
    apply keeps_bind; [eauto with keeps_db | apply keeps_same_cwd_clear_screen |].
    intros _. keeps_walk. }
  destruct (cwd_changed (md_working_dir (from_ps1_match last_match)) cwd0) eqn:Hch.
  - rewrite bind_assign in H. apply K in H.
    right. unfold cwd_changed in Hch.
    destruct (md_working_dir (from_ps1_match last_match)) as [d|] eqn:Hd;
      [|discriminate].
    apply andb_prop in Hch as [Hne Hd0].
    exists d. rewrite Hrev, last_last. repeat split.
    + now destruct (rev front).
    + exact Hd.
    + intros ->. discriminate.
    + rewrite Hcwd. intros E. inversion E; subst.
      now rewrite String.eqb_refl in Hne.
    + rewrite H. reflexivity.
  - rewrite bind_ret in H. apply K in H. now left.
Qed.

Lemma keeps_cwd_rule_completed command pane_content :
  keeps cwd_rule
        (_handle_completed_command command pane_content
                                   (matches_ps1_metadata pane_content)).
Proof.
  intros st r st' H. apply completed_cwd in H as [H|H].
  - now left.
  - right. now exists pane_content.
Qed.

#[local] Hint Resolve keeps_cwd_rule_completed
  keeps_observes_now keeps_observes_sleep keeps_observes_pane_content
  keeps_observes_discovery keeps_observes_discovery_logged
  keeps_observes_kill_all
  keeps_same_cwd_of_observes keeps_cwd_rule_of_same
  keeps_same_cwd_send_keys keeps_same_cwd_nochange keeps_same_cwd_hard
  keeps_same_cwd_interrupted : keeps_db.

Lemma keeps_cwd_rule_iteration command action v :
  keeps cwd_rule (poll_iteration command action v).
Proof. unfold poll_iteration. keeps_walk. Qed.

Lemma keeps_cwd_rule_loop fuel command action :
  forall v, keeps cwd_rule (poll_loop fuel command action v).
Proof.
  induction fuel as [|fuel IH]; intros v; cbn [poll_loop].
  - intros st r st' H. inversion H; subst. apply cwd_rule_refl.
  - apply keeps_bind; [eauto with keeps_db | keeps_walk | intros go].
    destruct go; [|keeps_walk].
    apply keeps_bind;
      [eauto with keeps_db | apply keeps_cwd_rule_iteration | intros [obs|v']].
    + keeps_walk.
    + apply IH.
Qed.

Lemma keeps_cwd_rule_poll fuel command action :
  keeps cwd_rule (_poll_for_command_completion fuel command action).
Proof.
  unfold _poll_for_command_completion.
  apply keeps_bind; [eauto with keeps_db | eauto with keeps_db | intros t0].
  apply keeps_bind; [eauto with keeps_db | eauto with keeps_db | intros pane0].
  apply keeps_cwd_rule_loop.
Qed.

#[local] Hint Resolve keeps_cwd_rule_poll : keeps_db.

Lemma keeps_cwd_rule_execute fuel action : keeps cwd_rule (execute fuel action).
Proof.
  unfold execute, _handle_empty_command, _handle_input_command,
    _handle_normal_command.
  keeps_walk.
Qed.

Lemma keeps_same_cwd_close : keeps same_cwd close.
Proof. unfold close, pane_call. keeps_walk. Qed.

Lemma poll_ok_status fuel command action st obs st' :
  _poll_for_command_completion fuel command action st = (Ok obs, st') ->
  same_cwd st st' \/ prev_status (self st') = Some (Some COMPLETED).
Proof.
  intros H.
  apply poll_for_completion_exit in H
    as (t0 & pane0 & v1 & st1 & _ & Hobs & _ & Hexit).
  destruct Hexit as [st0 cur v' Hobs0 _ _ Hh | st0 cur v' t Hobs0 _ _ _ _ _ _ Hh
                    | st0 cur v' t limit Hobs0 _ _ _ _ _ Hh].
  - right. now apply completed_leaves_reset in Hh as [Hs _].
  - left. apply keeps_same_cwd_nochange in Hh.
    eapply same_cwd_trans; [|exact Hh].
    apply observes_same_cwd. eapply observes_trans; eauto.
  - left. apply keeps_same_cwd_hard in Hh.
    eapply same_cwd_trans; [|exact Hh].
    apply observes_same_cwd. eapply observes_trans; eauto.
Qed.

Lemma execute_ok_status fuel action st obs st' :
  execute fuel action st = (Ok obs, st') ->
  same_cwd st st' \/ prev_status (self st') = Some (Some COMPLETED).
Proof.
  unfold execute. intros H.
  rewrite bind_run with (a := self st) (st1 := st) in H by reflexivity.
  destruct (negb (_initialized (self st))); [discriminate H|].
  destruct action as [a| |name].
  - destruct (String.eqb (strip (command a)) "");
      [|destruct (is_input a)].
    + unfold _handle_empty_command in H.
      bind_inv H u st1 H1.
      assert (st1 = st) as -> by (destruct (String.eqb _ ""); now inversion H1).
      bind_inv H status st2 H2. apply getattr_ok in H2 as [_ ->].
      destruct (negb (is_continuing status)).
      * inversion H; subst. now left.
      * eapply poll_ok_status, H.
    + unfold _handle_input_command in H.
      bind_inv H status st2 H2. apply getattr_ok in H2 as [_ ->].
      destruct (negb (is_continuing status)).
      * inversion H; subst. now left.
      * bind_inv H u st3 H3. apply keeps_same_cwd_send_keys in H3.
        apply poll_ok_status in H as [H|H]; [left|now right].
        eapply same_cwd_trans; eauto.
    + unfold _handle_normal_command in H.
      bind_inv H last_pane st1 H1.
      apply keeps_observes_pane_content, observes_same_cwd in H1.
      bind_inv H status st2 H2. apply getattr_ok in H2 as [_ ->].
      destruct (is_timed_out status && _).
      * left. apply keeps_same_cwd_interrupted in H.
        eapply same_cwd_trans; eauto.
      * destruct (1 <? _)%nat.
        -- inversion H; subst. now left.
        -- bind_inv H u st3 H3. apply keeps_same_cwd_send_keys in H3.
           apply poll_ok_status in H as [H|H]; [left|now right].
           eapply same_cwd_trans; [exact H1|]. eapply same_cwd_trans; eauto.
  - bind_inv H b st1 H1. inversion H; subst.
    left. now apply keeps_observes_kill_all, observes_same_cwd in H1.
  - inversion H; subst. now left.
Qed.

Lemma execute_other_same_cwd fuel action st r st' :
  (forall a, action <> RunAction a) ->
  execute fuel action st = (r, st') -> same_cwd st st'.
Proof.
  intros Hno. revert st r st'. change (keeps same_cwd (execute fuel action)).
  unfold execute. destruct action as [a| |name]; [now elim (Hno a)| |]; keeps_walk.
Qed.

(** C4.  Whatever call is made on the session, [_cwd] afterwards is what it
    was before, except when the call is [execute] on a command action and
    the value comes from the completed handler: the working directory
    parsed from the last PS1 match of a capture, not empty and different
    from the old value; and when that call returns an observation the
    status is [COMPLETED].  In particular the timeout handlers, the input
    and empty-command paths that do not complete, the interrupted-command
    path, the Stop action and [close] leave [_cwd] alone. *)
Theorem cwd_changes_only_on_completion call st r st' :
  run_call call st = (r, st') ->
  _cwd (self st') = _cwd (self st)
  \/ exists fuel action pane_content d,
       call = CallExecute fuel (RunAction action)
       /\ matches_ps1_metadata pane_content <> []
       /\ md_working_dir
            (from_ps1_match
               (last (matches_ps1_metadata pane_content) (mkMatch 0 0 "")))
          = Some d
       /\ d <> ""
       /\ _cwd (self st) <> Some d
       /\ _cwd (self st') = Some d
       /\ (forall x, r = Ok x -> prev_status (self st') = Some (Some COMPLETED)).
Proof.
  intros H. destruct call as [fuel action| | | |]; cbn [run_call] in H.
  - destruct (execute fuel action st) as [r1 st1] eqn:E.
    assert (Hst : st' = st1).
    { unfold bind in H. rewrite E in H. destruct r1; now inversion H. }
    subst st1.
    destruct action as [a| |name].
    + pose proof (keeps_cwd_rule_execute _ _ _ _ _ E)
        as [Hsame|(pc & d & Hne & Hwd & Hd & Hold & Hnew)]; [now left|].
      right. exists fuel, a, pc, d. repeat split; auto.
      intros x Hx. subst r.
      unfold bind in H. rewrite E in H.
      destruct r1 as [obs|e|]; try discriminate.
      apply execute_ok_status in E as [Hsame|Hst]; [|exact Hst].
      unfold same_cwd in Hsame. congruence.
    + left. eapply execute_other_same_cwd; [|exact E]. discriminate.
    + left. eapply execute_other_same_cwd; [|exact E]. discriminate.
  - left. revert H. apply (keeps_bind same_cwd); [eauto with keeps_db | |].
    + apply keeps_same_cwd_close.
    + intros; keeps_walk.
  - left. revert H. apply (keeps_bind same_cwd); [eauto with keeps_db | |].
    + eauto with keeps_db.
    + intros; keeps_walk.
  - left. revert H. apply (keeps_bind same_cwd); [eauto with keeps_db | |].
    + eauto with keeps_db.
    + intros; keeps_walk.
  - left. revert H. unfold cwd.
    apply (keeps_bind same_cwd); [eauto with keeps_db | keeps_walk |].
    intros; keeps_walk.
Qed.

(** ** Blocking actions and the no-change timeout *)

(** *** The pane between the change time and the timeout *)

Lemma pane_content_ok st cur st' :
  _get_pane_content st = (Ok cur, st') ->
  cur = pane_text (capture_pane_stdout W (tick st))
  /\ st' = after_call st (EffCapturePane (capture_pane_stdout W (tick st))).
Proof.
  intros H. destruct (pane_cases st) as [Hp|Hp].
  - rewrite (pane_content_run _ Hp) in H. inversion H; subst. auto.
  - unfold _get_pane_content in H.
    rewrite (bind_raise _ _ _ _ _ (pane_call_none _ _ st Hp)) in H. discriminate H.
Qed.

Lemma turn_captures_none es : Forall no_turn es -> turn_captures es = [].
Proof.
  induction 1 as [|e es He _ IH]; [reflexivity|].
  destruct e; cbn; try exact IH. destruct He.
Qed.

Lemma capture_after_reading_app a e b :
  ~ is_reading e ->
  capture_after_reading ((a ++ [e]) ++ b) = capture_after_reading (a ++ [e]).
Proof.
  intros He. destruct a as [|x [|y a]]; cbn.
  - destruct e; try reflexivity; now elim He.
  - destruct x; reflexivity.
  - destruct x; reflexivity.
Qed.

Lemma turn_captures_app a e b :
  ends_turn e ->
  turn_captures ((a ++ [e]) ++ b)
  = (turn_captures (a ++ [e]) ++ turn_captures b)%list.
Proof.
  intros He.
  assert (Hr : ~ is_reading e) by (destruct e; cbn; auto; destruct He).
  induction a as [|x a IH].
  - cbn. destruct e; try reflexivity; destruct He.
  - cbn [app].
    destruct x; cbn [turn_captures]; try exact IH.
    rewrite IH, (capture_after_reading_app _ _ _ Hr).
    now rewrite app_assoc.
Qed.

Lemma turn_captures_turn go a stdout tail :
  Forall no_turn tail ->
  turn_captures (EffShouldContinue go :: EffTime a :: EffCapturePane stdout :: tail)
  = [pane_text stdout].
Proof. intros H. cbn. now rewrite (turn_captures_none _ H). Qed.

Lemma probe_no_turn e : is_probe e -> no_turn e.
Proof. destruct e; cbn; auto. Qed.

Lemma reading_no_turn e : is_reading e -> no_turn e.
Proof. destruct e; cbn; auto. Qed.

Lemma keeps_probes_discovery_logged :
  keeps (emits is_probe)
        (try_except (get_running_processes ;;; ret tt) (fun _ => ret tt)).
Proof.
  assert (Hcall : forall st e, is_probe e -> emits is_probe st (after_call st e))
    by (intros; now apply emits_call).
  apply keeps_try_except;
    [apply emits_trans | | intros; apply keeps_ret; intros; apply emits_refl].
  unfold get_running_processes, _get_pane_content, pane_call.
  repeat first
    [ apply keeps_ret; intros; apply emits_refl
    | apply keeps_getattr; intros; apply emits_refl
    | apply keeps_external; intros; apply Hcall; exact I
    | apply keeps_bind; [apply emits_trans | | intros ?]
    | match goal with
      | |- keeps _ (if ?b then _ else _) => destruct b
      | |- keeps _ (match ?x with _ => _ end) => destruct x
      end ].
Qed.

(** The log of one turn of the loop: a clock reading, the capture, a
    clock reading, the probes of the discovery, the reading of the change
    time when the capture differs from the one seen last, and then either
    the readings of the timeout tests and the sleep, or - when the turn
    ends the loop by the no-change timeout - the one reading of its
    test. *)
Lemma poll_iteration_log command action v st r st' :
  poll_iteration command action v st = (Ok r, st') ->
  exists a stdout b disc v1 changed,
    Forall is_probe disc
    /\ ((pane_text stdout = last_pane_output v /\ v1 = v /\ changed = [])
        \/ (pane_text stdout <> last_pane_output v
            /\ exists t,
                 v1 = mkPollVars (start_time v) t (pane_text stdout)
                 /\ changed = [EffTime t]))
    /\ let front :=
         (effects st
          ++ EffTime a :: EffCapturePane stdout :: EffTime b :: disc ++ changed)%list in
       match r with
       | inr v' =>
           v' = v1 /\ self st' = self st
           /\ exists readings,
                Forall is_reading readings
                /\ effects st' = (front ++ readings ++ [EffSleep 500])%list
       | inl obs =>
           prev_status (self st') <> Some (Some NO_CHANGE_TIMEOUT)
           \/ exists t1 st0,
                blocking action = false
                /\ (NO_CHANGE_TIMEOUT_SECONDS (self st)
                    <= t1 - last_change_time v1)%Z
                /\ effects st' = (front ++ [EffTime t1])%list
                /\ _handle_nochange_timeout_command command (pane_text stdout)
                     (matches_ps1_metadata (pane_text stdout)) st0
                   = (Ok obs, st')
       end.
Proof.
  unfold poll_iteration. intros H.
  bind_inv H t0 st1 H1. apply now_ok in H1.
  bind_inv H cur st2 H2. apply pane_content_ok in H2 as [Hcur Hst2].
  bind_inv H tb st3 H3. apply now_ok in H3.
  bind_inv H u st4 H4.
  pose proof (keeps_observes_discovery_logged _ _ _ H4) as [Hself4 _].
  apply keeps_probes_discovery_logged in H4 as (disc & Hdisc & Hprobe).
  bind_inv H v1 st5 H5.
  set (stdout := capture_pane_stdout W (tick st1)) in *.
  assert (Hfront : exists changed,
             ((cur = last_pane_output v /\ v1 = v /\ changed = [])
              \/ (cur <> last_pane_output v
                  /\ exists t, v1 = mkPollVars (start_time v) t cur
                               /\ changed = [EffTime t]))
             /\ self st5 = self st
             /\ effects st5
                = (effects st
                   ++ EffTime t0 :: EffCapturePane stdout :: EffTime tb
                      :: disc ++ changed)%list).
  { assert (E4 : effects st4
                 = (effects st ++ EffTime t0 :: EffCapturePane stdout
                      :: EffTime tb :: disc)%list).
    { rewrite Hdisc, H3, Hst2, H1. cbn. now rewrite <- !app_assoc. }
    assert (S4 : self st4 = self st)
      by (rewrite Hself4, H3, Hst2, H1; reflexivity).
    destruct (String.eqb_spec cur (last_pane_output v)) as [E|E];
      cbn [negb] in H5.
    - inversion H5; subst v1 st5. exists []. split; [left; auto|].
      split; [exact S4|]. now rewrite app_nil_r.
    - bind_inv H5 t st6 H6. apply now_ok in H6. inversion H5; subst v1 st5.
      exists [EffTime t]. split; [right; split; [exact E|]; now exists t|].
      split; [rewrite H6; exact S4|].
      rewrite H6. cbn. rewrite E4. rewrite <- !app_assoc. reflexivity. }
  destruct Hfront as (changed & Hchange & Hself5 & E5).
  exists t0, stdout, tb, disc, v1, changed.
  split; [exact Hprobe|]. rewrite <- Hcur. split; [exact Hchange|].
  cbv zeta. rewrite <- E5. clear H1 Hst2 H3 Hdisc Hself4.
  destruct (endswith (rstrip cur) (rstrip CMD_OUTPUT_PS1_END)).
  - bind_inv H o st6 H6. inversion H; subst r st'; clear H.
    left. apply completed_leaves_reset in H6 as (Hs & _). rewrite Hs. discriminate.
  - bind_inv H t st6 H6. apply now_ok in H6.
    bind_inv H me st7 H7. inversion H7; subst me st7; clear H7.
    assert (Hself6 : self st6 = self st) by (rewrite H6; exact Hself5).
    destruct (negb (blocking action)
              && (NO_CHANGE_TIMEOUT_SECONDS (self st6)
                  <=? t - last_change_time v1)%Z) eqn:Hquiet.
    + bind_inv H o st8 H8. inversion H; subst r st'; clear H.
      right. exists t, st6.
      apply andb_prop in Hquiet as [Hb Hle].
      split; [now destruct (blocking action)|].
      split; [rewrite <- Hself6; now apply Z.leb_le|].
      split; [|exact H8].
      apply handle_nochange_ok in H8 as (p & md & _ & _ & _ & ->).
      cbn. rewrite H6. reflexivity.
    + bind_inv H t2 st8 H8. apply now_ok in H8.
      bind_inv H timed_out st9 H9.
      assert (Hhard : self st9 = self st
                      /\ exists more,
                           Forall is_reading more
                           /\ effects st9 = (effects st8 ++ more)%list).
      { assert (S8 : self st8 = self st) by (rewrite H8; exact Hself6).
        destruct (timeout_set (timeout action)).
        - bind_inv H9 t3 st10 H10. apply now_ok in H10.
          injection H9 as _ Est. subst st9 st10.
          split; [exact S8|].
          exists [EffTime t3]. split; [repeat constructor | reflexivity].
        - injection H9 as _ Est. subst st9. split; [exact S8|].
          exists []. split; [constructor | now rewrite app_nil_r]. }
      destruct Hhard as (Hself9 & more & Hmore & E9).
      destruct timed_out as [limit|].
      * bind_inv H o st10 H10. inversion H; subst r st'; clear H.
        left. apply handle_hard_ok in H10 as (p & md & _ & _ & _ & ->).
        cbn. discriminate.
      * bind_inv H u1 st10 H10. inversion H; subst r st'; clear H.
        unfold time_sleep, tell in H10. rewrite external_run in H10.
        inversion H10; subst st10. cbn.
        split; [reflexivity|]. split; [exact Hself9|].
        exists (EffTime t :: EffTime t2 :: more).
        split; [repeat constructor; exact Hmore|].
        rewrite E9, H8, H6. cbn. rewrite <- !app_assoc. reflexivity.
Qed.

Lemma seen_at_reading_grows cur before after more :
  seen_at_reading cur before after ->
  seen_at_reading cur before (after ++ more).
Proof.
  unfold seen_at_reading. destruct before; [|auto].
  intros (stdout & rest & -> & E). now exists stdout, (rest ++ more)%list.
Qed.

Lemma seen_after_turn cur es last go a stdout b disc :
  ends_turn last -> Forall is_probe disc -> pane_text stdout = cur ->
  forall after,
    seen_at_reading cur
      ((es ++ [last])
         ++ EffShouldContinue go :: EffTime a :: EffCapturePane stdout
            :: EffTime b :: disc)
      after.
Proof.
  intros Hlast Hdisc Hcur after. unfold seen_at_reading.
  destruct ((es ++ [last]) ++ _)%list eqn:E.
  - apply app_eq_nil in E as [_ E]. discriminate E.
  - rewrite <- E. exists (turn_captures (es ++ [last])).
    rewrite (turn_captures_app _ _ _ Hlast). f_equal.
    rewrite turn_captures_turn; [now rewrite Hcur|].
    constructor; [exact I|].
    eapply Forall_impl; [apply probe_no_turn | exact Hdisc].
Qed.

Lemma quiet_after_turn cur quiet last go a stdout tail :
  ends_turn last -> Forall no_turn tail -> pane_text stdout = cur ->
  Forall (eq cur) (turn_captures (quiet ++ [last])) ->
  Forall (eq cur)
    (turn_captures
       ((quiet ++ [last])
          ++ EffShouldContinue go :: EffTime a :: EffCapturePane stdout :: tail)).
Proof.
  intros Hlast Htail Hcur Hq.
  rewrite (turn_captures_app _ _ _ Hlast). apply Forall_app. split; [exact Hq|].
  rewrite (turn_captures_turn _ _ _ _ Htail). now repeat constructor.
Qed.

(** The loop, from a moment between two turns on. *)
Lemma poll_loop_quiet fuel command action base :
  forall v st es obs st',
    effects st = (effects base ++ es)%list ->
    self st = self base ->
    watching v es ->
    poll_loop fuel command action v st = (Ok obs, st') ->
    prev_status (self st') = Some (Some NO_CHANGE_TIMEOUT) ->
    blocking action = false
    /\ exists cur t0 t1 st0 es',
         effects st' = (effects base ++ es')%list
         /\ quiet_between cur t0 t1 es'
         /\ (NO_CHANGE_TIMEOUT_SECONDS (self base) <= t1 - t0)%Z
         /\ _handle_nochange_timeout_command command cur
              (matches_ps1_metadata cur) st0
            = (Ok obs, st').
Proof.
  induction fuel as [|fuel IH]; intros v st es obs st' Hes Hself Hw H Hstatus;
    cbn [poll_loop] in H; [discriminate H|].
  bind_inv H go st1 H1. rewrite external_run in H1.
  inversion H1; subst go st1; clear H1.
  destruct (should_continue W (tick st)) eqn:Hgo; [|discriminate H].
  bind_inv H r st2 H2.
  apply poll_iteration_log in H2
    as (a & stdout & b & disc & v1 & changed & Hdisc & Hchange & Hlog).
  cbv zeta in Hlog. cbn [after_call effects self] in Hlog.
  rewrite Hes in Hlog.
  destruct Hw as (before & quiet & last & Ees & Hlast & Hseen & Hquiet).
  assert (Hnt : Forall no_turn disc)
    by (eapply Forall_impl; [apply probe_no_turn | exact Hdisc]).
  destruct r as [o|v'].
  - inversion H; subst o st2; clear H.
    destruct Hlog as [Hno|(t1 & st0 & Hb & Hle & Heff & Hh)];
      [now elim Hno|].
    split; [exact Hb|].
    rewrite Hself in Hle.
    destruct Hchange as [(Hcur & -> & ->)|(Hne & t & -> & ->)].
    + exists (pane_text stdout), (last_change_time v), t1, st0.
      eexists. split; [rewrite Heff; rewrite <- !app_assoc; reflexivity|].
      split; [|split; [exact Hle | exact Hh]].
      exists before,
        ((quiet ++ [last])
           ++ EffShouldContinue true :: EffTime a :: EffCapturePane stdout
              :: EffTime b :: disc)%list.
      split.
      { rewrite Ees. rewrite app_nil_r. cbn. rewrite <- !app_assoc. cbn.
        rewrite <- !app_assoc. reflexivity. }
      rewrite Hcur.
      split; [now apply seen_at_reading_grows|].
      apply quiet_after_turn; auto. constructor; [exact I | exact Hnt].
    + exists (pane_text stdout), t, t1, st0.
      eexists. split; [rewrite Heff; rewrite <- !app_assoc; reflexivity|].
      split; [|split; [exact Hle | exact Hh]].
      exists (es ++ EffShouldContinue true :: EffTime a :: EffCapturePane stdout
                :: EffTime b :: disc)%list, [].
      split; [cbn; rewrite <- !app_assoc; reflexivity|].
      split; [|constructor].
      rewrite Ees.
      replace (before ++ EffTime (last_change_time v) :: quiet ++ [last])%list
        with ((before ++ EffTime (last_change_time v) :: quiet) ++ [last])%list
        by (rewrite <- app_assoc; reflexivity).
      now apply seen_after_turn.
  - destruct Hlog as (-> & Hself2 & readings & Hread & Heff).
    assert (Hrt : Forall no_turn readings)
      by (eapply Forall_impl; [apply reading_no_turn | exact Hread]).
    eapply (IH v1 st2 _ obs st'); [| | | exact H | exact Hstatus].
    + rewrite Heff. rewrite <- !app_assoc. reflexivity.
    + now rewrite Hself2.
    + destruct Hchange as [(Hcur & -> & ->)|(Hne & t & -> & ->)].
      * exists before,
          ((quiet ++ [last])
             ++ EffShouldContinue true :: EffTime a :: EffCapturePane stdout
                :: EffTime b :: disc ++ readings)%list,
          (EffSleep 500).
        split.
        { rewrite Ees. cbn. rewrite <- !app_assoc. cbn.
          rewrite <- !app_assoc. reflexivity. }
        split; [exact I|].
        rewrite <- Hcur.
        replace ((((quiet ++ [last])
                     ++ EffShouldContinue true :: EffTime a
                        :: EffCapturePane stdout :: EffTime b
                        :: disc ++ readings) ++ [EffSleep 500])%list)
          with ((quiet ++ [last])
                  ++ EffShouldContinue true :: EffTime a
                     :: EffCapturePane stdout
                     :: (EffTime b :: disc ++ readings ++ [EffSleep 500]))%list
          by (rewrite <- !app_assoc; cbn; rewrite <- !app_assoc; reflexivity).
        split; [apply seen_at_reading_grows; now rewrite Hcur|].
        apply quiet_after_turn; auto; [|now rewrite Hcur].
        constructor; [exact I|]. apply Forall_app. split; [exact Hnt|].
        apply Forall_app. split; [exact Hrt | now repeat constructor].
      * exists (es ++ EffShouldContinue true :: EffTime a
                  :: EffCapturePane stdout :: EffTime b :: disc)%list,
          readings, (EffSleep 500).
        cbn [last_change_time last_pane_output].
        split; [cbn; rewrite <- !app_assoc; reflexivity|].
        split; [exact I|].
        split.
        { rewrite Ees.
          replace (before ++ EffTime (last_change_time v) :: quiet ++ [last])%list
            with ((before ++ EffTime (last_change_time v) :: quiet) ++ [last])%list
            by (rewrite <- app_assoc; reflexivity).
          now apply seen_after_turn. }
        rewrite turn_captures_none; [constructor|].
        apply Forall_app. split; [exact Hrt | now repeat constructor].
Qed.

Lemma poll_quiet fuel command action st obs st' :
  _poll_for_command_completion fuel command action st = (Ok obs, st') ->
  prev_status (self st') = Some (Some NO_CHANGE_TIMEOUT) ->
  blocking action = false
  /\ exists cur t0 t1 st0 es,
       effects st' = (effects st ++ es)%list
       /\ quiet_between cur t0 t1 es
       /\ (NO_CHANGE_TIMEOUT_SECONDS (self st) <= t1 - t0)%Z
       /\ _handle_nochange_timeout_command command cur
            (matches_ps1_metadata cur) st0
          = (Ok obs, st').
Proof.
  unfold _poll_for_command_completion. intros H Hstatus.
  bind_inv H t0 st1 H1. apply now_ok in H1.
  bind_inv H cur st2 H2. apply pane_content_ok in H2 as [Hcur Hst2].
  eapply (poll_loop_quiet fuel command action st _ st2
            [EffTime t0; EffCapturePane (capture_pane_stdout W (tick st1))]);
    [ | | | exact H | exact Hstatus].
  - rewrite Hst2, H1. cbn. now rewrite <- app_assoc.
  - rewrite Hst2, H1. reflexivity.
  - exists [], [], (EffCapturePane (capture_pane_stdout W (tick st1))).
    cbn. split; [reflexivity|]. split; [exact I|].
    split; [|constructor].
    eexists. eexists. split; [reflexivity|]. now rewrite Hcur.
Qed.

(** C9.  When the polling loop returns an observation for a blocking
    action, the observation was built by the completed handler or by the
    hard-timeout handler, and the status is not [NO_CHANGE_TIMEOUT].  When
    it returns with status [NO_CHANGE_TIMEOUT], the action is not blocking,
    the observation was built by the no-change handler on a pane content
    [cur], and the log of the call shows that content unchanged for
    [NO_CHANGE_TIMEOUT_SECONDS] at least: two clock readings of the call,
    [t0] and the last one [t1], are that far apart; [cur] was seen at [t0]
    (it is the first reading of the call, followed by the first capture,
    which shows [cur]; or the last turn before it captured [cur]); and
    every turn of the loop between the two readings captured [cur]. *)
Theorem no_change_timeout_only_when_not_blocking
    fuel command action st obs st' :
  _poll_for_command_completion fuel command action st = (Ok obs, st') ->
  (blocking action = true ->
   prev_status (self st') <> Some (Some NO_CHANGE_TIMEOUT)
   /\ ((exists st0 cur,
          _handle_completed_command command cur (matches_ps1_metadata cur) st0
          = (Ok obs, st'))
       \/ (exists st0 cur limit,
             timeout action = Some limit
             /\ _handle_hard_timeout_command command cur
                  (matches_ps1_metadata cur) limit st0
                = (Ok obs, st'))))
  /\ (prev_status (self st') = Some (Some NO_CHANGE_TIMEOUT) ->
      blocking action = false
      /\ exists cur t0 t1 st0 es,
           effects st' = (effects st ++ es)%list
           /\ quiet_between cur t0 t1 es
           /\ (NO_CHANGE_TIMEOUT_SECONDS (self st) <= t1 - t0)%Z
           /\ _handle_nochange_timeout_command command cur
                (matches_ps1_metadata cur) st0
              = (Ok obs, st')).
Proof.
  intros H. split; [|intros Hstatus; exact (poll_quiet _ _ _ _ _ _ H Hstatus)].
  apply poll_for_completion_exit in H
    as (t0 & pane0 & v1 & st1 & Hreach & [Hself _] & Hlog & Hexit).
  destruct Hexit as [st0 cur v' _ _ _ Hh
                    | st0 cur v' t _ Hstep Hlog' _ Hb Hle Hin Hh
                    | st0 cur v' t limit _ _ _ Hto _ _ Hh].
  - pose proof (completed_leaves_reset _ _ _ _ _ _ Hh) as (Hs & _ & _).
    intros _. split; [rewrite Hs; discriminate|]. left. now exists st0, cur.
  - intros Hblock; congruence.
  - pose proof (handle_hard_ok _ _ _ _ _ _ _ Hh) as (p & md & _ & _ & _ & Hst).
    assert (Hs : prev_status (self st') = Some (Some HARD_TIMEOUT))
      by (rewrite Hst; reflexivity).
    intros _. split; [rewrite Hs; discriminate|].
    right. now exists st0, cur, limit.
Qed.

(** ** The escaper *)

Lemma escape_sub_cons (c d : ascii) (s : string) :
  escape_sub (String c (String d s))
  = if Ascii.eqb c backslash && is_meta d
    then String backslash (String backslash (String d (escape_sub s)))
    else String c (escape_sub (String d s)).
Proof. reflexivity. Qed.

Lemma escape_free_cons (c d : ascii) (s : string) :
  escape_free (String c (String d s))
  = negb (Ascii.eqb c backslash && is_meta d) && escape_free (String d s).
Proof. reflexivity. Qed.

Lemma escape_sub_free (s : string) : escape_free s = true -> escape_sub s = s.
Proof.
  induction s as [|c s IH]; [reflexivity|].
  destruct s as [|d s']; [reflexivity|].
  rewrite escape_sub_cons, escape_free_cons.
  destruct (Ascii.eqb c backslash && is_meta d); cbn [negb andb];
    [discriminate|].
  intros H. now rewrite (IH H).
Qed.

Lemma take_take_drop (a n : nat) (s : string) :
  take a s ++ take n (drop a s) = take (a + n) s.
Proof.
  revert s; induction a as [|a IH]; intros s.
  - reflexivity.
  - destruct s as [|c s]; cbn [take drop append Nat.add].
    + now destruct n.
    + now rewrite IH.
Qed.

Lemma take_slice (a b : nat) (s : string) :
  a <= b -> take a s ++ slice a b s = take b s.
Proof.
  intros H. unfold slice. rewrite take_take_drop. f_equal. lia.
Qed.

Lemma join_snoc (l : list string) (x : string) :
  join "" (l ++ [x])%list = join "" l ++ x.
Proof.
  unfold join. induction l as [|y l IH]; [reflexivity|].
  destruct l as [|z l].
  - cbn. reflexivity.
  - change (String.concat "" ((y :: z :: l) ++ [x])%list)
      with (y ++ "" ++ String.concat "" ((z :: l) ++ [x])%list).
    rewrite IH. cbn [String.concat append]. now rewrite append_assoc.
Qed.

Lemma node_nested_ind (P : node -> Prop) :
  (forall kind pos heredoc children,
      Forall P children -> P (Node kind pos heredoc children)) ->
  forall n, P n.
Proof.
  intros H. fix IH 1. intros [kind pos heredoc children].
  apply H. induction children as [|c cs IHcs]; constructor.
  - apply IH.
  - exact IHcs.
Qed.

Lemma tidy_children_none command (children : list node) :
  fold_left (fun acc part =>
               match acc with
               | Some c => tidy_node command part c
               | None => None
               end) children None = None.
Proof. induction children; cbn; auto. Qed.

Lemma visit_children_tidy command (children : list node) :
  Forall (fun n =>
            forall cur cur' parts,
              tidy_node command n cur = Some cur' ->
              emitted_upto command (parts, cur) ->
              exists parts',
                visit_node command n (parts, cur) = (parts', cur')
                /\ emitted_upto command (parts', cur')) children ->
  forall cur cur' parts,
    fold_left (fun acc part =>
                 match acc with
                 | Some c => tidy_node command part c
                 | None => None
                 end) children (Some cur) = Some cur' ->
    emitted_upto command (parts, cur) ->
    exists parts',
      fold_left (fun acc part => visit_node command part acc) children (parts, cur)
      = (parts', cur')
      /\ emitted_upto command (parts', cur').
Proof.
  induction 1 as [|n rest Hn _ IH]; intros cur cur' parts Ht He; cbn [fold_left] in *.
  - inversion Ht; subst. now exists parts.
  - destruct (tidy_node command n cur) as [c1|] eqn:E1.
    + destruct (Hn _ _ _ E1 He) as (parts1 & Hv & He1).
      rewrite Hv. now apply IH.
    + rewrite tidy_children_none in Ht. discriminate.
Qed.

Lemma visit_node_tidy command :
  forall n cur cur' parts,
    tidy_node command n cur = Some cur' ->
    emitted_upto command (parts, cur) ->
    exists parts',
      visit_node command n (parts, cur) = (parts', cur')
      /\ emitted_upto command (parts', cur').
Proof.
  induction n as [kind [start stop] heredoc children IH] using node_nested_ind.
  intros cur cur' parts Ht He. unfold emitted_upto in *. cbn [fst snd] in *.
  cbn [tidy_node visit_node] in *.
  destruct (if String.eqb kind "redirect" then heredoc else None)
    as [[hstart hstop]|].
  - destruct (_ && _)%bool eqn:Hc in Ht; [|discriminate].
    inversion Ht; subst cur'; clear Ht.
    apply andb_prop in Hc as [Hc H4]. apply andb_prop in Hc as [Hc H3].
    apply andb_prop in Hc as [H1 H2].
    apply Nat.leb_le in H1, H2, H3. apply Nat.eqb_eq in H4. subst hstop.
    eexists. split; [reflexivity|]. cbn [fst snd].
    rewrite !join_snoc, He, !take_slice by lia. reflexivity.
  - destruct (String.eqb kind "word").
    + destruct (_ && _)%bool eqn:Hc in Ht; [|discriminate].
      inversion Ht; subst cur'; clear Ht.
      apply andb_prop in Hc as [Hc H4]. apply andb_prop in Hc as [Hc H3].
      apply andb_prop in Hc as [H1 H2]. apply Nat.leb_le in H1, H2.
      destruct (is_quoted_word (slice start stop command)) eqn:Hq.
      * eexists. split; [reflexivity|]. cbn [fst snd].
        rewrite !join_snoc, He, (escape_sub_free _ H3), !take_slice by lia.
        reflexivity.
      * cbn [orb] in H4.
        eexists. split; [reflexivity|]. cbn [fst snd].
        rewrite !join_snoc, He, (escape_sub_free _ H3), (escape_sub_free _ H4),
          !take_slice by lia.
        reflexivity.
    + apply (visit_children_tidy command children IH cur cur' parts Ht He).
Qed.

Lemma tidy_from_none command (nodes : list node) :
  fold_left
    (fun acc n =>
       match acc with
       | Some c =>
           if (c <=? fst (n_pos n))%nat
              && escape_free (slice c (fst (n_pos n)) command)
           then tidy_node command n (fst (n_pos n))
           else None
       | None => None
       end) nodes None = None.
Proof. induction nodes; cbn; auto. Qed.

Lemma visit_top_tidy command (nodes : list node) :
  forall cur cur' parts,
    tidy_from command nodes cur = Some cur' ->
    emitted_upto command (parts, cur) ->
    exists parts',
      fold_left (visit_top_node command) nodes (parts, cur) = (parts', cur')
      /\ emitted_upto command (parts', cur').
Proof.
  unfold tidy_from.
  induction nodes as [|n rest IH]; intros cur cur' parts Ht He; cbn [fold_left] in *.
  - inversion Ht; subst. now exists parts.
  - unfold visit_top_node at 2.
    destruct ((cur <=? fst (n_pos n))%nat
              && escape_free (slice cur (fst (n_pos n)) command)) eqn:Hc.
    + apply andb_prop in Hc as [H1 H2]. apply Nat.leb_le in H1.
      destruct (tidy_node command n (fst (n_pos n))) as [c1|] eqn:E1.
      * assert (He1 : emitted_upto command
                        ((parts ++ [escape_sub (slice cur (fst (n_pos n)) command)])%list,
                         fst (n_pos n))).
        { unfold emitted_upto in *. cbn [fst snd] in *.
          now rewrite join_snoc, He, (escape_sub_free _ H2), take_slice. }
        destruct (visit_node_tidy command n _ _ _ E1 He1) as (parts1 & Hv & He2).
        rewrite Hv. now apply IH.
      * rewrite tidy_from_none in Ht. discriminate.
    + rewrite tidy_from_none in Ht. discriminate.
Qed.

Lemma escape_blank command :
  strip command = "" -> escape_bash_special_chars command = "".
Proof. unfold escape_bash_special_chars. now intros ->. Qed.

(** C8 (as amended).  The escaper returns the empty string for every
    input that is only white space, the empty input included.  It gives
    back an input that is not only white space when the parser rejects it,
    and also when the parse tree is tidy: the words and heredoc redirects
    come in document order, each heredoc redirect ends with its heredoc,
    and no backslash is followed by one of [;&|><] in the text the escaper
    rewrites (the text before each word and the words that are neither
    quoted strings nor command substitutions). *)
Theorem escape_identity command :
  (strip command <> "" ->
   match bashlex_parse command with
   | None => True
   | Some nodes => tidy command nodes = true
   end) ->
  escape_bash_special_chars command
  = if nonempty (strip command) then command else "".
Proof.
  intros Hparse.
  unfold escape_bash_special_chars.
  destruct (String.eqb_spec (strip command) "") as [E|Hne];
    [now rewrite E|].
  specialize (Hparse Hne).
  replace (nonempty (strip command)) with true
    by (destruct (strip command); [now elim Hne | reflexivity]).
  destruct (bashlex_parse command) as [nodes|]; [|reflexivity].
  unfold tidy in Hparse.
  destruct (tidy_from command nodes 0) as [cur'|] eqn:Ht; [|discriminate].
  destruct (visit_top_tidy command nodes 0 cur' [] Ht eq_refl)
    as (parts' & Hv & He).
  rewrite Hv. unfold emitted_upto in He. cbn [fst snd] in He.
  now rewrite join_snoc, He, take_drop.
Qed.

(** ** The splitter *)

Lemma rstrip_cons (c : ascii) (s : string) :
  rstrip (String c s)
  = match rstrip s with
    | EmptyString => if is_space c then EmptyString else String c EmptyString
    | r => String c r
    end.
Proof. reflexivity. Qed.

Lemma rstrip_idem (s : string) : rstrip (rstrip s) = rstrip s.
Proof.
  induction s as [|c s IH]; [reflexivity|].
  rewrite rstrip_cons. destruct (rstrip s) as [|d r] eqn:E.
  - destruct (is_space c) eqn:Hc; [reflexivity|].
    rewrite rstrip_cons. cbn [rstrip]. now rewrite Hc.
  - rewrite rstrip_cons, IH. reflexivity.
Qed.

Lemma append_nil_inv (x r : string) : x ++ r = "" -> r = "".
Proof. destruct x; [auto | discriminate]. Qed.

Lemma rstrip_app_keep (x r : string) :
  r <> "" -> rstrip r = r -> rstrip (x ++ r) = x ++ r.
Proof.
  intros Hne Hr. induction x as [|c x IH]; [exact Hr|].
  cbn [append]. rewrite rstrip_cons, IH.
  destruct (x ++ r) eqn:E; [|reflexivity].
  now apply append_nil_inv in E.
Qed.

Lemma rstrip_app_rstrip (x b : string) :
  rstrip x = x -> rstrip (x ++ rstrip b) = x ++ rstrip b.
Proof.
  intros Hx. destruct (rstrip b) as [|d r] eqn:E.
  - now rewrite append_empty_r.
  - apply rstrip_app_keep; [discriminate|]. rewrite <- E. apply rstrip_idem.
Qed.

Lemma lstrip_idem (s : string) : lstrip (lstrip s) = lstrip s.
Proof.
  induction s as [|c s IH]; [reflexivity|]. cbn [lstrip].
  destruct (is_space c) eqn:Hc; [exact IH|]. cbn [lstrip]. now rewrite Hc.
Qed.

Lemma without_space_app (a b : string) :
  without_space (a ++ b) = without_space a ++ without_space b.
Proof.
  induction a as [|c a IH]; [reflexivity|]. cbn [append without_space].
  destruct (is_space c); [exact IH | cbn [append]; now rewrite IH].
Qed.

Lemma without_space_rstrip (s : string) :
  without_space (rstrip s) = without_space s.
Proof.
  induction s as [|c s IH]; [reflexivity|].
  rewrite rstrip_cons. cbn [without_space]. rewrite <- IH.
  destruct (rstrip s) as [|d r].
  - destruct (is_space c) eqn:Hc; cbn [without_space]; now rewrite ?Hc.
  - cbn [without_space]. reflexivity.
Qed.

Lemma without_space_lstrip (s : string) :
  without_space (lstrip s) = without_space s.
Proof.
  induction s as [|c s IH]; [reflexivity|]. cbn [lstrip without_space].
  destruct (is_space c) eqn:Hc; [exact IH|]. cbn [without_space]. now rewrite Hc.
Qed.

Lemma without_space_blank (s : string) :
  nonempty (strip s) = false -> without_space s = "".
Proof.
  intros H. rewrite <- without_space_rstrip, <- without_space_lstrip.
  fold (strip s). now destruct (strip s).
Qed.

Lemma take_all (n : nat) (s : string) : String.length s <= n -> take n s = s.
Proof.
  revert n; induction s as [|c s IH]; intros [|n] H; cbn in *;
    try reflexivity; [lia|]. rewrite IH by lia. reflexivity.
Qed.

Lemma append_to_last_snoc (l : list string) (x t : string) :
  append_to_last (l ++ [x])%list t = (l ++ [(x ++ t)%string])%list.
Proof.
  induction l as [|y l IH]; [reflexivity|].
  cbn [app append_to_last]. rewrite IH.
  destruct (l ++ [x])%list eqn:E; [|reflexivity].
  now destruct l.
Qed.

Lemma nonnil_snoc {A} (l : list A) :
  l <> [] -> exists front x, l = (front ++ [x])%list.
Proof.
  intros H. destruct (exists_last H) as (front & x & ->). eauto.
Qed.

Lemma split_unfold (commands : string) :
  split_bash_commands commands
  = if negb (nonempty (strip commands)) then [""]
    else
      match bashlex_parse commands with
      | None => [commands]
      | Some parsed =>
          let '(result, last_end) :=
            fold_left (split_step commands) parsed ([], 0) in
          let remaining := rstrip (drop last_end commands) in
          if (last_end <? String.length commands)%nat && negb (is_nil result)
          then append_to_last result remaining
          else if (last_end <? String.length commands)%nat
          then (if nonempty remaining then (result ++ [remaining])%list else result)
          else result
      end.
Proof. reflexivity. Qed.

(** What one turn of the loop does to a list of pieces that is not
    empty: text between the nodes goes to the end of the last piece, and
    the node is a new piece. *)
Lemma split_step_snoc commands front x last_end n :
  split_step commands ((front ++ [x])%list, last_end) n
  = ((front
        ++ [if (last_end <? fst (n_pos n))%nat
            then (x ++ rstrip (slice last_end (fst (n_pos n)) commands))%string
            else x]
        ++ [rstrip (slice (fst (n_pos n)) (snd (n_pos n)) commands)])%list,
     snd (n_pos n)).
Proof.
  unfold split_step. destruct (n_pos n) as [start stop]. cbn [fst snd].
  destruct (last_end <? start)%nat.
  - assert (Hn : is_nil (front ++ [x])%list = false) by now destruct front.
    rewrite Hn. cbn [negb]. rewrite append_to_last_snoc, <- app_assoc. reflexivity.
  - now rewrite <- app_assoc.
Qed.

(** The first turn, on no piece at all. *)
Lemma split_step_first commands n :
  split_step commands ([], 0) n
  = (((if nonempty (strip (take (fst (n_pos n)) commands))
       then [rstrip (take (fst (n_pos n)) commands)] else [])
        ++ [rstrip (slice (fst (n_pos n)) (snd (n_pos n)) commands)])%list,
     snd (n_pos n)).
Proof.
  unfold split_step. destruct (n_pos n) as [start stop]. cbn [fst snd is_nil negb].
  destruct start as [|start].
  - cbn. reflexivity.
  - cbn [Nat.ltb Nat.leb]. unfold slice. rewrite Nat.sub_0_r. cbn [drop].
    destruct (nonempty _); reflexivity.
Qed.

(** The loop on a list of pieces that is not empty: one more piece for
    each node, all without white space at their end, and the text of the
    pieces is the text up to the end of the last node. *)
Lemma split_fold_snoc commands (nodes : list node) :
  forall front x last_end,
    exists front' x' last_end',
      fold_left (split_step commands) nodes ((front ++ [x])%list, last_end)
      = ((front' ++ [x'])%list, last_end')
      /\ List.length (front' ++ [x'])%list
         = List.length (front ++ [x])%list + List.length nodes
      /\ (Forall (fun p => rstrip p = p) (front ++ [x])%list ->
          Forall (fun p => rstrip p = p) (front' ++ [x'])%list)
      /\ (nodes_in_order last_end nodes = true ->
          without_space (String.concat "" (front ++ [x])%list)
          = without_space (take last_end commands) ->
          without_space (String.concat "" (front' ++ [x'])%list)
          = without_space (take last_end' commands)).
Proof.
  induction nodes as [|n rest IH]; intros front x last_end; cbn [fold_left].
  - exists front, x, last_end. repeat split; auto; cbn; lia.
  - rewrite split_step_snoc.
    rewrite app_assoc.
    destruct (IH (front ++ [if (last_end <? fst (n_pos n))%nat
                            then (x ++ rstrip (slice last_end (fst (n_pos n)) commands))%string
                            else x])%list
                 (rstrip (slice (fst (n_pos n)) (snd (n_pos n)) commands))
                 (snd (n_pos n)))
      as (front' & x' & last_end' & Hfold & Hlen & Hall & Htext).
    exists front', x', last_end'. split; [exact Hfold|].
    split; [|split].
    + rewrite Hlen. rewrite !length_app. cbn. lia.
    + intros Hf. apply Hall. apply Forall_app in Hf as [Hf Hx].
      inversion Hx as [|? ? Hx1 _]; subst.
      apply Forall_app. split; [apply Forall_app; split; [exact Hf|]|].
      * constructor; [|constructor].
        destruct (last_end <? fst (n_pos n))%nat; [|exact Hx1].
        now apply rstrip_app_rstrip.
      * constructor; [apply rstrip_idem | constructor].
    + cbn [nodes_in_order]. intros Hord Hpre.
      apply andb_prop in Hord as [Hord Hrest]. apply andb_prop in Hord as [H1 H2].
      apply Nat.leb_le in H1, H2.
      apply Htext; [exact Hrest|].
      change (String.concat "" ?l) with (join "" l) in *.
      rewrite join_snoc, without_space_app in Hpre.
      rewrite !join_snoc, !without_space_app, without_space_rstrip.
      rewrite <- (take_slice (fst (n_pos n)) (snd (n_pos n)) commands H2).
      rewrite (without_space_app (take _ _)). f_equal.
      rewrite <- (take_slice last_end (fst (n_pos n)) commands H1).
      rewrite (without_space_app (take _ _)), <- Hpre.
      destruct (Nat.ltb_spec last_end (fst (n_pos n))) as [Hlt|Hge].
      * now rewrite without_space_app, without_space_rstrip, append_assoc.
      * assert (fst (n_pos n) = last_end) as -> by lia.
        unfold slice. rewrite Nat.sub_diag. cbn [take without_space].
        now rewrite append_empty_r.
Qed.

(** The loop as a whole on a parse that holds a node. *)
Lemma split_fold_first commands (first : node) (rest : list node) :
  exists front x last_end,
    fold_left (split_step commands) (first :: rest) ([], 0)
    = ((front ++ [x])%list, last_end)
    /\ List.length (front ++ [x])%list
       = List.length (first :: rest)
         + (if nonempty (strip (take (fst (n_pos first)) commands)) then 1 else 0)
    /\ Forall (fun p => rstrip p = p) (front ++ [x])%list
    /\ (nodes_in_order 0 (first :: rest) = true ->
        without_space (String.concat "" (front ++ [x])%list)
        = without_space (take last_end commands)).
Proof.
  cbn [fold_left]. rewrite split_step_first.
  set (lead := take (fst (n_pos first)) commands).
  set (pre := if nonempty (strip lead) then [rstrip lead] else []).
  destruct (split_fold_snoc commands rest pre
              (rstrip (slice (fst (n_pos first)) (snd (n_pos first)) commands))
              (snd (n_pos first)))
    as (front & x & last_end & Hfold & Hlen & Hall & Htext).
  exists front, x, last_end. split; [exact Hfold|]. split; [|split].
  - rewrite Hlen, length_app. subst pre. cbn [List.length].
    destruct (nonempty (strip lead)); cbn [List.length]; lia.
  - apply Hall. apply Forall_app. split.
    + subst pre. destruct (nonempty (strip lead)); repeat constructor.
      apply rstrip_idem.
    + repeat constructor. apply rstrip_idem.
  - cbn [nodes_in_order]. intros Hord.
    apply andb_prop in Hord as [Hord Hrest]. apply andb_prop in Hord as [_ H2].
    apply Nat.leb_le in H2. apply Htext; [exact Hrest|].
    change (String.concat "" ?l) with (join "" l).
    rewrite join_snoc, without_space_app, without_space_rstrip.
    rewrite <- (take_slice (fst (n_pos first)) (snd (n_pos first)) commands H2).
    rewrite (without_space_app (take _ _)). f_equal. fold lead.
    subst pre. destruct (nonempty (strip lead)) eqn:Hlead.
    + cbn. apply without_space_rstrip.
    + cbn. symmetry. now apply without_space_blank.
Qed.

Lemma strip_nonempty (s : string) :
  nonempty (strip s) = true ->
  nonempty (rstrip s) = true /\ 0 < String.length s.
Proof.
  unfold strip. intros H. split.
  - now destruct (rstrip s).
  - destruct s; [discriminate H | cbn; lia].
Qed.

(** The splitter on a parse with no node: the input is the one piece. *)
Lemma split_parsed_nil commands :
  nonempty (strip commands) = true ->
  bashlex_parse commands = Some [] ->
  split_bash_commands commands = [rstrip commands].
Proof.
  intros Hne Hparse. rewrite split_unfold, Hne, Hparse. cbn [negb fold_left].
  destruct (strip_nonempty _ Hne) as [Hr Hlen].
  apply Nat.ltb_lt in Hlen. rewrite Hlen. cbn [is_nil negb andb drop].
  now rewrite Hr.
Qed.

(** The splitter on a parse that holds a node: the pieces of the loop,
    the last one followed by what comes after the last node. *)
Lemma split_parsed commands (first : node) (rest : list node) :
  nonempty (strip commands) = true ->
  bashlex_parse commands = Some (first :: rest) ->
  exists front x last_end,
    fold_left (split_step commands) (first :: rest) ([], 0)
    = ((front ++ [x])%list, last_end)
    /\ split_bash_commands commands
       = (front ++ [if (last_end <? String.length commands)%nat
                    then (x ++ rstrip (drop last_end commands))%string
                    else x])%list.
Proof.
  intros Hne Hparse.
  destruct (split_fold_first commands first rest)
    as (front & x & last_end & Hfold & _).
  exists front, x, last_end. split; [exact Hfold|].
  rewrite split_unfold, Hne, Hparse. cbn [negb]. rewrite Hfold.
  assert (Hn : is_nil (front ++ [x])%list = false) by now destruct front.
  rewrite Hn. cbn [negb].
  destruct (last_end <? String.length commands)%nat; cbn [andb].
  - apply append_to_last_snoc.
  - reflexivity.
Qed.

(** X1.  [split_bash_commands] never returns an empty list.  An input of
    white space gives the one empty piece; an input that the parser
    rejects (with one of the two exceptions that are caught) is its own
    single piece, unchanged; and when the parser returns no node at all
    the single piece is the input without its trailing white space. *)
Theorem split_never_empty (commands : string) :
  split_bash_commands commands <> []
  /\ (strip commands = "" -> split_bash_commands commands = [""])
  /\ (strip commands <> "" -> bashlex_parse commands = None ->
      split_bash_commands commands = [commands])
  /\ (strip commands <> "" -> bashlex_parse commands = Some [] ->
      split_bash_commands commands = [rstrip commands]).
Proof.
  assert (Hne : forall s, s <> "" -> nonempty s = true)
    by (intros [|c s] H; [now elim H | reflexivity]).
  split; [|split; [|split]].
  - destruct (nonempty (strip commands)) eqn:Hn.
    + destruct (bashlex_parse commands) as [[|first rest]|] eqn:Hparse.
      * now rewrite (split_parsed_nil _ Hn Hparse).
      * destruct (split_parsed _ _ _ Hn Hparse) as (front & x & le & _ & ->).
        now destruct front.
      * rewrite split_unfold, Hn, Hparse. discriminate.
    + rewrite split_unfold, Hn. discriminate.
  - intros E. now rewrite split_unfold, E.
  - intros E Hparse. now rewrite split_unfold, (Hne _ E), Hparse.
  - intros E Hparse. exact (split_parsed_nil _ (Hne _ E) Hparse).
Qed.

(** X2.  When the input is not only white space and its parse holds at
    least one top-level node, the splitter returns one piece for each
    top-level node, and one more when text that is not white space comes
    before the first node.  Text between two nodes and text after the last
    node never make a piece of their own. *)
Theorem split_count (commands : string) (first : node) (rest : list node) :
  strip commands <> "" ->
  bashlex_parse commands = Some (first :: rest) ->
  List.length (split_bash_commands commands)
  = List.length (first :: rest)
    + (if nonempty (strip (take (fst (n_pos first)) commands)) then 1 else 0).
Proof.
  intros Hne Hparse.
  assert (Hne' : nonempty (strip commands) = true)
    by (destruct (strip commands); [contradiction | reflexivity]).
  destruct (split_parsed _ _ _ Hne' Hparse) as (front & x & le & Hfold & ->).
  destruct (split_fold_first commands first rest)
    as (front' & x' & le' & Hfold' & Hlen & _).
  rewrite Hfold in Hfold'. inversion Hfold' as [[Hf Hl]].
  rewrite <- Hlen, <- Hf. rewrite !length_app. reflexivity.
Qed.

(** X3.  When the top-level nodes of the parse come one after the other
    (each starts at or after the end of the one before), the pieces put
    end to end hold the characters of the input that are not white space,
    all of them and in the same order: the splitter moves and drops white
    space only.  The same holds when the input does not parse. *)
Theorem split_keeps_text (commands : string) :
  match bashlex_parse commands with
  | Some parsed => nodes_in_order 0 parsed = true
  | None => True
  end ->
  without_space (String.concat "" (split_bash_commands commands))
  = without_space commands.
Proof.
  intros Hord.
  destruct (nonempty (strip commands)) eqn:Hne.
  - destruct (bashlex_parse commands) as [[|first rest]|] eqn:Hparse.
    + rewrite (split_parsed_nil _ Hne Hparse). cbn. apply without_space_rstrip.
    + destruct (split_parsed _ _ _ Hne Hparse) as (front & x & le & Hfold & ->).
      destruct (split_fold_first commands first rest)
        as (front' & x' & le' & Hfold' & _ & _ & Htext).
      rewrite Hfold in Hfold'. inversion Hfold' as [[Hf Hl]].
      apply app_inj_tail in Hf as [<- <-]. subst le'.
      specialize (Htext Hord).
      change (String.concat "" ?l) with (join "" l) in *.
      rewrite join_snoc, without_space_app in *.
      destruct (Nat.ltb_spec le (String.length commands)) as [Hlt|Hge].
      * rewrite without_space_app, without_space_rstrip, <- append_assoc, Htext.
        now rewrite <- without_space_app, take_drop.
      * now rewrite Htext, take_all.
    + rewrite split_unfold, Hne, Hparse. reflexivity.
  - rewrite split_unfold, Hne. cbn. symmetry. now apply without_space_blank.
Qed.

(** X4.  No piece returned by the splitter ends with white space, provided
    the input itself does not when it fails to parse (the one case where
    the input is returned untouched). *)
Theorem split_pieces_trimmed (commands : string) :
  (bashlex_parse commands = None -> rstrip commands = commands) ->
  Forall (fun piece => rstrip piece = piece) (split_bash_commands commands).
Proof.
  intros Hraw.
  destruct (nonempty (strip commands)) eqn:Hne.
  - destruct (bashlex_parse commands) as [[|first rest]|] eqn:Hparse.
    + rewrite (split_parsed_nil _ Hne Hparse). repeat constructor.
      apply rstrip_idem.
    + destruct (split_parsed _ _ _ Hne Hparse) as (front & x & le & Hfold & ->).
      destruct (split_fold_first commands first rest)
        as (front' & x' & le' & Hfold' & _ & Hall & _).
      rewrite Hfold in Hfold'. inversion Hfold' as [[Hf Hl]].
      apply app_inj_tail in Hf as [<- <-].
      apply Forall_app in Hall as [Hfront Hx].
      inversion Hx as [|? ? Hx1 _]; subst.
      apply Forall_app. split; [exact Hfront|]. constructor; [|constructor].
      destruct (_ <? _)%nat; [now apply rstrip_app_rstrip | exact Hx1].
    + rewrite split_unfold, Hne, Hparse. repeat constructor. now apply Hraw.
  - rewrite split_unfold, Hne. repeat constructor.
Qed.

(** ** The echo of the command and the white space around the output *)

Lemma strip_prefix_app (p rest : string) : strip_prefix p (p ++ rest) = Some rest.
Proof.
  induction p as [|c p IH]; [reflexivity|].
  cbn [append strip_prefix]. now rewrite Ascii.eqb_refl.
Qed.

Lemma removeprefix_app (p rest : string) : removeprefix (p ++ rest) p = rest.
Proof. unfold removeprefix. now rewrite strip_prefix_app. Qed.

(** X5.  When the raw output starts with the command that was typed (the
    echo of the terminal), [_remove_command_prefix] returns what follows
    the command, without the white space at its start; white space before
    the command, on either side, makes no difference. *)
Theorem echo_removed (command rest : string) :
  _remove_command_prefix (command ++ rest) command = lstrip rest.
Proof.
  unfold _remove_command_prefix.
  induction command as [|c command IH].
  - cbn [append lstrip]. unfold removeprefix. cbn [strip_prefix].
    apply lstrip_idem.
  - cbn [append lstrip]. destruct (is_space c) eqn:Hc; [exact IH|].
    change (String c (command ++ rest)) with (String c command ++ rest).
    now rewrite removeprefix_app.
Qed.

Lemma lstrip_rstrip_lstrip (s : string) :
  lstrip (rstrip (lstrip s)) = rstrip (lstrip s).
Proof.
  induction s as [|c s IH]; [reflexivity|]. cbn [lstrip].
  destruct (is_space c) eqn:Hc; [exact IH|].
  rewrite rstrip_cons. destruct (rstrip s); rewrite ?Hc; cbn [lstrip];
    now rewrite Hc.
Qed.

Lemma strip_diffed_output command raw p :
  strip (diffed_output command raw p) = diffed_output command raw p.
Proof.
  unfold diffed_output, _remove_command_prefix, strip.
  rewrite rstrip_idem. apply lstrip_rstrip_lstrip.
Qed.

(** Every observation that [execute] returns: one of the five fixed
    answers, or the work of a builder on a session object that nothing
    has touched since the call. *)
Lemma execute_answers fuel action st obs st' :
  execute fuel action st = (Ok obs, st') ->
  (exists content,
      obs = CmdOutputObservation content "" CmdOutputMetadata_new
      /\ In content ["ERROR: No previous running command to retrieve logs from.";
                     "ERROR: No previous running command to interact with.";
                     "All running processes have been terminated";
                     "No processes were terminated"])
  \/ (exists content, obs = ErrorObservation content)
  \/ exists b command pane_content st0,
       self st0 = self st /\ build b command pane_content st0 = (Ok obs, st').
Proof.
  unfold execute. intros H.
  rewrite bind_run with (a := self st) (st1 := st) in H by reflexivity.
  destruct (negb (_initialized (self st))); [discriminate H|].
  destruct action as [a| |name].
  - destruct (String.eqb (strip (command a)) "");
      [|destruct (is_input a)].
    + unfold _handle_empty_command in H.
      bind_inv H u st1 H1.
      assert (st1 = st) as -> by (destruct (String.eqb _ ""); now inversion H1).
      bind_inv H status st2 H2. apply getattr_ok in H2 as [_ ->].
      destruct (negb (is_continuing status)).
      * inversion H; subst. left. eexists. split; [reflexivity|]. now left.
      * right. right. apply poll_builds in H as (b & pc & st0 & Hs & Hb).
        exists b. eexists. exists pc, st0. split; [exact Hs | exact Hb].
    + unfold _handle_input_command in H.
      bind_inv H status st2 H2. apply getattr_ok in H2 as [_ ->].
      destruct (negb (is_continuing status)).
      * inversion H; subst. left. eexists. split; [reflexivity|]. right. now left.
      * bind_inv H u st3 H3.
        assert (Hs3 : self st3 = self st).
        { unfold send_keys, pane_call in H3. bind_inv H3 u' st4 H4.
          apply getattr_ok in H4 as [_ ->]. now inversion H3. }
        right. right. apply poll_builds in H as (b & pc & st0 & Hs & Hb).
        exists b. eexists. exists pc, st0. split; [congruence | exact Hb].
    + unfold _handle_normal_command in H.
      bind_inv H last_pane st1 H1.
      apply keeps_observes_pane_content in H1 as [Hs1 _].
      bind_inv H status st2 H2. apply getattr_ok in H2 as [_ ->].
      destruct (is_timed_out status && _).
      * right. right. exists ByInterrupted. eexists. exists last_pane, st1.
        split; [exact Hs1 | exact H].
      * destruct (1 <? _)%nat.
        -- inversion H; subst. right. left. now eexists.
        -- bind_inv H u st3 H3.
           assert (Hs3 : self st3 = self st1).
           { unfold send_keys, pane_call in H3. bind_inv H3 u' st4 H4.
             apply getattr_ok in H4 as [_ ->]. now inversion H3. }
           right. right. apply poll_builds in H as (b & pc & st0 & Hs & Hb).
           exists b. eexists. exists pc, st0. split; [congruence | exact Hb].
  - bind_inv H b st1 H1. inversion H; subst.
    left. eexists. split; [reflexivity|].
    destruct b; cbn; auto.
  - inversion H; subst. right. left. now eexists.
Qed.

(** X6.  The content of every command observation that [execute] returns
    has no white space at its start and none at its end: output that is
    only white space is reported as the empty string. *)
Theorem execute_content_stripped fuel action st content command md st' :
  execute fuel action st = (Ok (CmdOutputObservation content command md), st') ->
  strip content = content.
Proof.
  intros H.
  apply execute_answers in H
    as [(c & Hobs & Hin)|[(c & Hobs)|(b & cmd & pc & st0 & _ & Hb)]].
  - inversion Hobs; subst.
    repeat (destruct Hin as [<-|Hin]; [reflexivity|]). destruct Hin.
  - discriminate Hobs.
  - apply build_ok in Hb as (p & md' & _ & Hobs & _).
    inversion Hobs; subst. apply strip_diffed_output.
Qed.

(** ** The completed handler: when it returns and when it raises *)

Lemma last_char_some (s : string) : s <> "" -> exists key, last_char s = Some key.
Proof.
  induction s as [|c s IH]; [contradiction|]. intros _.
  destruct s as [|d s]; [now exists c|].
  destruct IH as [k Hk]; [discriminate|]. exists k. exact Hk.
Qed.

Lemma special_key_last (command : string) :
  _is_special_key command = true -> exists key, last_char command = Some key.
Proof.
  unfold _is_special_key. intros H. apply andb_prop in H as [_ H].
  apply last_char_some. intros ->. discriminate H.
Qed.

(** X7.  On a session that has its attributes, the completed handler
    raises [AssertionError], before it touches the session or the pane,
    exactly when it is given no PS1 match.  Given at least one match, and
    a parse of the last match that returns, it returns an observation:
    nothing else in the handler raises.  In particular the last character
    of the command, read for the note about a control key, is always
    there. *)
Theorem completed_handler_outcome command pane_content ps1_matches st :
  has_attrs (self st) = true ->
  match ps1_matches with
  | [] =>
      _handle_completed_command command pane_content ps1_matches st
      = (Raise AssertionError, st)
  | _ :: _ =>
      exists obs st',
        _handle_completed_command command pane_content ps1_matches st
        = (Ok obs, st')
  end.
Proof.
  intros Hattrs. destruct ps1_matches as [|m ms]; [reflexivity|].
  unfold has_attrs in Hattrs.
  repeat (apply andb_prop in Hattrs as [Hattrs ?]).
  destruct (pane (self st)) as [[]|] eqn:Hpane; [|discriminate].
  destruct (_cwd (self st)) as [cwd0|] eqn:Hcwd; [|discriminate].
  destruct (prev_output (self st)) as [p|] eqn:Hp; [|discriminate].
  unfold _handle_completed_command.
  destruct (rev (m :: ms)) as [|last_match front] eqn:Hrev.
  { apply (f_equal (@List.length _)) in Hrev. rewrite length_rev in Hrev.
    discriminate Hrev. }
  rewrite (bind_run _ _ _ _ _ (getattr_run "_cwd" _cwd st cwd0 Hcwd)).
  set (md0 := from_ps1_match last_match).
  set (st1 := if cwd_changed (md_working_dir md0) cwd0
              then after_assign st (set_cwd (match md_working_dir md0 with
                                             | Some d => d | None => "" end))
              else st).
  assert (Hupd : (if cwd_changed (md_working_dir md0) cwd0
                  then assign (set_cwd (match md_working_dir md0 with
                                        | Some d => d | None => "" end))
                  else ret tt) st = (Ok tt, st1))
    by (subst st1; now destruct (cwd_changed _ cwd0)).
  rewrite (bind_run _ _ _ _ _ Hupd).
  assert (Hpane1 : pane (self st1) = Some tt)
    by (subst st1; now destruct (cwd_changed _ cwd0)).
  assert (Hp1 : prev_output (self st1) = Some p)
    by (subst st1; now destruct (cwd_changed _ cwd0)).
  clearbody st1.
  match goal with
  | |- context [bind ?m _ st1] =>
      assert (Hsuf : exists suffix, m st1 = (Ok suffix, st1))
  end.
  { destruct (negb (_is_special_key command)) eqn:Hkey; [now eexists|].
    apply negb_false_iff in Hkey.
    destruct (special_key_last _ Hkey) as [key ->]. now eexists. }
  destruct Hsuf as [suffix Hsuf].
  rewrite (bind_run _ _ _ _ _ Hsuf).
  rewrite (bind_run _ _ _ _ _ (get_command_output_run _ _ _ _ _ _ Hp1)).
  rewrite !bind_assign.
  unfold _ready_for_next_command.
  match goal with
  | |- context [bind _clear_screen _ ?s] =>
      rewrite (bind_run _ _ _ _ _ (clear_screen_run s Hpane1))
  end.
  eexists. eexists. reflexivity.
Qed.

(** ** The exceptions that come out of a call *)

Lemma has_attrs_fields (b : BashSession) :
  has_attrs b = true ->
  pane b = Some tt /\ is_some (prev_status b) = true
  /\ is_some (prev_output b) = true /\ is_some (_closed b) = true
  /\ is_some (_cwd b) = true.
Proof.
  unfold has_attrs. intros H.
  repeat (apply andb_prop in H as [H ?]).
  destruct (pane b) as [[]|]; [|discriminate]. auto.
Qed.

Lemma has_attrs_intro (b : BashSession) :
  is_some (pane b) = true -> is_some (prev_status b) = true ->
  is_some (prev_output b) = true -> is_some (_closed b) = true ->
  is_some (_cwd b) = true -> has_attrs b = true.
Proof. unfold has_attrs. now intros -> -> -> -> ->. Qed.

Lemma has_attrs_set_prev_status v b :
  has_attrs b = true -> has_attrs (set_prev_status v b) = true.
Proof.
  intros H. apply has_attrs_fields in H as (Hp & _ & Ho & Hc & Hd).
  apply has_attrs_intro; cbn; auto. now rewrite Hp.
Qed.

Lemma has_attrs_set_prev_output v b :
  has_attrs b = true -> has_attrs (set_prev_output v b) = true.
Proof.
  intros H. apply has_attrs_fields in H as (Hp & Hs & _ & Hc & Hd).
  apply has_attrs_intro; cbn; auto. now rewrite Hp.
Qed.

Lemma has_attrs_set_cwd v b :
  has_attrs b = true -> has_attrs (set_cwd v b) = true.
Proof.
  intros H. apply has_attrs_fields in H as (Hp & Hs & Ho & Hc & _).
  apply has_attrs_intro; cbn; auto. now rewrite Hp.
Qed.

Lemma has_attrs_set_closed v b :
  has_attrs b = true -> has_attrs (set_closed v b) = true.
Proof.
  intros H. apply has_attrs_fields in H as (Hp & Hs & Ho & _ & Hd).
  apply has_attrs_intro; cbn; auto. now rewrite Hp.
Qed.

Lemma lets_out_ret P {A} (a : A) : lets_out P (ret a).
Proof. intros st r st' Ha H. inversion H; subst. auto. Qed.

Lemma lets_out_raise (P : PyExc -> Prop) {A} (e : PyExc) :
  P e -> lets_out P (@raise A e).
Proof. intros He st r st' Ha H. inversion H; subst. auto. Qed.

Lemma lets_out_get_self P : lets_out P get_self.
Proof. intros st r st' Ha H. inversion H; subst. auto. Qed.

Lemma lets_out_external P {A} (e : A -> Effect) (answer : nat -> A) :
  lets_out P (external e answer).
Proof. intros st r st' Ha H. inversion H; subst. auto. Qed.

Lemma lets_out_assign P f :
  (forall b, has_attrs b = true -> has_attrs (f b) = true) ->
  lets_out P (assign f).
Proof. intros Hf st r st' Ha H. inversion H; subst. cbn. auto. Qed.

Lemma lets_out_getattr P {A} name (field : BashSession -> option A) :
  (forall b, has_attrs b = true -> is_some (field b) = true) ->
  lets_out P (getattr name field).
Proof.
  intros Hf st r st' Ha H. unfold getattr in H.
  specialize (Hf _ Ha). destruct (field (self st)); [|discriminate].
  inversion H; subst. auto.
Qed.

Lemma lets_out_bind P {A B} (m : M A) (k : A -> M B) :
  lets_out P m -> (forall a, lets_out P (k a)) -> lets_out P (bind m k).
Proof.
  intros Hm Hk st r st' Ha H. unfold bind in H.
  destruct (m st) as [[a|e|] st1] eqn:E; destruct (Hm _ _ _ Ha E) as [Ha1 He].
  - exact (Hk a _ _ _ Ha1 H).
  - inversion H; subst. auto.
  - inversion H; subst. auto.
Qed.

Lemma lets_out_try_except (P Q : PyExc -> Prop) {A} (m : M A)
    (handler : PyExc -> M A) :
  lets_out Q m -> (forall e, lets_out P (handler e)) ->
  lets_out P (try_except m handler).
Proof.
  intros Hm Hh st r st' Ha H. unfold try_except in H.
  destruct (m st) as [[a|e|] st1] eqn:E; destruct (Hm _ _ _ Ha E) as [Ha1 He].
  - inversion H; subst. auto.
  - exact (Hh e _ _ _ Ha1 H).
  - inversion H; subst. auto.
Qed.

Lemma lets_out_weaken (P Q : PyExc -> Prop) {A} (m : M A) :
  (forall e, P e -> Q e) -> lets_out P m -> lets_out Q m.
Proof.
  intros Hs Hm st r st' Ha H. destruct (Hm _ _ _ Ha H) as [Ha1 He].
  split; [exact Ha1|]. destruct r; auto.
Qed.

Create HintDb lets_db.
#[local] Hint Resolve has_attrs_set_prev_status has_attrs_set_prev_output
  has_attrs_set_cwd has_attrs_set_closed : lets_db.

Lemma lets_out_pane P : lets_out P (getattr "pane" pane).
Proof.
  apply lets_out_getattr. intros b H.
  apply has_attrs_fields in H as (-> & _). reflexivity.
Qed.

Lemma lets_out_prev_status P : lets_out P (getattr "prev_status" prev_status).
Proof. apply lets_out_getattr. intros b H. now apply has_attrs_fields in H. Qed.

Lemma lets_out_prev_output P : lets_out P (getattr "prev_output" prev_output).
Proof. apply lets_out_getattr. intros b H. now apply has_attrs_fields in H. Qed.

Lemma lets_out_closed P : lets_out P (getattr "_closed" _closed).
Proof. apply lets_out_getattr. intros b H. now apply has_attrs_fields in H. Qed.

Lemma lets_out_cwd P : lets_out P (getattr "_cwd" _cwd).
Proof. apply lets_out_getattr. intros b H. now apply has_attrs_fields in H. Qed.

#[local] Hint Resolve lets_out_pane lets_out_prev_status lets_out_prev_output
  lets_out_closed lets_out_cwd : lets_db.

(** Goes through a computation as [keeps_walk] does. *)
Ltac lets_walk :=
  repeat first
    [ solve [eauto 3 with lets_db]
    | apply lets_out_ret
    | apply lets_out_get_self
    | apply lets_out_external
    | apply lets_out_assign; solve [eauto with lets_db]
    | apply lets_out_bind; [|intros ?]
    | match goal with
      | |- lets_out _ (if ?b then _ else _) => destruct b
      | |- lets_out _ (match ?x with _ => _ end) => destruct x
      | |- lets_out _ (let '(_, _) := ?x in _) => destruct x
      end ].

Lemma lets_out_pane_call P {A} (e : A -> Effect) (answer : nat -> A) :
  lets_out P (pane_call e answer).
Proof. unfold pane_call. lets_walk. Qed.

#[local] Hint Resolve lets_out_pane_call : lets_db.

Lemma lets_out_now P : lets_out P now.
Proof. unfold now. lets_walk. Qed.

Lemma lets_out_sleep P n : lets_out P (time_sleep n).
Proof. unfold time_sleep, tell. lets_walk. Qed.

Lemma lets_out_send_keys P keys enter : lets_out P (send_keys keys enter).
Proof. unfold send_keys. lets_walk. Qed.

Lemma lets_out_pane_content P : lets_out P _get_pane_content.
Proof. unfold _get_pane_content. lets_walk. Qed.

#[local] Hint Resolve lets_out_now lets_out_sleep lets_out_send_keys
  lets_out_pane_content : lets_db.

Lemma lets_out_clear_screen P : lets_out P _clear_screen.
Proof. unfold _clear_screen. lets_walk. Qed.

Lemma lets_out_discovery P : lets_out P get_running_processes.
Proof. unfold get_running_processes. lets_walk. Qed.

Lemma lets_out_kill_process P p : lets_out P (kill_process p).
Proof. unfold kill_process. lets_walk. Qed.

#[local] Hint Resolve lets_out_clear_screen lets_out_discovery
  lets_out_kill_process : lets_db.

Lemma lets_out_kill_each pids :
  forall success, lets_out pid_failure (kill_each pids success).
Proof.
  induction pids as [|p rest IH]; intros success; cbn [kill_each].
  - lets_walk.
  - apply lets_out_bind; [lets_walk|]. intros [q| |].
    + destruct (negb (Nat.eqb p q)); [|apply IH].
      apply lets_out_bind; [lets_walk|]. intros killed. apply IH.
    + apply lets_out_raise. now left.
    + apply lets_out_raise. now right.
Qed.

Lemma lets_out_kill_all : lets_out pid_failure kill_all_processes.
Proof.
  unfold kill_all_processes. apply lets_out_bind; [lets_walk|].
  intros info. apply lets_out_kill_each.
Qed.

Lemma lets_out_get_command_output P command raw md continue_prefix :
  lets_out P (_get_command_output command raw md continue_prefix).
Proof. unfold _get_command_output. lets_walk. Qed.

#[local] Hint Resolve lets_out_get_command_output : lets_db.

Lemma lets_out_nochange P command pane_content ms :
  lets_out P (_handle_nochange_timeout_command command pane_content ms).
Proof. unfold _handle_nochange_timeout_command. lets_walk. Qed.

Lemma lets_out_hard P command pane_content ms limit :
  lets_out P (_handle_hard_timeout_command command pane_content ms limit).
Proof. unfold _handle_hard_timeout_command. lets_walk. Qed.

Lemma lets_out_interrupted P command last_pane :
  lets_out P (_handle_interrupted_command command last_pane).
Proof. unfold _handle_interrupted_command. lets_walk. Qed.

(** The completed handler lets out its [AssertionError] and nothing
    else. *)
Lemma lets_out_completed command pane_content ms :
  lets_out (fun e => e = AssertionError /\ ms = [])
           (_handle_completed_command command pane_content ms).
Proof.
  unfold _handle_completed_command.
  destruct ms as [|m rest].
  - apply lets_out_raise. auto.
  - destruct (rev (m :: rest)) as [|last_match front] eqn:Hrev.
    { apply (f_equal (@List.length _)) in Hrev. rewrite length_rev in Hrev.
      discriminate Hrev. }
    apply lets_out_bind; [lets_walk|]. intros cwd0.
    apply lets_out_bind; [lets_walk|]. intros _.
    apply lets_out_bind.
    { destruct (negb (_is_special_key command)) eqn:Hkey; [lets_walk|].
      apply negb_false_iff in Hkey.
      destruct (special_key_last _ Hkey) as [key ->]. lets_walk. }
    intros suffix. unfold _ready_for_next_command. lets_walk.
Qed.

#[local] Hint Resolve lets_out_nochange lets_out_hard lets_out_interrupted
  : lets_db.

Lemma lets_out_iteration command action v :
  lets_out poll_failure (poll_iteration command action v).
Proof.
  unfold poll_iteration.
  apply lets_out_bind; [lets_walk|]. intros t0.
  apply lets_out_bind; [lets_walk|]. intros cur.
  apply lets_out_bind; [lets_walk|]. intros t1.
  apply lets_out_bind.
  { apply (lets_out_try_except _ no_exception); [|intros; lets_walk]. lets_walk. }
  intros _.
  apply lets_out_bind; [lets_walk|]. intros v'.
  destruct (endswith (rstrip cur) (rstrip CMD_OUTPUT_PS1_END)) eqn:Hend.
  - apply lets_out_bind; [|intros; lets_walk].
    eapply lets_out_weaken; [|apply lets_out_completed].
    intros e [-> Hnil]. right. split; [reflexivity|]. now exists cur.
  - lets_walk.
Qed.

Lemma lets_out_loop fuel command action :
  forall v, lets_out poll_failure (poll_loop fuel command action v).
Proof.
  induction fuel as [|fuel IH]; intros v; cbn [poll_loop].
  - intros st r st' Ha H. inversion H; subst. auto.
  - apply lets_out_bind; [lets_walk|]. intros [|].
    + apply lets_out_bind; [apply lets_out_iteration|].
      intros [obs|v']; [lets_walk | apply IH].
    + apply lets_out_raise. now left.
Qed.

Lemma lets_out_poll fuel command action :
  lets_out poll_failure (_poll_for_command_completion fuel command action).
Proof.
  unfold _poll_for_command_completion.
  apply lets_out_bind; [lets_walk|]. intros t0.
  apply lets_out_bind; [lets_walk|]. intros pane0.
  apply lets_out_loop.
Qed.

#[local] Hint Resolve lets_out_poll : lets_db.

Lemma lets_out_run fuel a :
  lets_out poll_failure
    (if String.eqb (strip (command a)) "" then _handle_empty_command fuel a
     else if is_input a then _handle_input_command fuel a
     else _handle_normal_command fuel a).
Proof.
  destruct (String.eqb (strip (command a)) "") eqn:Hempty;
    [|destruct (is_input a)].
  - unfold _handle_empty_command. rewrite Hempty. lets_walk.
  - unfold _handle_input_command. lets_walk.
  - unfold _handle_normal_command. lets_walk.
Qed.

(** X8.  The exceptions that [execute] raises by itself, that is, as
    long as the shell parser raises nothing but the two exceptions that
    are caught and the parse of a PS1 match returns.  On a session that is
    not initialized every action raises [RuntimeError] and nothing is
    done.  On an initialized session (which has the attributes that
    [initialize] assigns), a command action can only raise the
    [RuntimeError] of an interrupted polling loop, or [AssertionError] -
    and this one only if some text ends with the PS1 end marker without
    holding a PS1 match; a Stop action can only raise [IndexError] or
    [ValueError] (the pane pid could not be read); any other action raises
    nothing.  No attribute of the session is read before it is set. *)
Theorem execute_raises fuel action st e st' :
  (_initialized (self st) = true -> has_attrs (self st) = true) ->
  execute fuel action st = (Raise e, st') ->
  if _initialized (self st)
  then match action with
       | RunAction _ => poll_failure e
       | StopProcessesAction => pid_failure e
       | OtherAction _ => False
       end
  else e = RuntimeError "Bash session is not initialized" /\ st' = st.
Proof.
  intros Hok H. unfold execute in H.
  rewrite bind_run with (a := self st) (st1 := st) in H by reflexivity.
  destruct (_initialized (self st)); cbn [negb] in H.
  - specialize (Hok eq_refl). destruct action as [a| |name].
    + exact (proj2 (lets_out_run fuel a _ _ _ Hok H)).
    + assert (L : lets_out pid_failure
                    (success <- kill_all_processes ;;
                     ret (CmdOutputObservation
                            (if (success : bool)
                             then "All running processes have been terminated"
                             else "No processes were terminated")
                            "" CmdOutputMetadata_new))).
      { apply lets_out_bind; [apply lets_out_kill_all | intros; lets_walk]. }
      exact (proj2 (L _ _ _ Hok H)).
    + discriminate H.
  - inversion H; subst. auto.
Qed.

(** ** Commands that are not sent *)

(** X9.  When no command is running (the status is not one of the
    continuing ones: the session is fresh or the last command completed),
    an empty command and an input command are answered at once with an
    ERROR observation: nothing is asked of the terminal and the session is
    left exactly as it was. *)
Theorem nothing_running_answer fuel action st status :
  _initialized (self st) = true ->
  prev_status (self st) = Some status ->
  is_continuing status = false ->
  strip (command action) = "" \/ is_input action = true ->
  execute fuel (RunAction action) st
  = (Ok (CmdOutputObservation
           (if String.eqb (strip (command action)) ""
            then "ERROR: No previous running command to retrieve logs from."
            else "ERROR: No previous running command to interact with.")
           "" CmdOutputMetadata_new), st).
Proof.
  intros Hinit Hstatus Hidle Hkind. unfold execute.
  rewrite bind_run with (a := self st) (st1 := st) by reflexivity.
  rewrite Hinit. cbn [negb].
  destruct (String.eqb_spec (strip (command action)) "") as [E|E].
  - unfold _handle_empty_command. rewrite E. cbn [String.eqb].
    rewrite bind_ret.
    rewrite (bind_run _ _ _ _ _ (getattr_run "prev_status" prev_status st _ Hstatus)).
    now rewrite Hidle.
  - destruct Hkind as [Hk|Hk]; [contradiction|]. rewrite Hk.
    unfold _handle_input_command.
    rewrite (bind_run _ _ _ _ _ (getattr_run "prev_status" prev_status st _ Hstatus)).
    now rewrite Hidle.
Qed.

(** X10.  After a timeout, while the capture of the pane does not end
    with the PS1 end marker, a new command (not empty, not an input) is not
    sent: the pane is captured once and no key goes out.  The answer is a
    command observation made of the output seen so far, with exit code -1
    and the note that the command was not executed as suffix; the status
    stays what it was and [prev_output] becomes the raw output of the
    capture. *)
Theorem new_command_while_running fuel action st status p :
  _initialized (self st) = true ->
  pane (self st) = Some tt ->
  prev_status (self st) = Some status ->
  is_timed_out status = true ->
  prev_output (self st) = Some p ->
  strip (command action) <> "" ->
  is_input action = false ->
  let stdout := capture_pane_stdout W (tick st) in
  let cmd := strip (command action) in
  let raw :=
    _combine_outputs_between_matches
      (pane_text stdout) (matches_ps1_metadata (pane_text stdout)) false in
  endswith (pane_text stdout) CMD_OUTPUT_PS1_END = false ->
  exists md,
    execute fuel (RunAction action) st
    = (Ok (CmdOutputObservation (diffed_output cmd raw p) cmd md),
       mkSt (set_prev_output raw (self st)) (S (tick st))
            (effects st ++ [EffCapturePane stdout])%list)
    /\ md_suffix md = interrupted_suffix cmd
    /\ md_prefix md = (if nonempty p then continuation_banner else "")
    /\ md_exit_code md = (-1)%Z.
Proof.
  intros Hinit Hpane Hstatus Htimed Hprev Hne Hinput stdout cmd raw Hend.
  eexists. split.
  - unfold execute.
    rewrite bind_run with (a := self st) (st1 := st) by reflexivity.
    rewrite Hinit. cbn [negb].
    destruct (String.eqb_spec (strip (command action)) "") as [E|_];
      [contradiction|].
    rewrite Hinput. unfold _handle_normal_command.
    rewrite (bind_run _ _ _ _ _ (pane_content_run _ Hpane)).
    rewrite (bind_run _ _ _ _ _
               (getattr_run "prev_status" prev_status (after_call st _) status
                            Hstatus)).
    fold stdout. rewrite Htimed, Hend. cbn [negb andb].
    unfold _handle_interrupted_command.
    rewrite (bind_run _ _ _ _ _
               (get_command_output_run _ _ _ _ (after_call st _) p Hprev)).
    reflexivity.
  - destruct (nonempty p); repeat split; reflexivity.
Qed.

(** ** The hard timeout *)

Lemma now_run st :
  now st = (Ok (time_time W (tick st)),
            after_call st (EffTime (time_time W (tick st)))).
Proof. reflexivity. Qed.

Lemma vars_step_start v cur v' : vars_step v cur v' -> start_time v' = start_time v.
Proof. intros [E|t E]; reflexivity. Qed.

Lemma observes_effects a b e :
  observes a b -> In e (effects a) -> In e (effects b).
Proof. intros [_ (es & E & _)] H. rewrite E. apply in_or_app. now left. Qed.

(** A turn of the loop that ends with the status [HARD_TIMEOUT]: the
    timeout is set and a clock reading of the turn is that far from the
    start time. *)
Lemma poll_iteration_hard command action v st obs st' :
  poll_iteration command action v st = (Ok (inl obs), st') ->
  prev_status (self st') = Some (Some HARD_TIMEOUT) ->
  exists limit t,
    timeout action = Some limit /\ limit <> 0%Z
    /\ In (EffTime t) (effects st')
    /\ (limit <= t - start_time v)%Z.
Proof.
  unfold poll_iteration. intros H Hstatus.
  bind_inv H t0 st1 H1. bind_inv H cur st2 H2. bind_inv H t1 st3 H3.
  bind_inv H u st4 H4. bind_inv H v' st5 H5.
  apply change_test_ok in H5 as (Hstep & _ & _).
  apply vars_step_start in Hstep.
  clear H1 H2 H3 H4.
  destruct (endswith (rstrip cur) (rstrip CMD_OUTPUT_PS1_END)).
  - bind_inv H o st6 H6. inversion H; subst o st6.
    apply completed_leaves_reset in H6 as (Hs & _). congruence.
  - bind_inv H t st6 H6. bind_inv H me st7 H7. inversion H7; subst me st7.
    destruct (negb (blocking action) && _).
    + bind_inv H o st8 H8. inversion H; subst o st8.
      apply handle_nochange_ok in H8 as (p & md & _ & _ & _ & ->).
      cbn in Hstatus. discriminate.
    + bind_inv H t2 st8 H8. bind_inv H timed_out st9 H9.
      destruct timed_out as [limit|].
      * bind_inv H o st10 H10. inversion H; subst o st10.
        apply handle_hard_ok in H10 as (p & md & _ & _ & _ & ->).
        cbn [effects after_assign].
        unfold timeout_set in H9.
        destruct (timeout action) as [z|]; [|discriminate H9].
        destruct (Z.eqb_spec z 0); [discriminate H9|].
        bind_inv H9 t3 st11 H11. apply now_ok in H11. subst st11.
        destruct (z <=? t3 - start_time v')%Z eqn:Hz; inversion H9; subst.
        exists limit, t3. repeat split; auto.
        -- cbn. apply in_or_app. right. now left.
        -- rewrite <- Hstep. now apply Z.leb_le.
      * bind_inv H u1 st10 H10. inversion H.
Qed.

Lemma poll_loop_hard fuel command action :
  forall v st obs st',
    poll_loop fuel command action v st = (Ok obs, st') ->
    prev_status (self st') = Some (Some HARD_TIMEOUT) ->
    exists limit t,
      timeout action = Some limit /\ limit <> 0%Z
      /\ In (EffTime t) (effects st')
      /\ (limit <= t - start_time v)%Z.
Proof.
  induction fuel as [|fuel IH]; intros v st obs st' H Hstatus; cbn [poll_loop] in H.
  - discriminate H.
  - bind_inv H go st1 H1. destruct go; [|discriminate H].
    bind_inv H r st2 H2. destruct r as [o|v'].
    + inversion H; subst o st2. eapply poll_iteration_hard; eauto.
    + apply poll_iteration_next in H2 as (_ & [cur Hstep] & _).
      apply vars_step_start in Hstep. rewrite <- Hstep. eapply IH; eauto.
Qed.

(** X11.  The polling loop returns with the status [HARD_TIMEOUT] only
    when the action has a timeout that is not zero and a clock reading of
    the session is at least that far from the first reading of the call,
    the start time.  An action without timeout, or with timeout 0, never
    gets a hard-timeout observation. *)
Theorem hard_timeout_only_when_due fuel command action st obs st' :
  _poll_for_command_completion fuel command action st = (Ok obs, st') ->
  prev_status (self st') = Some (Some HARD_TIMEOUT) ->
  exists limit t es,
    timeout action = Some limit /\ limit <> 0%Z
    /\ effects st'
       = (effects st ++ EffTime (time_time W (tick st)) :: es)%list
    /\ In (EffTime t) (effects st')
    /\ (limit <= t - time_time W (tick st))%Z.
Proof.
  unfold _poll_for_command_completion. intros H Hstatus.
  bind_inv H t0 st1 H1. rewrite now_run in H1. inversion H1; subst t0 st1; clear H1.
  bind_inv H pane0 st2 H2. apply keeps_observes_pane_content in H2.
  destruct (poll_loop_hard _ _ _ _ _ _ _ H Hstatus) as (limit & t & Hto & Hnz & Hin & Hle).
  destruct (poll_loop_exit _ _ _ _ _ _ _ H) as (v1 & st3 & _ & Hobs3 & _ & Hexit).
  assert (Hgrow : exists st0, observes st3 st0 /\ effects st' = effects st0).
  { destruct Hexit as [st0 cur v' Hobs0 _ _ Hh | st0 cur v' t' Hobs0 _ _ _ _ _ _ Hh
                      | st0 cur v' t' limit' Hobs0 _ _ _ _ _ Hh].
    - apply completed_leaves_reset in Hh as (Hs & _). congruence.
    - apply handle_nochange_ok in Hh as (p & md & _ & _ & _ & ->).
      cbn in Hstatus. discriminate.
    - apply handle_hard_ok in Hh as (p & md & _ & _ & _ & ->).
      exists st0. split; [exact Hobs0 | reflexivity]. }
  destruct Hgrow as (st0 & Hobs0 & Heff).
  destruct (observes_trans _ _ _ (observes_trans _ _ _ H2 Hobs3) Hobs0)
    as [_ (es & Hes & _)].
  exists limit, t, es. repeat split; auto.
  rewrite Heff, Hes. cbn [effects after_call]. now rewrite <- app_assoc.
Qed.

(** ** The polling loop comes to an end *)

Lemma finishes_ret {A} (a : A) : finishes (ret a).
Proof. intros st st' H. discriminate H. Qed.

Lemma finishes_raise {A} (e : PyExc) : finishes (@raise A e).
Proof. intros st st' H. discriminate H. Qed.

Lemma finishes_getattr {A} name (field : BashSession -> option A) :
  finishes (getattr name field).
Proof.
  intros st st' H. unfold getattr in H. destruct (field (self st)); discriminate H.
Qed.

Lemma finishes_get_self : finishes get_self.
Proof. intros st st' H. discriminate H. Qed.

Lemma finishes_external {A} (e : A -> Effect) (answer : nat -> A) :
  finishes (external e answer).
Proof. intros st st' H. discriminate H. Qed.

Lemma finishes_assign f : finishes (assign f).
Proof. intros st st' H. discriminate H. Qed.

Lemma finishes_bind {A B} (m : M A) (k : A -> M B) :
  finishes m -> (forall a, finishes (k a)) -> finishes (bind m k).
Proof.
  intros Hm Hk st st' H. unfold bind in H.
  destruct (m st) as [[a|e|] st1] eqn:E.
  - exact (Hk a _ _ H).
  - discriminate H.
  - exact (Hm _ _ E).
Qed.

Lemma finishes_try_except {A} (m : M A) (handler : PyExc -> M A) :
  finishes m -> (forall e, finishes (handler e)) -> finishes (try_except m handler).
Proof.
  intros Hm Hh st st' H. unfold try_except in H.
  destruct (m st) as [[a|e|] st1] eqn:E.
  - discriminate H.
  - exact (Hh e _ _ H).
  - exact (Hm _ _ E).
Qed.

Ltac fin_walk :=
  repeat first
    [ assumption
    | apply finishes_ret
    | apply finishes_raise
    | apply finishes_getattr
    | apply finishes_get_self
    | apply finishes_external
    | apply finishes_assign
    | apply finishes_bind; [|intros ?]
    | apply finishes_try_except; [|intros ?]
    | match goal with
      | |- finishes (if ?b then _ else _) => destruct b
      | |- finishes (match ?x with _ => _ end) => destruct x
      | |- finishes (let '(_, _) := ?x in _) => destruct x
      end ].

Lemma finishes_get_command_output command raw md continue_prefix :
  finishes (_get_command_output command raw md continue_prefix).
Proof. unfold _get_command_output. fin_walk. Qed.

Lemma finishes_iteration command action v :
  finishes (poll_iteration command action v).
Proof.
  pose proof finishes_get_command_output as Hout.
  unfold poll_iteration, now, _get_pane_content, get_running_processes,
    _handle_completed_command, _handle_nochange_timeout_command,
    _handle_hard_timeout_command, _ready_for_next_command, _clear_screen,
    send_keys, time_sleep, tell, pane_call.
  fin_walk; apply Hout.
Qed.

Lemma ticks_on_refl st : ticks_on st st.
Proof. unfold ticks_on. lia. Qed.

Lemma ticks_on_trans a b c : ticks_on a b -> ticks_on b c -> ticks_on a c.
Proof. unfold ticks_on. lia. Qed.

Lemma ticks_on_call st e : ticks_on st (after_call st e).
Proof. unfold ticks_on. cbn. lia. Qed.

Lemma ticks_on_assign st f : ticks_on st (after_assign st f).
Proof. unfold ticks_on. cbn. lia. Qed.


#[local] Hint Resolve ticks_on_refl ticks_on_trans ticks_on_call
  ticks_on_assign : keeps_db.

Lemma keeps_ticks_now : keeps ticks_on now.
Proof. unfold now. keeps_walk. Qed.

Lemma keeps_ticks_pane_content : keeps ticks_on _get_pane_content.
Proof. unfold _get_pane_content, pane_call. keeps_walk. Qed.

Lemma keeps_ticks_discovery_logged :
  keeps ticks_on (try_except (get_running_processes ;;; ret tt) (fun _ => ret tt)).
Proof.
  unfold get_running_processes, _get_pane_content, pane_call. keeps_walk.
Qed.

Lemma keeps_ticks_sleep n : keeps ticks_on (time_sleep n).
Proof. unfold time_sleep, tell. keeps_walk. Qed.

Lemma clock_mono :
  clock_advances ->
  forall n m, n <= m -> (time_time W n + Z.of_nat (m - n) <= time_time W m)%Z.
Proof.
  intros Hclock n m Hle. induction Hle as [|m Hle IH].
  - rewrite Nat.sub_diag. cbn. lia.
  - specialize (Hclock m). replace (S m - n) with (S (m - n)) by lia. lia.
Qed.

(** A turn of the loop that does not end it, while the action has a
    timeout: some external call of the turn found the clock less than the
    timeout away from the start time. *)
Lemma poll_iteration_waits command action v st v' st' limit :
  poll_iteration command action v st = (Ok (inr v'), st') ->
  timeout_set (timeout action) = Some limit ->
  start_time v' = start_time v
  /\ exists n,
       tick st <= n /\ n < tick st'
       /\ (time_time W n - start_time v < limit)%Z.
Proof.
  intros H Hlimit.
  pose proof (poll_iteration_next _ _ _ _ _ _ H) as (_ & [cur0 Hstep0] & _).
  split; [eapply vars_step_start; eauto|].
  revert H. unfold poll_iteration. intros H.
  bind_inv H t0 st1 H1. apply keeps_ticks_now in H1.
  bind_inv H cur st2 H2. apply keeps_ticks_pane_content in H2.
  bind_inv H t1 st3 H3. apply keeps_ticks_now in H3.
  bind_inv H u st4 H4. apply keeps_ticks_discovery_logged in H4.
  bind_inv H v1 st5 H5.
  assert (Hv1 : start_time v1 = start_time v /\ ticks_on st4 st5).
  { destruct (negb (String.eqb cur (last_pane_output v))).
    - bind_inv H5 t st6 H6. apply keeps_ticks_now in H6.
      inversion H5; subst. auto.
    - inversion H5; subst. split; [reflexivity | apply ticks_on_refl]. }
  destruct Hv1 as [Hv1 H5'].
  destruct (endswith (rstrip cur) (rstrip CMD_OUTPUT_PS1_END)).
  { bind_inv H o st6 H6. inversion H. }
  bind_inv H t st6 H6. apply keeps_ticks_now in H6.
  bind_inv H me st7 H7. inversion H7; subst me st7; clear H7.
  destruct (negb (blocking action) && _).
  { bind_inv H o st8 H8. inversion H. }
  bind_inv H t2 st8 H8. apply keeps_ticks_now in H8.
  rewrite Hlimit in H.
  bind_inv H timed_out st9 H9.
  bind_inv H9 t3 st10 H10. rewrite now_run in H10.
  inversion H10; subst t3 st10; clear H10.
  inversion H9; subst timed_out st9; clear H9.
  destruct (limit <=? time_time W (tick st8) - start_time v1)%Z eqn:Hz.
  { bind_inv H o st11 H11. inversion H. }
  bind_inv H u1 st11 H11. apply keeps_ticks_sleep in H11.
  inversion H; subst v' st11; clear H.
  apply Z.leb_gt in Hz. rewrite Hv1 in Hz.
  exists (tick st8). unfold ticks_on in *. cbn [tick after_call] in *.
  repeat split; [lia | lia | exact Hz].
Qed.

Lemma poll_loop_returns command action limit :
  timeout_set (timeout action) = Some limit ->
  clock_advances ->
  forall fuel v st st',
    1 <= fuel ->
    (limit < Z.of_nat fuel + (time_time W (tick st) - start_time v))%Z ->
    poll_loop fuel command action v st <> (Unfinished, st').
Proof.
  intros Hlimit Hclock.
  induction fuel as [|fuel IH]; intros v st st' Hfuel Hdue; [lia|].
  cbn [poll_loop]. rewrite (bind_run _ _ _ _ _ (external_run _ _ _)).
  destruct (should_continue W (tick st)); [|discriminate].
  set (st1 := after_call st (EffShouldContinue true)).
  destruct (poll_iteration command action v st1) as [[[obs|v']|e|] st2] eqn:E.
  - rewrite (bind_run _ _ _ _ _ E). discriminate.
  - rewrite (bind_run _ _ _ _ _ E).
    destruct (poll_iteration_waits _ _ _ _ _ _ _ E Hlimit)
      as (Hstart & n & Hn1 & Hn2 & Hn).
    pose proof (clock_mono Hclock (tick st) n) as M1.
    pose proof (clock_mono Hclock n (tick st2)) as M2.
    subst st1. cbn [tick after_call] in Hn1.
    apply IH; rewrite ?Hstart; lia.
  - rewrite (bind_raise _ _ _ _ _ E). discriminate.
  - exfalso. exact (finishes_iteration _ _ _ _ _ E).
Qed.

(** X12.  With a timeout on the action and a clock that moves on between
    external calls, the polling loop comes to an end: as soon as the fuel
    is at least the timeout, the call returns an observation or raises,
    and is not cut off. *)
Theorem poll_returns_by_hard_timeout fuel command action st limit :
  timeout action = Some limit ->
  (0 < limit)%Z ->
  clock_advances ->
  (limit <= Z.of_nat fuel)%Z ->
  exists r st',
    _poll_for_command_completion fuel command action st = (r, st')
    /\ r <> Unfinished.
Proof.
  intros Hto Hpos Hclock Hfuel.
  destruct (_poll_for_command_completion fuel command action st) as [r st'] eqn:E.
  exists r, st'. split; [reflexivity|]. intros ->.
  revert E. unfold _poll_for_command_completion.
  rewrite (bind_run _ _ _ _ _ (now_run st)).
  set (st1 := after_call st (EffTime (time_time W (tick st)))).
  destruct (_get_pane_content st1) as [[pane0|e|] st2] eqn:E2.
  - rewrite (bind_run _ _ _ _ _ E2).
    apply keeps_ticks_pane_content in E2.
    assert (Hset : timeout_set (timeout action) = Some limit).
    { unfold timeout_set. rewrite Hto.
      destruct (Z.eqb_spec limit 0); [lia | reflexivity]. }
    apply (poll_loop_returns command action limit Hset Hclock); [lia|].
    cbn [start_time].
    pose proof (clock_mono Hclock (tick st) (tick st2)) as M.
    unfold ticks_on in E2. subst st1. cbn [tick after_call] in E2. lia.
  - rewrite (bind_raise _ _ _ _ _ E2). discriminate.
  - unfold _get_pane_content, pane_call in E2.
    exfalso. revert E2.
    assert (F : finishes (stdout <- (getattr "pane" pane ;;;
                                     external EffCapturePane (capture_pane_stdout W)) ;;
                          ret (pane_text stdout))) by fin_walk.
    apply F.
Qed.

(** A turn of the loop that does not end it, for an action that is not
    blocking, on a pane that shows what it showed before: the variables
    stay as they are, and some external call of the turn found the clock
    less than the no-change timeout away from the change time. *)
Lemma poll_iteration_still command action v st v' st' stdout :
  poll_iteration command action v st = (Ok (inr v'), st') ->
  blocking action = false ->
  (forall n, capture_pane_stdout W n = stdout) ->
  last_pane_output v = pane_text stdout ->
  v' = v /\ self st' = self st
  /\ exists n,
       tick st <= n /\ n < tick st'
       /\ (time_time W n - last_change_time v
           < NO_CHANGE_TIMEOUT_SECONDS (self st))%Z.
Proof.
  intros H Hblock Hstill Hlast.
  pose proof (poll_iteration_next _ _ _ _ _ _ H) as ([Hself _] & _ & _).
  revert H. unfold poll_iteration. intros H.
  bind_inv H t0 st1 H1. pose proof (keeps_observes_now _ _ _ H1) as [S1 _].
  apply keeps_ticks_now in H1.
  bind_inv H cur st2 H2. pose proof (keeps_observes_pane_content _ _ _ H2) as [S2 _].
  pose proof (pane_content_ok _ _ _ H2) as [Hcur _]. rewrite Hstill in Hcur.
  apply keeps_ticks_pane_content in H2.
  bind_inv H t1 st3 H3. pose proof (keeps_observes_now _ _ _ H3) as [S3 _].
  apply keeps_ticks_now in H3.
  bind_inv H u st4 H4.
  pose proof (keeps_observes_discovery_logged _ _ _ H4) as [S4 _].
  apply keeps_ticks_discovery_logged in H4.
  bind_inv H v1 st5 H5.
  rewrite Hcur, <- Hlast, String.eqb_refl in H5. cbn [negb] in H5.
  inversion H5; subst v1 st5; clear H5.
  destruct (endswith (rstrip cur) (rstrip CMD_OUTPUT_PS1_END)).
  { bind_inv H o st6 H6. inversion H. }
  bind_inv H t st6 H6. rewrite now_run in H6. inversion H6; subst t st6; clear H6.
  bind_inv H me st7 H7. inversion H7; subst me st7; clear H7.
  rewrite Hblock in H. cbn [negb andb self after_call] in H.
  destruct (NO_CHANGE_TIMEOUT_SECONDS (self st4)
            <=? time_time W (tick st4) - last_change_time v)%Z eqn:Hz.
  { bind_inv H o st8 H8. inversion H. }
  apply Z.leb_gt in Hz.
  bind_inv H t2 st8 H8. apply keeps_ticks_now in H8.
  bind_inv H timed_out st9 H9.
  assert (T9 : ticks_on st8 st9).
  { destruct (timeout_set (timeout action)).
    - bind_inv H9 t3 st10 H10. apply keeps_ticks_now in H10.
      inversion H9; subst. exact H10.
    - inversion H9; subst. apply ticks_on_refl. }
  destruct timed_out as [limit|].
  { bind_inv H o st10 H10. inversion H. }
  bind_inv H u1 st10 H10. apply keeps_ticks_sleep in H10.
  inversion H; subst v' st10; clear H.
  split; [reflexivity|]. split; [exact Hself|].
  exists (tick st4). unfold ticks_on in *. cbn [tick after_call] in *.
  repeat split; [lia | lia |].
  replace (self st) with (self st4) by congruence. exact Hz.
Qed.

Lemma poll_loop_returns_still command action stdout :
  blocking action = false ->
  (forall n, capture_pane_stdout W n = stdout) ->
  clock_advances ->
  forall fuel v st st',
    last_pane_output v = pane_text stdout ->
    1 <= fuel ->
    (NO_CHANGE_TIMEOUT_SECONDS (self st)
     < Z.of_nat fuel + (time_time W (tick st) - last_change_time v))%Z ->
    poll_loop fuel command action v st <> (Unfinished, st').
Proof.
  intros Hblock Hstill Hclock.
  induction fuel as [|fuel IH]; intros v st st' Hlast Hfuel Hdue; [lia|].
  cbn [poll_loop]. rewrite (bind_run _ _ _ _ _ (external_run _ _ _)).
  destruct (should_continue W (tick st)); [|discriminate].
  set (st1 := after_call st (EffShouldContinue true)).
  destruct (poll_iteration command action v st1) as [[[obs|v']|e|] st2] eqn:E.
  - rewrite (bind_run _ _ _ _ _ E). discriminate.
  - rewrite (bind_run _ _ _ _ _ E).
    destruct (poll_iteration_still _ _ _ _ _ _ _ E Hblock Hstill Hlast)
      as (-> & Hself & n & Hn1 & Hn2 & Hn).
    pose proof (clock_mono Hclock (tick st) n) as M1.
    pose proof (clock_mono Hclock n (tick st2)) as M2.
    subst st1. cbn [tick self after_call] in Hn1, Hn, Hself.
    apply IH; rewrite ?Hself; [exact Hlast | lia | lia].
  - rewrite (bind_raise _ _ _ _ _ E). discriminate.
  - exfalso. exact (finishes_iteration _ _ _ _ _ E).
Qed.

(** X13.  For an action that is not blocking, on a pane whose capture no
    longer changes and with a clock that moves on between external calls,
    the polling loop comes to an end as well: as soon as the fuel is at
    least [NO_CHANGE_TIMEOUT_SECONDS], the call returns an observation or
    raises, and is not cut off. *)
Theorem poll_returns_by_no_change_timeout fuel command action st stdout :
  blocking action = false ->
  (forall n, capture_pane_stdout W n = stdout) ->
  clock_advances ->
  1 <= fuel ->
  (NO_CHANGE_TIMEOUT_SECONDS (self st) <= Z.of_nat fuel)%Z ->
  exists r st',
    _poll_for_command_completion fuel command action st = (r, st')
    /\ r <> Unfinished.
Proof.
  intros Hblock Hstill Hclock Hone Hfuel.
  destruct (_poll_for_command_completion fuel command action st) as [r st'] eqn:E.
  exists r, st'. split; [reflexivity|]. intros ->.
  revert E. unfold _poll_for_command_completion.
  rewrite (bind_run _ _ _ _ _ (now_run st)).
  set (st1 := after_call st (EffTime (time_time W (tick st)))).
  destruct (_get_pane_content st1) as [[pane0|e|] st2] eqn:E2.
  - rewrite (bind_run _ _ _ _ _ E2).
    pose proof (keeps_observes_pane_content _ _ _ E2) as [Hself _].
    pose proof (pane_content_ok _ _ _ E2) as [Hpane0 _]. rewrite Hstill in Hpane0.
    apply keeps_ticks_pane_content in E2.
    apply (poll_loop_returns_still command action stdout Hblock Hstill Hclock);
      [exact Hpane0 | exact Hone |].
    cbn [last_change_time]. rewrite Hself.
    pose proof (clock_mono Hclock (tick st) (tick st2)) as M.
    unfold ticks_on in E2. subst st1. cbn [tick self after_call] in *. lia.
  - rewrite (bind_raise _ _ _ _ _ E2). discriminate.
  - unfold _get_pane_content, pane_call in E2.
    exfalso. revert E2.
    assert (F : finishes (stdout <- (getattr "pane" pane ;;;
                                     external EffCapturePane (capture_pane_stdout W)) ;;
                          ret (pane_text stdout))) by fin_walk.
    apply F.
Qed.

(** ** What the discovery lists *)

Lemma child_lines_app (a b : list Child) :
  child_lines (a ++ b) = (child_lines a ++ child_lines b)%list.
Proof. unfold child_lines. apply flat_map_app. Qed.

Lemma child_lines_pids (l : list Child) :
  map ps_pid (child_lines l) = map child_pid (filter listed l).
Proof.
  induction l as [|c l IH]; [reflexivity|].
  unfold child_lines in *. cbn [flat_map filter]. unfold listed at 1.
  destruct (child_facts c) as [f|]; [|exact IH].
  destruct (is_nil (pf_cmdline f)); cbn [negb app map]; [exact IH|].
  now rewrite IH.
Qed.

Lemma child_lines_one (c : Child) :
  child_lines [c]
  = match child_facts c with
    | Some f => if is_nil (pf_cmdline f) then [] else [process_str (child_pid c) f]
    | None => []
    end.
Proof. unfold child_lines. cbn [flat_map]. apply app_nil_r. Qed.

Lemma child_lines_cons (c : Child) (rest : list Child) :
  child_lines (c :: rest) = (child_lines [c] ++ child_lines rest)%list.
Proof. apply (child_lines_app [c] rest). Qed.

(** The first pass lists every listed child, and takes the direct
    children of the shell as command processes. *)
Lemma first_pass_lines shell_pid (children : list Child) :
  exists current,
    first_pass shell_pid children
    = (child_lines children,
       child_lines (filter (direct_child shell_pid) children), current).
Proof.
  unfold first_pass.
  match goal with |- context [fold_left ?f _ _] => set (step := f) end.
  assert (G : forall pl cp cur,
             exists current,
               fold_left step children (pl, cp, cur)
               = ((pl ++ child_lines children)%list,
                  (cp ++ child_lines (filter (direct_child shell_pid) children))%list,
                  current)).
  { induction children as [|c rest IH]; intros pl cp cur; cbn [fold_left].
    - exists cur. cbn. now rewrite !app_nil_r.
    - cbn [filter]. rewrite (child_lines_cons c rest).
      destruct (child_facts c) as [f|] eqn:Hf.
      2:{ assert (Hd : direct_child shell_pid c = false)
            by (unfold direct_child; now rewrite Hf).
          assert (Hl : child_lines [c] = [])
            by (rewrite child_lines_one; now rewrite Hf).
          assert (Hs : step (pl, cp, cur) c = (pl, cp, cur))
            by (subst step; cbv beta iota zeta; now rewrite Hf).
          rewrite Hd, Hl, Hs. apply IH. }
      destruct (is_nil (pf_cmdline f)) eqn:Hcmd.
      { assert (Hd : direct_child shell_pid c = false)
          by (unfold direct_child; rewrite Hf; cbv beta iota; now rewrite Hcmd).
        assert (Hl : child_lines [c] = [])
          by (rewrite child_lines_one, Hf; cbv beta iota; now rewrite Hcmd).
        assert (Hs : step (pl, cp, cur) c = (pl, cp, cur))
          by (subst step; cbv beta iota zeta; rewrite Hf; cbv beta iota zeta;
              now rewrite Hcmd).
        rewrite Hd, Hl, Hs. apply IH. }
      assert (Hl : child_lines [c] = [process_str (child_pid c) f])
        by (rewrite child_lines_one, Hf; cbv beta iota; now rewrite Hcmd).
      destruct (Nat.eqb (pf_ppid f) shell_pid) eqn:Hpp.
      + assert (Hd : direct_child shell_pid c = true)
          by (unfold direct_child; rewrite Hf; cbv beta iota; rewrite Hcmd, Hpp;
              reflexivity).
        assert (Hs : exists cur',
                   step (pl, cp, cur) c
                   = ((pl ++ [process_str (child_pid c) f])%list,
                      (cp ++ [process_str (child_pid c) f])%list, cur'))
          by (subst step; cbv beta iota zeta; rewrite Hf; cbv beta iota zeta;
              rewrite Hcmd; cbv beta iota zeta; rewrite Hpp; eauto).
        destruct Hs as [cur' Hs].
        rewrite Hd, (child_lines_cons c (filter (direct_child shell_pid) rest)), Hl, Hs.
        destruct (IH (pl ++ [process_str (child_pid c) f])%list
                     (cp ++ [process_str (child_pid c) f])%list cur')
          as [current Hc].
        exists current. rewrite Hc. now rewrite <- !app_assoc.
      + assert (Hd : direct_child shell_pid c = false)
          by (unfold direct_child; rewrite Hf; cbv beta iota; rewrite Hcmd, Hpp;
              reflexivity).
        assert (Hs : step (pl, cp, cur) c
                     = ((pl ++ [process_str (child_pid c) f])%list, cp, cur))
          by (subst step; cbv beta iota zeta; rewrite Hf; cbv beta iota zeta;
              rewrite Hcmd; cbv beta iota zeta; now rewrite Hpp).
        rewrite Hd, Hl, Hs.
        destruct (IH (pl ++ [process_str (child_pid c) f])%list cp cur)
          as [current Hc].
        exists current. rewrite Hc. now rewrite <- !app_assoc. }
  destruct (G [] [] None) as [current Hc]. exists current. exact Hc.
Qed.

Lemma in_child_lines (ps : ProcStr) (l : list Child) :
  In ps (child_lines l) <->
  exists c f,
    In c l /\ child_facts c = Some f /\ is_nil (pf_cmdline f) = false
    /\ ps = process_str (child_pid c) f.
Proof.
  unfold child_lines. rewrite in_flat_map. split.
  - intros (c & Hc & Hin). destruct (child_facts c) as [f|] eqn:Hf; [|destruct Hin].
    destruct (is_nil (pf_cmdline f)) eqn:Hcmd; [destruct Hin|].
    destruct Hin as [<-|[]]. now exists c, f.
  - intros (c & f & Hc & Hf & Hcmd & ->). exists c. split; [exact Hc|].
    rewrite Hf, Hcmd. now left.
Qed.

Lemma pid_among_in (p : nat) (procs : list ProcStr) :
  pid_among p procs = true <-> In p (map ps_pid procs).
Proof.
  unfold pid_among. rewrite existsb_exists, in_map_iff. split.
  - intros (x & Hx & E). apply Nat.eqb_eq in E. now exists x.
  - intros (x & E & Hx). exists x. split; [exact Hx|]. now apply Nat.eqb_eq.
Qed.

(** The second pass only adds lines, each for a listed child whose parent
    is among the command processes. *)
Lemma second_pass_grows (children : list Child) :
  forall cp,
    exists extra,
      second_pass children cp = (cp ++ extra)%list
      /\ forall ps, In ps extra ->
           exists c f,
             In c children /\ child_facts c = Some f
             /\ is_nil (pf_cmdline f) = false
             /\ ps = process_str (child_pid c) f
             /\ In (pf_ppid f) (map ps_pid (cp ++ extra)).
Proof.
  unfold second_pass.
  match goal with |- context [fold_left ?f _ _] => set (step := f) end.
  induction children as [|c rest IH]; intros cp; cbn [fold_left].
  - exists []. split; [now rewrite app_nil_r | intros ps []].
  - assert (Hstep : step cp c = cp
                    \/ exists f,
                         child_facts c = Some f /\ is_nil (pf_cmdline f) = false
                         /\ In (pf_ppid f) (map ps_pid cp)
                         /\ step cp c = (cp ++ [process_str (child_pid c) f])%list).
    { subst step. cbv beta iota zeta.
      destruct (child_facts c) as [f|] eqn:Hf; [|now left].
      destruct (is_nil (pf_cmdline f)) eqn:Hcmd; [now left|].
      destruct (pid_among (child_pid c) cp); [now left|].
      destruct (pid_among (pf_ppid f) cp) eqn:Hpp; [|now left].
      right. exists f. apply pid_among_in in Hpp. auto. }
    destruct Hstep as [->|(f & Hf & Hcmd & Hpp & ->)].
    + destruct (IH cp) as (extra & Hfold & Hextra).
      exists extra. split; [exact Hfold|].
      intros ps Hps. destruct (Hextra ps Hps) as (c' & f' & Hc' & H').
      exists c', f'. split; [now right | exact H'].
    + destruct (IH (cp ++ [process_str (child_pid c) f])%list)
        as (extra & Hfold & Hextra).
      exists (process_str (child_pid c) f :: extra). split.
      * rewrite Hfold, <- app_assoc. reflexivity.
      * intros ps [<-|Hps].
        -- exists c, f. repeat split; auto; [now left|].
           rewrite map_app. apply in_or_app. now left.
        -- destruct (Hextra ps Hps) as (c' & f' & Hc' & Hf' & Hcmd' & Hps' & Hin).
           exists c', f'. repeat split; auto; [now right|].
           now rewrite <- app_assoc in Hin.
Qed.

(** The result of the classification, in terms of the two passes. *)
Lemma classify_lines shell_pid shell :
  exists current extra,
    classify_processes shell_pid shell
    = mkProcessInfo
        (negb (is_nil (child_lines (filter (direct_child shell_pid)
                                           (sh_children shell)) ++ extra)%list))
        current
        (process_str shell_pid (sh_facts shell) :: child_lines (sh_children shell))
        (child_lines (filter (direct_child shell_pid) (sh_children shell))
           ++ extra)%list
        (shell_pid :: map child_pid (filter listed (sh_children shell)))
        (map ps_pid (child_lines (filter (direct_child shell_pid)
                                         (sh_children shell)) ++ extra)%list)
    /\ forall ps, In ps extra ->
         exists c f,
           In c (sh_children shell) /\ child_facts c = Some f
           /\ is_nil (pf_cmdline f) = false
           /\ ps = process_str (child_pid c) f
           /\ In (pf_ppid f)
                 (map ps_pid (child_lines (filter (direct_child shell_pid)
                                                  (sh_children shell)) ++ extra)%list).
Proof.
  unfold classify_processes.
  destruct (first_pass_lines shell_pid (sh_children shell)) as [current ->].
  destruct (second_pass_grows (sh_children shell)
              (child_lines (filter (direct_child shell_pid) (sh_children shell))))
    as (extra & -> & Hextra).
  exists current, extra. split; [|exact Hextra].
  cbn [map ps_pid process_str]. now rewrite child_lines_pids.
Qed.

(** X14.  What the discovery lists once it has found the shell process:
    [process_pids] is the pid of the shell followed by the pids of all
    the descendants that can be inspected and show a command line, in the
    order of [psutil]; a descendant without command line, or one that has
    gone, is not listed (and so is never killed by a Stop).  The command
    pids are among the listed descendants, and a command is reported as
    running exactly when there is a command pid. *)
Theorem discovery_lists_descendants shell_pid shell :
  let info := classify_processes shell_pid shell in
  let shown := map child_pid (filter listed (sh_children shell)) in
  process_pids info = shell_pid :: shown
  /\ incl (command_pids info) shown
  /\ (is_command_running info = true <-> command_pids info <> []).
Proof.
  cbv zeta.
  destruct (classify_lines shell_pid shell) as (current & extra & -> & Hextra).
  cbn [process_pids command_pids is_command_running].
  split; [reflexivity|]. split.
  - intros p Hp. apply in_map_iff in Hp as (ps & <- & Hps).
    assert (Hsrc : exists c f,
               In c (sh_children shell) /\ child_facts c = Some f
               /\ is_nil (pf_cmdline f) = false
               /\ ps = process_str (child_pid c) f).
    { apply in_app_or in Hps as [Hps|Hps].
      - apply in_child_lines in Hps as (c & f & Hc & Hf & Hcmd & ->).
        apply filter_In in Hc as [Hc _]. now exists c, f.
      - destruct (Hextra ps Hps) as (c & f & Hc & Hf & Hcmd & -> & _).
        now exists c, f. }
    destruct Hsrc as (c & f & Hc & Hf & Hcmd & ->). cbn [ps_pid process_str].
    apply in_map. apply filter_In. split; [exact Hc|].
    unfold listed. now rewrite Hf, Hcmd.
  - destruct (child_lines _ ++ extra)%list; cbn; split; congruence.
Qed.

(** X15.  The command processes of the discovery: every listed direct
    child of the shell is one, and every command process is a listed
    descendant whose parent is the shell or another command process. *)
Theorem command_processes_descend shell_pid shell :
  let info := classify_processes shell_pid shell in
  (forall c,
      In c (sh_children shell) -> direct_child shell_pid c = true ->
      In (child_pid c) (command_pids info))
  /\ (forall p,
        In p (command_pids info) ->
        exists c f,
          In c (sh_children shell) /\ child_pid c = p
          /\ child_facts c = Some f /\ pf_cmdline f <> []
          /\ (pf_ppid f = shell_pid \/ In (pf_ppid f) (command_pids info))).
Proof.
  cbv zeta.
  destruct (classify_lines shell_pid shell) as (current & extra & -> & Hextra).
  cbn [command_pids]. split.
  - intros c Hc Hd. rewrite map_app. apply in_or_app. left.
    rewrite child_lines_pids. apply in_map. apply filter_In. split.
    + apply filter_In. auto.
    + unfold direct_child in Hd. unfold listed.
      destruct (child_facts c); [|discriminate].
      now apply andb_prop in Hd as [Hd _].
  - intros p Hp. apply in_map_iff in Hp as (ps & <- & Hps).
    apply in_app_or in Hps as [Hps|Hps].
    + apply in_child_lines in Hps as (c & f & Hc & Hf & Hcmd & ->).
      apply filter_In in Hc as [Hc Hd].
      exists c, f. repeat split; auto.
      * intros E. now rewrite E in Hcmd.
      * left. unfold direct_child in Hd. rewrite Hf in Hd.
        apply andb_prop in Hd as [_ Hd]. now apply Nat.eqb_eq.
    + destruct (Hextra ps Hps) as (c & f & Hc & Hf & Hcmd & -> & Hin).
      exists c, f. repeat split; auto.
      intros E. now rewrite E in Hcmd.
Qed.

(** X16.  On a session that has a pane, [get_running_processes] never
    raises, whatever the terminal and the process table answer, and it
    changes nothing in the session.  When the capture ends with the PS1
    end marker and holds a PS1 match, it reports that nothing is running
    after the capture alone, without asking for the pane pid or looking at
    any process.  Otherwise its answer is either empty (the pane pid could
    not be read, or the shell process could not be inspected) or the
    classification of the descendants of the shell. *)
Theorem discovery_outcome st :
  pane (self st) = Some tt ->
  let stdout := capture_pane_stdout W (tick st) in
  let prompt :=
    endswith (rstrip (pane_text stdout)) (rstrip CMD_OUTPUT_PS1_END) in
  exists info st',
    get_running_processes st = (Ok info, st')
    /\ self st' = self st
    /\ (prompt = true -> matches_ps1_metadata (pane_text stdout) <> [] ->
        info = no_processes false
        /\ st' = after_call st (EffCapturePane stdout))
    /\ (info = no_processes (negb prompt)
        \/ exists shell_pid shell,
             info = classify_processes shell_pid shell
             /\ In (EffDisplayPanePid (PanePid shell_pid)) (effects st')
             /\ In (EffProcessTree shell_pid (Some shell)) (effects st')).
Proof.
  intros Hp stdout prompt.
  unfold get_running_processes.
  rewrite (bind_run _ _ _ _ _ (pane_content_run _ Hp)).
  fold stdout. fold prompt.
  destruct (matches_ps1_metadata (pane_text stdout)) as [|m ms] eqn:Hm;
    cbn [List.length Nat.ltb Nat.leb andb].
  - rewrite (bind_run _ _ _ _ _ (pane_call_run _ _ (after_call st _) Hp)).
    destruct (display_pane_pid W _) as [q| |] eqn:Hq.
    + rewrite (bind_run _ _ _ _ _ (external_run _ _ _)).
      destruct (psutil_Process W _ q) as [shell|] eqn:Hs.
      * eexists. eexists. split; [reflexivity|]. split; [reflexivity|].
        split; [intros _ Hne; now elim Hne|].
        right. exists q, shell. split; [reflexivity|]. cbn.
        split; apply in_or_app.
        -- left. apply in_or_app. right. now left.
        -- right. now left.
      * eexists. eexists. split; [reflexivity|]. split; [reflexivity|].
        split; [intros _ Hne; now elim Hne | now left].
    + eexists. eexists. split; [reflexivity|]. split; [reflexivity|].
      split; [intros _ Hne; now elim Hne | now left].
    + eexists. eexists. split; [reflexivity|]. split; [reflexivity|].
      split; [intros _ Hne; now elim Hne | now left].
  - destruct prompt eqn:Hprompt; cbn [negb].
    + eexists. eexists. split; [reflexivity|]. split; [reflexivity|].
      split; [auto | now left].
    + rewrite (bind_run _ _ _ _ _ (pane_call_run _ _ (after_call st _) Hp)).
      destruct (display_pane_pid W _) as [q| |] eqn:Hq.
      * rewrite (bind_run _ _ _ _ _ (external_run _ _ _)).
        destruct (psutil_Process W _ q) as [shell|] eqn:Hs.
        -- eexists. eexists. split; [reflexivity|]. split; [reflexivity|].
           split; [discriminate|].
           right. exists q, shell. split; [reflexivity|]. cbn.
           split; apply in_or_app.
           ++ left. apply in_or_app. right. now left.
           ++ right. now left.
        -- eexists. eexists. split; [reflexivity|]. split; [reflexivity|].
           split; [discriminate | now left].
      * eexists. eexists. split; [reflexivity|]. split; [reflexivity|].
        split; [discriminate | now left].
      * eexists. eexists. split; [reflexivity|]. split; [reflexivity|].
        split; [discriminate | now left].
Qed.

(** ** The Stop action *)

Lemma keeps_no_kill_discovery : keeps (emits no_kill) get_running_processes.
Proof.
  assert (Hcall : forall st e, no_kill e -> emits no_kill st (after_call st e))
    by (intros; now apply emits_call).
  unfold get_running_processes, _get_pane_content, pane_call.
  repeat first
    [ apply keeps_ret; intros; apply emits_refl
    | apply keeps_getattr; intros; apply emits_refl
    | apply keeps_external; intros; apply Hcall; exact I
    | apply keeps_bind; [apply emits_trans | | intros ?]
    | match goal with
      | |- keeps _ (if ?b then _ else _) => destruct b
      | |- keeps _ (match ?x with _ => _ end) => destruct x
      end ].
Qed.

(** X17.  A Stop action on an initialized session leaves the session
    object exactly as it was - the status of the previous command
    included - and sends no key to the pane.  When it returns, its
    observation says that the processes have been terminated exactly when
    at least one kill succeeded, even if other kills failed; it raises only
    when the pane pid could not be read during the kill loop. *)
Theorem stop_action_outcome fuel st r st' :
  _initialized (self st) = true ->
  pane (self st) = Some tt ->
  execute fuel StopProcessesAction st = (r, st') ->
  self st' = self st
  /\ exists es,
       effects st' = (effects st ++ es)%list
       /\ Forall not_keys es
       /\ match r with
          | Ok obs =>
              exists success : bool,
                obs = CmdOutputObservation
                        (if success
                         then "All running processes have been terminated"
                         else "No processes were terminated")
                        "" CmdOutputMetadata_new
                /\ (success = true <-> exists p, In (EffKill p Killed) es)
          | Raise e => pid_failure e
          | Unfinished => False
          end.
Proof.
  intros Hinit Hpane H. unfold execute in H.
  rewrite bind_run with (a := self st) (st1 := st) in H by reflexivity.
  rewrite Hinit in H. cbn [negb] in H.
  destruct (discovery_total st Hpane) as (info & st1 & Hd & [Hself1 _]).
  destruct (keeps_no_kill_discovery _ _ _ Hd) as (es1 & Hes1 & Hnk).
  assert (Hp1 : pane (self st1) = Some tt) by now rewrite Hself1.
  destruct (kill_each (process_pids info) false st1) as [rk stk] eqn:Ek.
  destruct (kill_each_spec _ _ _ _ _ Hp1 Ek) as (es2 & Hes2 & Hr).
  assert (Ekill : kill_all_processes st = (rk, stk)).
  { unfold kill_all_processes. now rewrite (bind_run _ _ _ _ _ Hd). }
  pose proof (keeps_observes_kill_all _ _ _ Ekill) as [Hself (es & Hes & Hkeys)].
  unfold bind in H. rewrite Ekill in H.
  assert (Hst : st' = stk) by (destruct rk; now inversion H). subst stk.
  split; [exact Hself|]. exists es. split; [exact Hes|]. split; [exact Hkeys|].
  assert (Hsplit : es = (es1 ++ es2)%list).
  { rewrite Hes1, <- app_assoc, Hes in Hes2. now apply app_inv_head in Hes2. }
  destruct rk as [b|e|].
  - inversion H; subst r. exists b. split; [reflexivity|].
    destruct Hr as [_ Hb]. rewrite Hb, Hsplit. split.
    + intros [F|[p Hp]]; [discriminate|]. exists p. apply in_or_app. now right.
    + intros [p Hp]. right. exists p.
      apply in_app_or in Hp as [Hp|Hp]; [|exact Hp].
      rewrite Forall_forall in Hnk. destruct (Hnk _ Hp).
  - inversion H; subst r. exact (proj1 Hr).
  - destruct Hr.
Qed.

(** ** The keys that are sent *)

Lemma emits_assign (P : Effect -> Prop) st f : emits P st (after_assign st f).
Proof. exists []. split; [cbn; now rewrite app_nil_r | constructor]. Qed.

Lemma emits_weaken (P Q : Effect -> Prop) a b :
  (forall e, P e -> Q e) -> emits P a b -> emits Q a b.
Proof.
  intros Hs (es & E & F). exists es. split; [exact E|].
  eapply Forall_impl; eauto.
Qed.

Lemma keeps_emits_of_observes (P : Effect -> Prop) {A} (m : M A) :
  (forall e, not_keys e -> P e) -> keeps observes m -> keeps (emits P) m.
Proof.
  intros Hs Hm st r st' H. destruct (Hm _ _ _ H) as [_ He].
  eapply emits_weaken; eauto.
Qed.

Lemma keeps_emits_of_silent (P : Effect -> Prop) {A} (m : M A) :
  keeps silent m -> keeps (emits P) m.
Proof.
  intros Hm st r st' H. destruct (Hm _ _ _ H) as [He _].
  exists []. split; [now rewrite app_nil_r | constructor].
Qed.

Lemma keeps_silent_nochange command pane_content ms :
  keeps silent (_handle_nochange_timeout_command command pane_content ms).
Proof.
  unfold _handle_nochange_timeout_command.
  apply keeps_bind; [eauto with keeps_db | keeps_walk | intros _].
  apply keeps_bind; [eauto with keeps_db | keeps_walk | intros me].
  apply keeps_bind; [eauto with keeps_db | apply keeps_silent_get_command_output |].
  intros [out md]. keeps_walk.
Qed.

Lemma keeps_silent_hard command pane_content ms limit :
  keeps silent (_handle_hard_timeout_command command pane_content ms limit).
Proof.
  unfold _handle_hard_timeout_command.
  apply keeps_bind; [eauto with keeps_db | keeps_walk | intros _].
  apply keeps_bind; [eauto with keeps_db | apply keeps_silent_get_command_output |].
  intros [out md]. keeps_walk.
Qed.

Section Keys.

Variable P : Effect -> Prop.
Hypothesis P_not_keys : forall e, not_keys e -> P e.
Hypothesis P_clear : P (EffSendKeys "C-l" false).

Lemma emits_P_call st e : P e -> emits P st (after_call st e).
Proof. apply emits_call. Qed.

Lemma keeps_emits_clear_screen : keeps (emits P) _clear_screen.
Proof.
  unfold _clear_screen, send_keys, time_sleep, tell, pane_call.
  repeat first
    [ apply keeps_getattr; intros; apply emits_refl
    | apply keeps_external; intros; apply emits_P_call;
      first [exact P_clear | apply P_not_keys; exact I]
    | apply keeps_bind; [apply emits_trans | | intros ?] ].
Qed.

Lemma keeps_emits_completed command pane_content ms :
  keeps (emits P) (_handle_completed_command command pane_content ms).
Proof.
  unfold _handle_completed_command, _ready_for_next_command.
  destruct (rev ms) as [|last_match front].
  { apply keeps_raise. intros; apply emits_refl. }
  apply keeps_bind; [apply emits_trans | apply keeps_getattr; intros; apply emits_refl |].
  intros cwd0.
  apply keeps_bind; [apply emits_trans | |intros _].
  { destruct (cwd_changed _ cwd0).
    - apply keeps_assign. intros; apply emits_assign.
    - apply keeps_ret. intros; apply emits_refl. }
  apply keeps_bind; [apply emits_trans | |intros suffix].
  { destruct (negb (_is_special_key command)).
    - apply keeps_ret. intros; apply emits_refl.
    - destruct (last_char command).
      + apply keeps_ret. intros; apply emits_refl.
      + apply keeps_raise. intros; apply emits_refl. }
  apply keeps_bind;
    [apply emits_trans
    | apply keeps_emits_of_silent, keeps_silent_get_command_output |].
  intros [out md].
  apply keeps_bind; [apply emits_trans | apply keeps_assign; intros; apply emits_assign |].
  intros _.
  apply keeps_bind; [apply emits_trans | apply keeps_assign; intros; apply emits_assign |].
  intros _.
  apply keeps_bind; [apply emits_trans | apply keeps_emits_clear_screen |].
  intros _. apply keeps_ret. intros; apply emits_refl.
Qed.

Lemma keeps_emits_now : keeps (emits P) now.
Proof. apply keeps_emits_of_observes; [exact P_not_keys | apply keeps_observes_now]. Qed.

Lemma keeps_emits_pane_content : keeps (emits P) _get_pane_content.
Proof.
  apply keeps_emits_of_observes;
    [exact P_not_keys | apply keeps_observes_pane_content].
Qed.

Lemma keeps_emits_iteration command action v :
  keeps (emits P) (poll_iteration command action v).
Proof.
  pose proof keeps_emits_now as Hnow.
  pose proof keeps_emits_pane_content as Hpane.
  assert (Hdisc : keeps (emits P)
                    (try_except (get_running_processes ;;; ret tt)
                                (fun _ => ret tt)))
    by (apply keeps_emits_of_observes;
        [exact P_not_keys | apply keeps_observes_discovery_logged]).
  assert (Hsleep : forall n, keeps (emits P) (time_sleep n))
    by (intros; apply keeps_emits_of_observes;
        [exact P_not_keys | apply keeps_observes_sleep]).
  pose proof keeps_emits_completed as Hdone.
  assert (Hnc : forall c p ms, keeps (emits P)
                                 (_handle_nochange_timeout_command c p ms))
    by (intros; apply keeps_emits_of_silent, keeps_silent_nochange).
  assert (Hhard : forall c p ms l, keeps (emits P)
                                     (_handle_hard_timeout_command c p ms l))
    by (intros; apply keeps_emits_of_silent, keeps_silent_hard).
  unfold poll_iteration.
  repeat first
    [ assumption
    | apply Hdone | apply Hnc | apply Hhard | apply Hsleep
    | apply keeps_ret; intros; apply emits_refl
    | apply keeps_get_self; intros; apply emits_refl
    | apply keeps_bind; [apply emits_trans | | intros ?]
    | match goal with
      | |- keeps _ (if ?b then _ else _) => destruct b
      | |- keeps _ (match ?x with _ => _ end) => destruct x
      end ].
Qed.

Lemma keeps_emits_loop fuel command action :
  forall v, keeps (emits P) (poll_loop fuel command action v).
Proof.
  induction fuel as [|fuel IH]; intros v; cbn [poll_loop].
  - intros st r st' H. inversion H; subst. apply emits_refl.
  - apply keeps_bind; [apply emits_trans | | intros go].
    { apply keeps_external. intros. apply emits_P_call, P_not_keys. exact I. }
    destruct go.
    + apply keeps_bind; [apply emits_trans | apply keeps_emits_iteration |].
      intros [obs|v']; [apply keeps_ret; intros; apply emits_refl | apply IH].
    + apply keeps_raise. intros; apply emits_refl.
Qed.

Lemma keeps_emits_poll fuel command action :
  keeps (emits P) (_poll_for_command_completion fuel command action).
Proof.
  unfold _poll_for_command_completion.
  apply keeps_bind; [apply emits_trans | apply keeps_emits_now | intros t0].
  apply keeps_bind; [apply emits_trans | apply keeps_emits_pane_content |].
  intros pane0. apply keeps_emits_loop.
Qed.

Lemma keeps_emits_send_keys keys enter :
  P (EffSendKeys keys enter) -> keeps (emits P) (send_keys keys enter).
Proof.
  intros Hk. unfold send_keys, pane_call.
  apply keeps_bind; [apply emits_trans | apply keeps_getattr; intros; apply emits_refl |].
  intros _. apply keeps_external. intros. now apply emits_P_call.
Qed.

End Keys.

(** X18.  The keys that [execute] sends.  Whatever the action and
    whatever comes of it, the only keys that go to the pane are [C-l]
    without Enter (the clearing of the screen) and, for a command action
    whose command is not empty, the command without the white space around
    it: as it is when it is an input, through the escaper otherwise, and
    followed by Enter unless it is a control key.  A Stop action, an empty
    command and an action of another type send no command at all. *)
Theorem execute_sends_only_the_command fuel action st r st' :
  execute fuel action st = (r, st') -> emits (keys_of action) st st'.
Proof.
  revert st r st'. change (keeps (emits (keys_of action)) (execute fuel action)).
  assert (Hnk : forall e, not_keys e -> keys_of action e)
    by (intros [] H; try exact I; destruct H).
  assert (Hcl : keys_of action (EffSendKeys "C-l" false)) by (left; auto).
  pose proof (keeps_emits_poll _ Hnk Hcl) as Hpoll.
  unfold execute.
  apply keeps_bind; [apply emits_trans | apply keeps_get_self; intros; apply emits_refl |].
  intros me. destruct (negb (_initialized me)).
  { apply keeps_raise. intros; apply emits_refl. }
  destruct action as [a| |name].
  - destruct (String.eqb_spec (strip (command a)) "") as [E|E];
      [|destruct (is_input a) eqn:Hin].
    + unfold _handle_empty_command.
      apply keeps_bind; [apply emits_trans | | intros _].
      { destruct (String.eqb _ "");
          [apply keeps_ret | apply keeps_raise]; intros; apply emits_refl. }
      apply keeps_bind;
        [apply emits_trans | apply keeps_getattr; intros; apply emits_refl |].
      intros status. destruct (negb (is_continuing status)); [|apply Hpoll].
      apply keeps_ret. intros; apply emits_refl.
    + unfold _handle_input_command.
      apply keeps_bind;
        [apply emits_trans | apply keeps_getattr; intros; apply emits_refl |].
      intros status. destruct (negb (is_continuing status)).
      { apply keeps_ret. intros; apply emits_refl. }
      apply keeps_bind; [apply emits_trans | | intros _; apply Hpoll].
      apply keeps_emits_send_keys. right. exists a. rewrite Hin. auto.
    + unfold _handle_normal_command.
      apply keeps_bind;
        [apply emits_trans | apply (keeps_emits_pane_content _ Hnk) |].
      intros last_pane.
      apply keeps_bind;
        [apply emits_trans | apply keeps_getattr; intros; apply emits_refl |].
      intros status. destruct (is_timed_out status && _).
      { apply keeps_emits_of_silent, keeps_silent_interrupted. }
      destruct (1 <? _)%nat.
      { apply keeps_ret. intros; apply emits_refl. }
      apply keeps_bind; [apply emits_trans | | intros _; apply Hpoll].
      apply keeps_emits_send_keys. right. exists a. rewrite Hin. auto.
  - apply keeps_bind; [apply emits_trans | | intros b].
    + apply keeps_emits_of_observes; [exact Hnk | apply keeps_observes_kill_all].
    + apply keeps_ret. intros; apply emits_refl.
  - apply keeps_ret. intros; apply emits_refl.
Qed.

(** ** What a call leaves alone *)

Lemma frame_refl st : frame st st.
Proof. split; [repeat split | now left]. Qed.

Lemma frame_trans a b c : frame a b -> frame b c -> frame a c.
Proof.
  intros [(A1 & A2 & A3 & A4 & A5 & A6) S1] [(B1 & B2 & B3 & B4 & B5 & B6) S2].
  split; [repeat split; congruence|].
  destruct S2 as [E2|(s & E2 & N2)]; [|right; now exists s].
  destruct S1 as [E1|(s & E1 & N1)]; [left; congruence|].
  right. exists s. split; [congruence | exact N1].
Qed.

Lemma frame_call st e : frame st (after_call st e).
Proof. split; [repeat split; reflexivity | left; reflexivity]. Qed.

Lemma frame_of_observes a b : observes a b -> frame a b.
Proof. intros [E _]. split; [repeat split; now rewrite E | left; now rewrite E]. Qed.

Ltac frame_assign :=
  split;
  [ repeat split; reflexivity
  | first [ left; reflexivity
          | right; eexists; split; [reflexivity | discriminate] ] ].

Ltac frame_walk :=
  repeat first
    [ assumption
    | apply keeps_ret; intros; apply frame_refl
    | apply keeps_raise; intros; apply frame_refl
    | apply keeps_getattr; intros; apply frame_refl
    | apply keeps_get_self; intros; apply frame_refl
    | apply keeps_external; intros; apply frame_call
    | apply keeps_assign; intros; frame_assign
    | apply keeps_bind; [apply frame_trans | | intros ?]
    | apply keeps_try_except; [apply frame_trans | | intros ?]
    | match goal with
      | |- keeps _ (if ?b then _ else _) => destruct b
      | |- keeps _ (match ?x with _ => _ end) => destruct x
      | |- keeps _ (let '(_, _) := ?x in _) => destruct x
      end ].

Lemma keeps_frame_of_observes {A} (m : M A) : keeps observes m -> keeps frame m.
Proof. apply keeps_weaken. exact frame_of_observes. Qed.

Lemma keeps_frame_get_command_output command raw md continue_prefix :
  keeps frame (_get_command_output command raw md continue_prefix).
Proof. unfold _get_command_output. frame_walk. Qed.

Lemma keeps_frame_iteration command action v :
  keeps frame (poll_iteration command action v).
Proof.
  pose proof keeps_frame_get_command_output as Hout.
  pose proof (keeps_frame_of_observes _ keeps_observes_discovery_logged) as Hdisc.
  unfold poll_iteration, now, _get_pane_content,
    _handle_completed_command, _handle_nochange_timeout_command,
    _handle_hard_timeout_command, _ready_for_next_command, _clear_screen,
    send_keys, time_sleep, tell, pane_call.
  frame_walk; apply Hout.
Qed.

Lemma keeps_frame_loop fuel command action :
  forall v, keeps frame (poll_loop fuel command action v).
Proof.
  induction fuel as [|fuel IH]; intros v; cbn [poll_loop].
  - intros st r st' H. inversion H; subst. apply frame_refl.
  - pose proof (keeps_frame_iteration command action v) as Hit.
    frame_walk. apply IH.
Qed.

Lemma keeps_frame_execute fuel action : keeps frame (execute fuel action).
Proof.
  pose proof (keeps_frame_loop fuel) as Hloop.
  pose proof keeps_frame_get_command_output as Hout.
  pose proof (keeps_frame_of_observes _ keeps_observes_kill_all) as Hkill.
  unfold execute, _handle_empty_command, _handle_input_command,
    _handle_normal_command, _handle_interrupted_command,
    _poll_for_command_completion, now, _get_pane_content, send_keys, pane_call.
  frame_walk; first [apply Hloop | apply Hout].
Qed.

Lemma keeps_frame_close : keeps frame close.
Proof.
  pose proof (keeps_frame_of_observes _ keeps_observes_kill_all) as Hkill.
  unfold close, pane_call. frame_walk.
Qed.

Lemma keeps_same_closed_execute fuel action :
  keeps same_closed (execute fuel action).
Proof.
  assert (Hrefl : forall st, same_closed st st) by reflexivity.
  assert (Htrans : forall a b c, same_closed a b -> same_closed b c -> same_closed a c)
    by (unfold same_closed; congruence).
  assert (Hobs : forall {A} (m : M A), keeps observes m -> keeps same_closed m).
  { intros A m. apply keeps_weaken. intros a b [E _]. unfold same_closed.
    now rewrite E. }
  assert (Hout : forall c raw md cp,
             keeps same_closed (_get_command_output c raw md cp)).
  { intros. unfold _get_command_output.
    repeat first
      [ apply keeps_ret; intros; apply Hrefl
      | apply keeps_getattr; intros; apply Hrefl
      | apply keeps_assign; intros; reflexivity
      | apply keeps_bind; [apply Htrans | | intros ?]
      | match goal with
        | |- keeps _ (if ?b then _ else _) => destruct b
        | |- keeps _ (let '(_, _) := ?x in _) => destruct x
        end ]. }
  pose proof (Hobs _ _ keeps_observes_discovery_logged) as Hdisc.
  pose proof (Hobs _ _ keeps_observes_kill_all) as Hkill.
  assert (Hwalk : forall command a v,
             keeps same_closed (poll_iteration command a v)).
  { intros. unfold poll_iteration, now, _get_pane_content,
      _handle_completed_command, _handle_nochange_timeout_command,
      _handle_hard_timeout_command, _ready_for_next_command, _clear_screen,
      send_keys, time_sleep, tell, pane_call.
    repeat first
      [ assumption
      | apply Hout
      | apply keeps_ret; intros; apply Hrefl
      | apply keeps_raise; intros; apply Hrefl
      | apply keeps_getattr; intros; apply Hrefl
      | apply keeps_get_self; intros; apply Hrefl
      | apply keeps_external; intros; reflexivity
      | apply keeps_assign; intros; reflexivity
      | apply keeps_bind; [apply Htrans | | intros ?]
      | match goal with
        | |- keeps _ (if ?b then _ else _) => destruct b
        | |- keeps _ (match ?x with _ => _ end) => destruct x
        | |- keeps _ (let '(_, _) := ?x in _) => destruct x
        end ]. }
  assert (Hloop : forall command a v,
             keeps same_closed (poll_loop fuel command a v)).
  { intros command a. induction fuel as [|n IH]; intros v; cbn [poll_loop].
    - intros st r st' H. inversion H; subst. apply Hrefl.
    - apply keeps_bind; [apply Htrans | apply keeps_external; intros; reflexivity |].
      intros go. destruct go; [|apply keeps_raise; intros; apply Hrefl].
      apply keeps_bind; [apply Htrans | apply Hwalk |].
      intros [obs|v']; [apply keeps_ret; intros; apply Hrefl | apply IH]. }
  unfold execute, _handle_empty_command, _handle_input_command,
    _handle_normal_command, _handle_interrupted_command,
    _poll_for_command_completion, now, _get_pane_content, send_keys, pane_call.
  repeat first
    [ assumption
    | apply Hout | apply Hloop
    | apply keeps_ret; intros; apply Hrefl
    | apply keeps_raise; intros; apply Hrefl
    | apply keeps_getattr; intros; apply Hrefl
    | apply keeps_get_self; intros; apply Hrefl
    | apply keeps_external; intros; reflexivity
    | apply keeps_assign; intros; reflexivity
    | apply keeps_bind; [apply Htrans | | intros ?]
    | match goal with
      | |- keeps _ (if ?b then _ else _) => destruct b
      | |- keeps _ (match ?x with _ => _ end) => destruct x
      | |- keeps _ (let '(_, _) := ?x in _) => destruct x
      end ].
Qed.

(** X19.  What the calls on a session leave alone.  No call changes the
    attributes given to the constructor (the no-change timeout, the work
    directory, the user name, the memory limit), the pane or the
    [_initialized] flag: in particular a closed session still counts as
    initialized.  The status of the previous command is left as it was or
    set to [COMPLETED], [NO_CHANGE_TIMEOUT] or [HARD_TIMEOUT]: no call sets
    it to [CONTINUE].  And [_closed] is changed by [close] only. *)
Theorem calls_leave_alone call st r st' :
  run_call call st = (r, st') ->
  config_kept st st'
  /\ (prev_status (self st') = prev_status (self st)
      \/ exists s, prev_status (self st') = Some (Some s) /\ s <> CONTINUE)
  /\ (call <> CallClose -> _closed (self st') = _closed (self st)).
Proof.
  intros H.
  assert (F : keeps frame (run_call call)).
  { pose proof keeps_frame_execute as Hexec.
    pose proof keeps_frame_close as Hclose.
    pose proof (keeps_frame_of_observes _ keeps_observes_kill_all) as Hkill.
    pose proof (keeps_frame_of_observes _ keeps_observes_discovery) as Hdisc.
    destruct call; cbn [run_call]; unfold cwd;
      (apply keeps_bind;
       [ apply frame_trans
       | first [ apply Hexec | exact Hclose | exact Hkill | exact Hdisc
               | apply keeps_getattr; intros; apply frame_refl ]
       | intros ?; apply keeps_ret; intros; apply frame_refl ]). }
  destruct (F _ _ _ H) as [Hc Hs]. split; [exact Hc|]. split; [exact Hs|].
  intros Hcall. clear F Hc Hs.
  enough (K : keeps same_closed (run_call call)) by exact (K _ _ _ H).
  clear st r st' H.
  assert (Hrefl : forall st, same_closed st st) by reflexivity.
  assert (Htrans : forall a b c, same_closed a b -> same_closed b c -> same_closed a c)
    by (unfold same_closed; congruence).
  assert (Hobs : forall {A} (m : M A), keeps observes m -> keeps same_closed m).
  { intros A m. apply keeps_weaken. intros a b [E _]. unfold same_closed.
    now rewrite E. }
  destruct call; cbn [run_call]; [| contradiction | | |].
  - apply keeps_bind; [exact Htrans | apply keeps_same_closed_execute |].
    intros; apply keeps_ret; exact Hrefl.
  - apply keeps_bind; [exact Htrans | apply Hobs, keeps_observes_kill_all |].
    intros; apply keeps_ret; exact Hrefl.
  - apply keeps_bind; [exact Htrans | apply Hobs, keeps_observes_discovery |].
    intros; apply keeps_ret; exact Hrefl.
  - unfold cwd.
    apply keeps_bind; [exact Htrans | apply keeps_getattr; exact Hrefl |].
    intros; apply keeps_ret; exact Hrefl.
Qed.

(** ** The end of a session *)

Lemma keeps_spared_kill_all : keeps (emits session_spared) kill_all_processes.
Proof.
  assert (Hcall : forall st e,
             session_spared e -> emits session_spared st (after_call st e))
    by (intros; now apply emits_call).
  assert (Heach : forall pids success,
             keeps (emits session_spared) (kill_each pids success)).
  { induction pids as [|p rest IH]; intros success; cbn [kill_each];
      unfold pane_call, kill_process.
    - apply keeps_ret; intros; apply emits_refl.
    - repeat first
        [ apply IH
        | apply keeps_ret; intros; apply emits_refl
        | apply keeps_raise; intros; apply emits_refl
        | apply keeps_getattr; intros; apply emits_refl
        | apply keeps_external; intros; apply Hcall; exact I
        | apply keeps_bind; [apply emits_trans | | intros ?]
        | match goal with
          | |- keeps _ (if ?b then _ else _) => destruct b
          | |- keeps _ (match ?x with _ => _ end) => destruct x
          end ]. }
  unfold kill_all_processes, get_running_processes, _get_pane_content, pane_call.
  repeat first
    [ apply Heach
    | apply keeps_ret; intros; apply emits_refl
    | apply keeps_getattr; intros; apply emits_refl
    | apply keeps_external; intros; apply Hcall; exact I
    | apply keeps_bind; [apply emits_trans | | intros ?]
    | match goal with
      | |- keeps _ (if ?b then _ else _) => destruct b
      | |- keeps _ (match ?x with _ => _ end) => destruct x
      end ].
Qed.

Lemma kill_all_finishes st :
  pane (self st) = Some tt ->
  exists r st1, kill_all_processes st = (r, st1) /\ r <> Unfinished.
Proof.
  intros Hpane. unfold kill_all_processes.
  destruct (discovery_total st Hpane) as (info & st1 & Hrun & [Hself _]).
  rewrite (bind_run _ _ _ _ _ Hrun).
  assert (Hpane1 : pane (self st1) = Some tt) by now rewrite Hself.
  destruct (kill_each (process_pids info) false st1) as [r st2] eqn:Ek.
  exists r, st2. split; [reflexivity|].
  destruct (kill_each_spec _ _ _ _ _ Hpane1 Ek) as (es & _ & Hr).
  intros ->. exact Hr.
Qed.

(** X20.  The outcome of [close] on a session that has its attributes.
    On a closed session it does nothing at all.  Otherwise it either
    returns, having killed the tmux session as its last and only such
    action and set [_closed] (nothing else of the session changes), so
    that a second [close] does nothing; or it raises [IndexError] or
    [ValueError] because the pane pid could not be read in the kill loop,
    and then the tmux session has not been killed and [_closed] is still
    unset: the session object is exactly as before. *)
Theorem close_outcome st r st' :
  has_attrs (self st) = true ->
  close st = (r, st') ->
  match _closed (self st) with
  | Some true => r = Ok tt /\ st' = st
  | _ =>
      exists es,
        effects st' = (effects st ++ es)%list
        /\ match r with
           | Ok _ =>
               self st' = set_closed true (self st)
               /\ (exists es0,
                      es = (es0 ++ [EffKillSession])%list
                      /\ Forall session_spared es0)
               /\ close st' = (Ok tt, st')
           | Raise e =>
               pid_failure e /\ self st' = self st
               /\ Forall session_spared es
           | Unfinished => False
           end
  end.
Proof.
  intros Hattrs Hclose.
  destruct (has_attrs_fields _ Hattrs) as (Hpane & _ & _ & Hc & _).
  destruct (_closed (self st)) as [c|] eqn:Ec; [|discriminate Hc].
  unfold close in Hclose. rewrite (bind_run _ _ _ _ _ (getattr_run _ _ _ _ Ec)) in Hclose.
  destruct c.
  - inversion Hclose; subst. split; reflexivity.
  - destruct (kill_all_finishes st Hpane) as (rk & stk & Ekill & Hfin).
    pose proof (keeps_observes_kill_all _ _ _ Ekill) as [Hself _].
    pose proof (keeps_spared_kill_all _ _ _ Ekill) as (es & Hes & Hspared).
    pose proof (lets_out_kill_all _ _ _ Hattrs Ekill) as [_ Hexc].
    destruct rk as [b|e|]; [| |now elim Hfin].
    + rewrite (bind_run _ _ _ _ _ Ekill) in Hclose.
      assert (Hpanek : pane (self stk) = Some tt) by now rewrite Hself.
      rewrite (bind_run _ _ _ _ _ (pane_call_run _ _ _ Hpanek)) in Hclose.
      unfold assign in Hclose. inversion Hclose; subst; clear Hclose.
      exists (es ++ [EffKillSession])%list. cbn.
      split; [rewrite Hes; now rewrite app_assoc|].
      split; [now rewrite Hself|].
      split; [exists es; split; [reflexivity | exact Hspared]|].
      unfold close, getattr. reflexivity.
    + rewrite (bind_raise _ _ _ _ _ Ekill) in Hclose.
      inversion Hclose; subst; clear Hclose.
      exists es. split; [exact Hes|]. split; [exact Hexc|].
      split; [exact Hself | exact Hspared].
Qed.

(** ** The start of a session *)

Lemma initialize_run st :
  let me := self st in
  initialize st
  = (Ok tt,
     mkSt (mkSession (NO_CHANGE_TIMEOUT_SECONDS me) (work_dir me) (username me)
             true (max_memory_mb me) (Some tt) (Some None) (Some "")
             (Some false) (Some (os_path_abspath (work_dir me))))
          (11 + tick st)
          (effects st
           ++ [EffNewSession (work_dir me);
               EffSetHistoryLimit HISTORY_LIMIT;
               EffNewWindow
                 match username me with
                 | Some u =>
                     if String.eqb u "root" || String.eqb u "openhands"
                     then "su " ++ u ++ " -" else "/bin/bash"
                 | None => "/bin/bash"
                 end;
               EffKillWindow;
               EffSendKeys
                 "whoami > /tmp/user.txt && hostname > /tmp/host.txt" true;
               EffSleep 100;
               EffSendKeys PS1_SETUP_KEYS true;
               EffSleep 100;
               EffSendKeys "C-l" false;
               EffSleep 100;
               EffClearHistory])%list).
Proof.
  destruct st as [me t0 es0]. cbv zeta. cbn [self tick effects].
  cbv -[String.eqb orb append app Nat.add]. cbn [Nat.add].
  repeat rewrite <- app_assoc. reflexivity.
Qed.

(** X21.  [initialize] can be called in any state - on a session just
    constructed, on one in use, on a closed one - and never raises.  The
    session object it leaves depends on the constructor arguments only: it
    is the object that a newly constructed session with the same arguments
    gets, with every attribute present, initialized and not closed, without
    previous status or output, and with the absolute work directory as
    cwd.  The window runs [su <username> -] when the user name is [root]
    or [openhands] and [/bin/bash] otherwise, and the tmux session that a
    session in use had is not killed. *)
Theorem initialize_resets st t es :
  let me := self st in
  let fresh :=
    mkSt (BashSession_new (work_dir me) (username me)
            (NO_CHANGE_TIMEOUT_SECONDS me) (max_memory_mb me)) t es in
  let shell :=
    match username me with
    | Some u =>
        if String.eqb u "root" then "su root -"
        else if String.eqb u "openhands" then "su openhands -"
        else "/bin/bash"
    | None => "/bin/bash"
    end in
  exists st' done,
    initialize st = (Ok tt, st')
    /\ self st' = self (snd (initialize fresh))
    /\ has_attrs (self st') = true
    /\ _initialized (self st') = true
    /\ _closed (self st') = Some false
    /\ prev_status (self st') = Some None
    /\ prev_output (self st') = Some ""
    /\ _cwd (self st') = Some (os_path_abspath (work_dir me))
    /\ effects st' = (effects st ++ done)%list
    /\ In (EffNewWindow shell) done
    /\ Forall session_spared done.
Proof.
  cbv zeta. eexists. eexists.
  split; [apply initialize_run|].
  rewrite initialize_run. cbn [self snd effects BashSession_new work_dir
    username NO_CHANGE_TIMEOUT_SECONDS max_memory_mb _initialized _closed
    prev_status prev_output _cwd].
  repeat (split; [reflexivity|]).
  split.
  - right. right. left. f_equal.
    destruct (username (self st)) as [u|]; [|reflexivity].
    destruct (String.eqb u "root") eqn:Er.
    + apply String.eqb_eq in Er. now subst u.
    + destruct (String.eqb u "openhands") eqn:Eo; [|reflexivity].
      apply String.eqb_eq in Eo. now subst u.
  - repeat constructor.
Qed.

End Engine.

(* ================================================================== *)
(** * The properties on sample sessions *)

(** C3, on a run: the completed handler on the finished pane. *)
Lemma completed_resets_session_witness :
  exists obs st',
    _handle_completed_command sample_from_ps1_match "echo 1; echo 2"
      (pane_text finished_stdout)
      (sample_matches_ps1_metadata (pane_text finished_stdout))
      (sample_state None "") = (Ok obs, st')
    /\ prev_status (self st') = Some (Some COMPLETED)
    /\ prev_output (self st') = Some ""
    /\ effects st' = [EffSendKeys "C-l" false; EffSleep 100; EffClearHistory].
Proof.
  eexists. eexists. split; [vm_compute; reflexivity|].
  eapply (completed_resets_session sample_from_ps1_match "echo 1; echo 2"
           (pane_text finished_stdout)
           (sample_matches_ps1_metadata (pane_text finished_stdout))
           (sample_state None "")).
  vm_compute. reflexivity.
Defined.

(** C2, the failing run.  A command timed out after printing [1] and [2];
    by the time it completes, the start of its output and the prompt before
    it have left the scrollback, so the capture holds one PS1 block.  The
    empty command that collects the result gets the tail of the output,
    three lines before the block, but the prefix of the metadata is empty:
    [_get_command_output] has replaced the truncation banner by its
    default [continue_prefix]. *)
Theorem truncation_banner_lost_after_timeout :
  let pane_content := pane_text truncated_stdout in
  let ps1_matches := sample_matches_ps1_metadata pane_content in
  exists m md st',
    ps1_matches = [m]
    /\ List.length (splitlines (take (m_start m) pane_content)) = 3
    /\ execute sample_PS1_END sample_matches_ps1_metadata sample_from_ps1_match
         (fun _ => None) (still_world truncated_stdout) 1
         (RunAction (mkCmdRun "" false None false))
         (sample_state (Some NO_CHANGE_TIMEOUT) ("1" ++ NL ++ "2"))
       = (Ok (CmdOutputObservation ("19999" ++ NL ++ "20000") "" md), st')
    /\ prev_status (self st') = Some (Some COMPLETED)
    /\ md_prefix md = ""
    /\ md_prefix md <> truncation_banner 3.
Proof.
  cbv zeta. eexists. eexists. eexists.
  split; [vm_compute; reflexivity|].
  split; [vm_compute; reflexivity|].
  split; [vm_compute; reflexivity|].
  split; [reflexivity|]. split; [reflexivity|].
  vm_compute. discriminate.
Qed.

(** The same run on a session with no previous output keeps the banner. *)
Example truncation_banner_on_fresh_session :
  exists md st',
    execute sample_PS1_END sample_matches_ps1_metadata sample_from_ps1_match
      (fun _ => None) (still_world truncated_stdout) 1
      (RunAction (mkCmdRun "" false None false))
      (sample_state (Some NO_CHANGE_TIMEOUT) "")
    = (Ok (CmdOutputObservation ("19999" ++ NL ++ "20000") "" md), st')
    /\ md_prefix md = truncation_banner 3.
Proof.
  eexists. eexists. split; [vm_compute; reflexivity|]. vm_compute. reflexivity.
Qed.

(** A no-change timeout on the running pane, then the completion on the
    finished pane. *)
Lemma timeout_then_completion_run :
  exists obs1 st1 md st3,
    build sample_matches_ps1_metadata sample_from_ps1_match ByNoChangeTimeout
      "echo 1; sleep 9; echo 2" (pane_text running_stdout) (sample_state None "")
    = (Ok obs1, st1)
    /\ build sample_matches_ps1_metadata sample_from_ps1_match ByCompleted
         "" (pane_text finished_stdout) st1
       = (Ok (CmdOutputObservation "2" "" md), st3)
    /\ md_prefix md = "".
Proof.
  do 4 eexists.
  split; [vm_compute; reflexivity|].
  split; [vm_compute; reflexivity|]. reflexivity.
Qed.

(** C10, on that run. *)
Lemma prev_output_carried_over_witness :
  exists obs1 st1 md st3,
    build sample_matches_ps1_metadata sample_from_ps1_match ByNoChangeTimeout
      "echo 1; sleep 9; echo 2" (pane_text running_stdout) (sample_state None "")
    = (Ok obs1, st1)
    /\ build sample_matches_ps1_metadata sample_from_ps1_match ByCompleted
         "" (pane_text finished_stdout) st1
       = (Ok (CmdOutputObservation "2" "" md), st3)
    /\ prev_output (self st1) = Some "1"
    /\ md_prefix md = ""
    /\ prev_output (self st3) = Some "".
Proof.
  do 4 eexists.
  split; [vm_compute; reflexivity|].
  split; [vm_compute; reflexivity|].
  pose proof (prev_output_carried_over sample_matches_ps1_metadata
                sample_from_ps1_match ByNoChangeTimeout ByCompleted
                "echo 1; sleep 9; echo 2" (pane_text running_stdout)
                "" (pane_text finished_stdout) (sample_state None ""))
    as H.
  specialize (H _ _ _ _ _ _ _ eq_refl eq_refl eq_refl eq_refl).
  cbv zeta in H. destruct H as (H1 & _ & H3 & H4).
  split; [exact H1|]. split; [|exact H4].
  apply (H3 eq_refl). vm_compute. discriminate.
Defined.

(** C10, counterexample.  The completion that follows a timeout does not
    carry the continuation banner: its prefix is empty. *)
Lemma next_observation_without_banner :
  ~ next_observation_gets_banner sample_matches_ps1_metadata sample_from_ps1_match.
Proof.
  intros H.
  destruct timeout_then_completion_run
    as (obs1 & st1 & md & st3 & H1 & H2 & Hpre).
  specialize (H ByNoChangeTimeout ByCompleted _ _ _ _ _ _ _ _ _ _ _ _
                eq_refl H1 eq_refl H2).
  rewrite Hpre in H. vm_compute in H. discriminate H.
Qed.

(** A session that was initialized can be closed, and closed again. *)
Example close_after_initialize :
  exists st1 st2,
    initialize (fun d => d) "PS1" (mkSt (BashSession_new "/workspace" None 30 None) 0 [])
    = (Ok tt, st1)
    /\ close sample_PS1_END sample_matches_ps1_metadata (still_world idle_stdout) st1
       = (Ok tt, st2)
    /\ _closed (self st2) = Some true
    /\ close sample_PS1_END sample_matches_ps1_metadata (still_world idle_stdout) st2
       = (Ok tt, st2).
Proof.
  do 2 eexists. split; [vm_compute; reflexivity|].
  split; [vm_compute; reflexivity|]. split; reflexivity.
Qed.

(** C6, on a run: the kill of everything under the shell of [busy_world]. *)
Lemma kill_all_processes_spec_witness :
  let st := sample_state (Some HARD_TIMEOUT) "1" in
  exists st' info st1 es,
    pane (self st) = Some tt
    /\ kill_all_processes sample_PS1_END sample_matches_ps1_metadata busy_world st
       = (Ok true, st')
    /\ get_running_processes sample_PS1_END sample_matches_ps1_metadata busy_world st
       = (Ok info, st1)
    /\ effects st' = (effects st1 ++ es)%list
    /\ kill_trace (process_pids info) es
    /\ (true = true <-> exists p, In (EffKill p Killed) es).
Proof.
  cbv zeta.
  assert (Hrun : kill_all_processes sample_PS1_END sample_matches_ps1_metadata
                   busy_world (sample_state (Some HARD_TIMEOUT) "1")
                 = (Ok true,
                    snd (kill_all_processes sample_PS1_END
                           sample_matches_ps1_metadata busy_world
                           (sample_state (Some HARD_TIMEOUT) "1"))))
    by (vm_compute; reflexivity).
  destruct (kill_all_processes_spec sample_PS1_END sample_matches_ps1_metadata
              busy_world (sample_state (Some HARD_TIMEOUT) "1") _ _ eq_refl Hrun)
    as (info & st1 & es & Hd & Heff & Ht & Hb).
  exists (snd (kill_all_processes sample_PS1_END sample_matches_ps1_metadata
                 busy_world (sample_state (Some HARD_TIMEOUT) "1"))),
         info, st1, es.
  repeat split; try assumption; apply Hb.
Defined.

(** What the discovery and the kill do in [busy_world]. *)
Lemma busy_world_run :
  let st := sample_state (Some HARD_TIMEOUT) "1" in
  exists st' info st1,
    kill_all_processes sample_PS1_END sample_matches_ps1_metadata busy_world st
    = (Ok true, st')
    /\ get_running_processes sample_PS1_END sample_matches_ps1_metadata busy_world st
       = (Ok info, st1)
    /\ process_pids info = [100; 101; 103]
    /\ command_pids info = [101]
    /\ effects st'
       = (effects st1
            ++ [EffDisplayPanePid (PanePid 100);
                EffDisplayPanePid (PanePid 100); EffKill 101 Killed;
                EffDisplayPanePid (PanePid 100); EffKill 103 Killed])%list.
Proof.
  cbv zeta. do 3 eexists.
  split; [vm_compute; reflexivity|].
  split; [vm_compute; reflexivity|].
  repeat split; reflexivity.
Qed.

(** C6, counterexample.  Process 103 is listed by the discovery but is not
    a command process (its parent shows no command line); it is killed all
    the same, because the loop runs over [process_pids]. *)
Lemma kill_all_beyond_command_pids :
  ~ kill_all_only_command_pids sample_PS1_END sample_matches_ps1_metadata busy_world.
Proof.
  intros H.
  destruct busy_world_run as (st' & info & st1 & Hrun & Hd & _ & Hcmd & Heff).
  specialize (H _ _ _ _ _ _ Hrun Hd Heff 103).
  rewrite Hcmd in H. cbn in H.
  destruct H as [H|[]]; [right; now left | discriminate H].
Qed.

(** C7, on a run: two commands on two lines sent to an idle session. *)
Lemma multiple_commands_rejected_witness :
  exists st',
    execute sample_PS1_END sample_matches_ps1_metadata sample_from_ps1_match
      sample_bashlex_parse (still_world idle_stdout) 1
      (RunAction (mkCmdRun two_commands false None false)) (sample_state None "")
    = (Ok (ErrorObservation
             ("ERROR: Cannot execute multiple commands at once." ++ NL
              ++ "Please run each command separately OR chain them into a single command via && or ;"
              ++ NL ++ "Provided commands:" ++ NL
              ++ "(1) echo a" ++ NL ++ "(2) echo b")), st')
    /\ effects st' = [EffCapturePane idle_stdout].
Proof.
  destruct (multiple_commands_rejected sample_PS1_END sample_matches_ps1_metadata
              sample_from_ps1_match sample_bashlex_parse (still_world idle_stdout)
              1 (mkCmdRun two_commands false None false) (sample_state None "")
              None eq_refl eq_refl eq_refl eq_refl)
    as (r & st' & Hrun & Heff & Hcase).
  - vm_compute. lia.
  - vm_compute in Hcase. destruct Hcase as [_ ->].
    exists st'. split; [exact Hrun | exact Heff].
Defined.

(** C7, counterexample.  While the command that timed out is still
    running, the same two commands get the interrupted-command
    observation, not the error. *)
Lemma multiple_commands_not_always_rejected :
  ~ multiple_commands_always_rejected sample_PS1_END sample_matches_ps1_metadata
      sample_from_ps1_match sample_bashlex_parse busy_world.
Proof.
  intros H.
  destruct (H 1 (mkCmdRun two_commands false None false)
              (sample_state (Some HARD_TIMEOUT) "1") eq_refl eq_refl eq_refl)
    as (content & st' & Hrun & _).
  - vm_compute. lia.
  - vm_compute in Hrun. discriminate Hrun.
Qed.

(** C4, on a run: [cd /tmp] on a fresh session whose pane then shows the
    prompt of the new directory. *)
Lemma cwd_changes_only_on_completion_witness :
  exists r st',
    run_call sample_PS1_END sample_matches_ps1_metadata sample_from_ps1_match
      sample_bashlex_parse (still_world moved_stdout)
      (CallExecute 1 (RunAction (mkCmdRun "cd /tmp" false None false)))
      (sample_state None "") = (r, st')
    /\ _cwd (self st') = Some "/tmp"
    /\ (_cwd (self st') = _cwd (self (sample_state None ""))
        \/ exists fuel action pane_content d,
             CallExecute 1 (RunAction (mkCmdRun "cd /tmp" false None false))
             = CallExecute fuel (RunAction action)
             /\ sample_matches_ps1_metadata pane_content <> []
             /\ md_working_dir
                  (sample_from_ps1_match
                     (last (sample_matches_ps1_metadata pane_content)
                           (mkMatch 0 0 "")))
                = Some d
             /\ d <> ""
             /\ _cwd (self (sample_state None "")) <> Some d
             /\ _cwd (self st') = Some d
             /\ (forall x, r = Ok x ->
                           prev_status (self st') = Some (Some COMPLETED))).
Proof.
  eexists. eexists. split; [vm_compute; reflexivity|].
  split; [reflexivity|].
  eapply (cwd_changes_only_on_completion sample_PS1_END
            sample_matches_ps1_metadata sample_from_ps1_match
            sample_bashlex_parse (still_world moved_stdout)).
  vm_compute. reflexivity.
Defined.

(** C9, on a run: the pane of [busy_world] never changes, and a
    non-blocking retrieval gives up once 30 time units have passed. *)
Lemma no_change_timeout_only_when_not_blocking_witness :
  exists obs st',
    _poll_for_command_completion sample_PS1_END sample_matches_ps1_metadata
      sample_from_ps1_match busy_world 10 ""
      (mkCmdRun "" false None false) (sample_state (Some HARD_TIMEOUT) "")
    = (Ok obs, st')
    /\ prev_status (self st') = Some (Some NO_CHANGE_TIMEOUT)
    /\ exists cur t0 t1 st0 es,
         effects st' = es
         /\ quiet_between cur t0 t1 es
         /\ (30 <= t1 - t0)%Z
         /\ _handle_nochange_timeout_command "" cur
              (sample_matches_ps1_metadata cur) st0
            = (Ok obs, st').
Proof.
  eexists. eexists. split; [vm_compute; reflexivity|].
  split; [reflexivity|].
  eapply (no_change_timeout_only_when_not_blocking sample_PS1_END
            sample_matches_ps1_metadata sample_from_ps1_match busy_world
            10 "" (mkCmdRun "" false None false)
            (sample_state (Some HARD_TIMEOUT) "")).
  - vm_compute. reflexivity.
  - reflexivity.
Defined.

(** C8, on two runs: the escaped semicolon inside the quoted word is
    left alone, and three blanks give the empty string. *)
Lemma escape_identity_witness :
  escape_free quoted_command = false
  /\ escape_bash_special_chars sample_bashlex_parse quoted_command
     = quoted_command
  /\ escape_bash_special_chars sample_bashlex_parse "   " = "".
Proof.
  split; [reflexivity|]. split.
  - apply (escape_identity sample_bashlex_parse quoted_command).
    intros _. vm_compute. reflexivity.
  - apply (escape_identity sample_bashlex_parse "   ").
    intros H. now elim H.
Defined.

(** Outside quotes the backslash is doubled. *)
Example escape_unquoted_semicolon :
  escape_bash_special_chars sample_bashlex_parse escaped_command = "ls \\;".
Proof. reflexivity. Qed.

(** C8, counterexample.  Two inputs without any backslash that the
    escaper does not give back.  For a single space it returns the empty
    string.  For the heredoc whose redirect is followed by more text on
    its line, the cursor is set to the end of the redirect, not to the end
    of the heredoc, and what follows the redirect - the rest of the line
    and the heredoc - is emitted a second time. *)
Lemma escaper_not_identity :
  ~ escaper_identity_as_worded sample_bashlex_parse
  /\ escape_free " " = true
  /\ escape_bash_special_chars sample_bashlex_parse " " = ""
  /\ escape_free heredoc_command = true
  /\ escape_bash_special_chars sample_bashlex_parse heredoc_command
     = heredoc_command ++ " > out.txt" ++ NL ++ "body" ++ NL ++ "EOF"
  /\ escape_bash_special_chars sample_bashlex_parse heredoc_command
     <> heredoc_command.
Proof.
  split.
  { intros H. specialize (H " " eq_refl). vm_compute in H. discriminate H. }
  repeat (split; [vm_compute; reflexivity|]).
  vm_compute. discriminate.
Qed.

(** X2, on a run: two commands on two lines make two pieces. *)
Lemma split_count_witness :
  List.length (split_bash_commands sample_bashlex_parse two_commands) = 2.
Proof.
  assert (Hne : strip two_commands <> "") by (vm_compute; discriminate).
  exact (split_count sample_bashlex_parse two_commands _ _ Hne eq_refl).
Defined.

(** X3, on that run: the line break between the commands is all that the
    pieces leave out. *)
Lemma split_keeps_text_witness :
  split_bash_commands sample_bashlex_parse two_commands = ["echo a"; "echo b"]
  /\ without_space
       (String.concat "" (split_bash_commands sample_bashlex_parse two_commands))
     = without_space two_commands.
Proof.
  split; [reflexivity|].
  apply (split_keeps_text sample_bashlex_parse two_commands).
  vm_compute. reflexivity.
Defined.

(** X4, on that run. *)
Lemma split_pieces_trimmed_witness :
  Forall (fun piece => rstrip piece = piece)
         (split_bash_commands sample_bashlex_parse two_commands).
Proof.
  apply (split_pieces_trimmed sample_bashlex_parse two_commands).
  intros H. vm_compute in H. discriminate H.
Defined.

(** X6, on a run: the retrieval of the output of a command that has
    finished after a timeout. *)
Lemma execute_content_stripped_witness :
  exists md st',
    execute sample_PS1_END sample_matches_ps1_metadata sample_from_ps1_match
      (fun _ => None) (still_world finished_stdout) 1
      (RunAction (mkCmdRun "" false None false))
      (sample_state (Some NO_CHANGE_TIMEOUT) "1")
    = (Ok (CmdOutputObservation "2" "" md), st')
    /\ strip "2" = "2".
Proof.
  eexists. eexists. split; [vm_compute; reflexivity|].
  eapply (execute_content_stripped sample_PS1_END sample_matches_ps1_metadata
            sample_from_ps1_match (fun _ => None) (still_world finished_stdout)
            1 (RunAction (mkCmdRun "" false None false))
            (sample_state (Some NO_CHANGE_TIMEOUT) "1")).
  vm_compute. reflexivity.
Defined.

(** X7, on a run: the completion of a [C-c] on the finished pane. *)
Lemma completed_handler_outcome_witness :
  exists obs st',
    _handle_completed_command sample_from_ps1_match "C-c"
      (pane_text finished_stdout)
      (sample_matches_ps1_metadata (pane_text finished_stdout))
      (sample_state (Some HARD_TIMEOUT) "")
    = (Ok obs, st').
Proof.
  exact (completed_handler_outcome sample_from_ps1_match "C-c"
           (pane_text finished_stdout)
           (sample_matches_ps1_metadata (pane_text finished_stdout))
           (sample_state (Some HARD_TIMEOUT) "") eq_refl).
Defined.

(** X8, on a run: the retrieval of output when the shutdown of the
    process has been requested. *)
Lemma execute_raises_witness :
  exists st',
    execute sample_PS1_END sample_matches_ps1_metadata sample_from_ps1_match
      (fun _ => None) (halted_world running_stdout) 1
      (RunAction (mkCmdRun "" false None false))
      (sample_state (Some HARD_TIMEOUT) "")
    = (Raise (RuntimeError "Bash session was likely interrupted..."), st')
    /\ poll_failure sample_PS1_END sample_matches_ps1_metadata
         (RuntimeError "Bash session was likely interrupted...").
Proof.
  eexists. split; [vm_compute; reflexivity|].
  eapply (execute_raises sample_PS1_END sample_matches_ps1_metadata
            sample_from_ps1_match (fun _ => None) (halted_world running_stdout)
            1 (RunAction (mkCmdRun "" false None false))
            (sample_state (Some HARD_TIMEOUT) "")).
  - intros _. reflexivity.
  - vm_compute. reflexivity.
Defined.

(** X9, on a run: an empty command sent to a fresh session. *)
Lemma nothing_running_answer_witness :
  execute sample_PS1_END sample_matches_ps1_metadata sample_from_ps1_match
    (fun _ => None) (still_world idle_stdout) 1
    (RunAction (mkCmdRun " " false None false)) (sample_state None "")
  = (Ok (CmdOutputObservation
           "ERROR: No previous running command to retrieve logs from."
           "" CmdOutputMetadata_new), sample_state None "").
Proof.
  apply (nothing_running_answer sample_PS1_END sample_matches_ps1_metadata
           sample_from_ps1_match (fun _ => None) (still_world idle_stdout)
           1 (mkCmdRun " " false None false) (sample_state None "") None);
    try reflexivity.
  now left.
Defined.

(** X10, on a run: [ls] sent while the command of [running_stdout] is
    still running after its timeout. *)
Lemma new_command_while_running_witness :
  exists md,
    execute sample_PS1_END sample_matches_ps1_metadata sample_from_ps1_match
      sample_bashlex_parse (still_world running_stdout) 1
      (RunAction (mkCmdRun "ls" false None false))
      (sample_state (Some NO_CHANGE_TIMEOUT) "")
    = (Ok (CmdOutputObservation "1" "ls" md),
       mkSt (set_prev_output "1" (sample_session (Some NO_CHANGE_TIMEOUT) ""))
            1 [EffCapturePane running_stdout])
    /\ md_suffix md = interrupted_suffix "ls"
    /\ md_prefix md = ""
    /\ md_exit_code md = (-1)%Z.
Proof.
  apply (new_command_while_running sample_PS1_END sample_matches_ps1_metadata
           sample_from_ps1_match sample_bashlex_parse
           (still_world running_stdout) 1 (mkCmdRun "ls" false None false)
           (sample_state (Some NO_CHANGE_TIMEOUT) "") (Some NO_CHANGE_TIMEOUT) "");
    try reflexivity.
  vm_compute. discriminate.
Defined.

(** X11, on a run: a retrieval with a timeout of 5 on the pane of
    [running_stdout], which never shows the prompt; the clock of
    [still_world] reads the number of external calls made so far. *)
Lemma hard_timeout_only_when_due_witness :
  exists obs st',
    _poll_for_command_completion sample_PS1_END sample_matches_ps1_metadata
      sample_from_ps1_match (still_world running_stdout) 1 ""
      (mkCmdRun "" false (Some 5%Z) false)
      (sample_state (Some NO_CHANGE_TIMEOUT) "")
    = (Ok obs, st')
    /\ prev_status (self st') = Some (Some HARD_TIMEOUT)
    /\ exists limit t es,
         Some 5%Z = Some limit /\ limit <> 0%Z
         /\ effects st' = ([] ++ EffTime 0 :: es)%list
         /\ In (EffTime t) (effects st')
         /\ (limit <= t - 0)%Z.
Proof.
  eexists. eexists. split; [vm_compute; reflexivity|].
  split; [reflexivity|].
  eapply (hard_timeout_only_when_due sample_PS1_END sample_matches_ps1_metadata
            sample_from_ps1_match (still_world running_stdout) 1 ""
            (mkCmdRun "" false (Some 5%Z) false)
            (sample_state (Some NO_CHANGE_TIMEOUT) "")).
  - vm_compute. reflexivity.
  - reflexivity.
Defined.

(** X12, on that run: fuel 5 is enough for a timeout of 5. *)
Lemma poll_returns_by_hard_timeout_witness :
  exists r st',
    _poll_for_command_completion sample_PS1_END sample_matches_ps1_metadata
      sample_from_ps1_match (still_world running_stdout) 5 ""
      (mkCmdRun "" false (Some 5%Z) false)
      (sample_state (Some NO_CHANGE_TIMEOUT) "")
    = (r, st')
    /\ r <> Unfinished.
Proof.
  apply (poll_returns_by_hard_timeout sample_PS1_END sample_matches_ps1_metadata
           sample_from_ps1_match (still_world running_stdout) 5 ""
           (mkCmdRun "" false (Some 5%Z) false)
           (sample_state (Some NO_CHANGE_TIMEOUT) "") 5%Z).
  - reflexivity.
  - lia.
  - intros n. cbn [time_time still_world]. lia.
  - cbn. lia.
Defined.

(** X13, on a run: without timeout on the action, the session's no-change
    timeout of 30 ends the retrieval with fuel 30. *)
Lemma poll_returns_by_no_change_timeout_witness :
  exists r st',
    _poll_for_command_completion sample_PS1_END sample_matches_ps1_metadata
      sample_from_ps1_match (still_world running_stdout) 30 ""
      (mkCmdRun "" false None false)
      (sample_state (Some NO_CHANGE_TIMEOUT) "")
    = (r, st')
    /\ r <> Unfinished.
Proof.
  apply (poll_returns_by_no_change_timeout sample_PS1_END
           sample_matches_ps1_metadata sample_from_ps1_match
           (still_world running_stdout) 30 ""
           (mkCmdRun "" false None false)
           (sample_state (Some NO_CHANGE_TIMEOUT) "") running_stdout).
  - reflexivity.
  - reflexivity.
  - intros n. cbn [time_time still_world]. lia.
  - lia.
  - cbn. lia.
Defined.

(** X16, on a run: the pane shows the prompt and nothing else. *)
Lemma discovery_outcome_witness :
  exists info st',
    get_running_processes sample_PS1_END sample_matches_ps1_metadata
      (still_world idle_stdout) (sample_state None "")
    = (Ok info, st')
    /\ info = no_processes false
    /\ st' = after_call (sample_state None "") (EffCapturePane idle_stdout).
Proof.
  pose proof (discovery_outcome sample_PS1_END sample_matches_ps1_metadata
                (still_world idle_stdout) (sample_state None "") eq_refl) as H.
  cbv zeta in H. destruct H as (info & st' & Hrun & _ & Hclean & _).
  exists info, st'. split; [exact Hrun|].
  apply Hclean; [vm_compute; reflexivity | vm_compute; discriminate].
Defined.

(** X17, on a run: the Stop action in [busy_world], after a hard
    timeout. *)
Lemma stop_action_outcome_witness :
  exists st',
    execute sample_PS1_END sample_matches_ps1_metadata sample_from_ps1_match
      (fun _ => None) busy_world 1 StopProcessesAction
      (sample_state (Some HARD_TIMEOUT) "1")
    = (Ok (CmdOutputObservation "All running processes have been terminated"
                                "" CmdOutputMetadata_new), st')
    /\ self st' = sample_session (Some HARD_TIMEOUT) "1".
Proof.
  assert (Hrun : execute sample_PS1_END sample_matches_ps1_metadata
                   sample_from_ps1_match (fun _ => None) busy_world 1
                   StopProcessesAction (sample_state (Some HARD_TIMEOUT) "1")
                 = (Ok (CmdOutputObservation
                          "All running processes have been terminated"
                          "" CmdOutputMetadata_new),
                    snd (execute sample_PS1_END sample_matches_ps1_metadata
                           sample_from_ps1_match (fun _ => None) busy_world 1
                           StopProcessesAction
                           (sample_state (Some HARD_TIMEOUT) "1"))))
    by (vm_compute; reflexivity).
  eexists. split; [exact Hrun|].
  exact (proj1 (stop_action_outcome sample_PS1_END sample_matches_ps1_metadata
                  sample_from_ps1_match (fun _ => None) busy_world 1
                  (sample_state (Some HARD_TIMEOUT) "1") _ _
                  eq_refl eq_refl Hrun)).
Defined.

(** X18, on a run: [ls \;] sent to a fresh session whose pane shows a
    finished command; the keys sent are the escaped command and the
    clearing of the screen. *)
Lemma execute_sends_only_the_command_witness :
  exists r st',
    execute sample_PS1_END sample_matches_ps1_metadata sample_from_ps1_match
      sample_bashlex_parse (still_world finished_stdout) 3
      (RunAction (mkCmdRun escaped_command false None false))
      (sample_state None "")
    = (r, st')
    /\ In (EffSendKeys "ls \\;" true) (effects st')
    /\ emits (keys_of sample_bashlex_parse
                (RunAction (mkCmdRun escaped_command false None false)))
         (sample_state None "") st'.
Proof.
  eexists. eexists. split; [vm_compute; reflexivity|].
  split; [vm_compute; tauto|].
  eapply (execute_sends_only_the_command sample_PS1_END
            sample_matches_ps1_metadata sample_from_ps1_match
            sample_bashlex_parse (still_world finished_stdout) 3
            (RunAction (mkCmdRun escaped_command false None false))
            (sample_state None "")).
  vm_compute. reflexivity.
Defined.

(** X19, on a run: a command that completes on a fresh session sets the
    status to [COMPLETED] and leaves [_closed] as it was. *)
Lemma calls_leave_alone_witness :
  exists r st',
    run_call sample_PS1_END sample_matches_ps1_metadata sample_from_ps1_match
      sample_bashlex_parse (still_world finished_stdout)
      (CallExecute 3 (RunAction (mkCmdRun escaped_command false None false)))
      (sample_state None "")
    = (r, st')
    /\ config_kept (sample_state None "") st'
    /\ prev_status (self st') = Some (Some COMPLETED)
    /\ _closed (self st') = Some false.
Proof.
  pose (call := CallExecute 3
                  (RunAction (mkCmdRun escaped_command false None false))).
  pose (run := run_call sample_PS1_END sample_matches_ps1_metadata
                 sample_from_ps1_match sample_bashlex_parse
                 (still_world finished_stdout) call (sample_state None "")).
  assert (Hrun : run = (fst run, snd run)) by apply surjective_pairing.
  exists (fst run), (snd run). split; [exact Hrun|].
  destruct (calls_leave_alone sample_PS1_END sample_matches_ps1_metadata
              sample_from_ps1_match sample_bashlex_parse
              (still_world finished_stdout) call (sample_state None "")
              (fst run) (snd run) Hrun) as (Hc & _ & Hclosed).
  split; [exact Hc|]. split; [vm_compute; reflexivity|].
  rewrite Hclosed; [reflexivity | discriminate].
Defined.

(** X20, on a run: [close] on a fresh session in [busy_world]; a second
    [close] changes nothing. *)
Lemma close_outcome_witness :
  exists st',
    close sample_PS1_END sample_matches_ps1_metadata busy_world
      (sample_state None "")
    = (Ok tt, st')
    /\ self st' = set_closed true (sample_session None "")
    /\ close sample_PS1_END sample_matches_ps1_metadata busy_world st'
       = (Ok tt, st').
Proof.
  pose (run := close sample_PS1_END sample_matches_ps1_metadata busy_world
                 (sample_state None "")).
  assert (Hrun : run = (Ok tt, snd run)) by (vm_compute; reflexivity).
  exists (snd run). split; [exact Hrun|].
  destruct (close_outcome sample_PS1_END sample_matches_ps1_metadata busy_world
              (sample_state None "") (Ok tt) (snd run) eq_refl Hrun)
    as (es & _ & Hself & _ & Hagain).
  split; [exact Hself | exact Hagain].
Defined.

(* ================================================================== *)
(** * The startup command of the action execution server *)

Lemma remove_spaces_length s : String.length (remove_spaces s) <= String.length s.
Proof.
  induction s as [|c s IH]; cbn; [lia|].
  destruct (Ascii.eqb c " "); cbn; lia.
Qed.

Lemma spaceless_cons c s :
  spaceless (String c s) -> Ascii.eqb c " " = false /\ spaceless s.
Proof.
  unfold spaceless. cbn. destruct (Ascii.eqb c " ") eqn:E.
  - intros H. pose proof (remove_spaces_length s) as L.
    rewrite H in L. cbn in L. lia.
  - intros H. split; [reflexivity | congruence].
Qed.

Lemma split_space_from_word s : forall cur rest,
  spaceless s ->
  split_space_from cur (s ++ rest) = split_space_from (cur ++ s) rest.
Proof.
  induction s as [|c s IH]; intros cur rest Hs; cbn.
  - now rewrite append_empty_r.
  - apply spaceless_cons in Hs as [Hc Hs]. rewrite Hc.
    rewrite (IH _ _ Hs). now rewrite append_assoc.
Qed.

Lemma split_space_join l : forall cur x,
  spaceless x -> Forall spaceless l ->
  split_space_from cur (join " " (x :: l))
  = (cur ++ x)%string :: l.
Proof.
  induction l as [|y l IH]; intros cur x Hx Hl.
  - cbn. rewrite <- (append_empty_r x) at 1.
    rewrite (split_space_from_word _ _ _ Hx). reflexivity.
  - inversion Hl as [|? ? Hy Hl']; subst.
    change (join " " (x :: y :: l)) with (x ++ " " ++ join " " (y :: l))%string.
    rewrite (split_space_from_word _ _ _ Hx). cbn [append split_space_from].
    cbn. f_equal. exact (IH EmptyString y Hy Hl').
Qed.

(** X22.  The startup command is wrapped in [nice -n -20 sh -c ...]
    exactly when the effective user name is [root] and [use_nice_for_root]
    is set; otherwise it is the plain command, the one that the same call
    gives with [use_nice_for_root] unset.  The wrapper has six elements,
    the last being the [oom_score_adj] line followed by the plain command
    joined by single spaces: nothing is quoted, and splitting that text at
    single spaces gives the plain command back as long as none of its
    arguments holds a space. *)
Theorem startup_command_wrapper
    server_port plugins app_config python_prefix use_nice_for_root
    override_user_id override_username :
  let plain :=
    get_action_execution_server_startup_command server_port plugins
      app_config python_prefix false override_user_id override_username in
  let who :=
    match override_username with
    | Some u => if nonempty u then u
                else if run_as_openhands app_config then "openhands" else "root"
    | None => if run_as_openhands app_config then "openhands" else "root"
    end in
  let cmd :=
    get_action_execution_server_startup_command server_port plugins
      app_config python_prefix use_nice_for_root override_user_id
      override_username in
  (if String.eqb who "root" && use_nice_for_root
   then exists cmd_str,
          cmd = ["nice"; "-n"; "-20"; "sh"; "-c";
                 "echo -1000 > /proc/self/oom_score_adj && exec " ++ cmd_str]
          /\ cmd_str = join " " plain
          /\ (Forall spaceless plain -> split_space cmd_str = plain)
   else cmd = plain)
  /\ plain <> [].
Proof.
  cbv zeta.
  assert (Hwho : or_str override_username
                   (if run_as_openhands app_config then "openhands" else "root")
                 = match override_username with
                   | Some u =>
                       if nonempty u then u
                       else if run_as_openhands app_config
                            then "openhands" else "root"
                   | None =>
                       if run_as_openhands app_config then "openhands" else "root"
                   end).
  { destruct override_username as [[|c u]|]; reflexivity. }
  rewrite <- Hwho.
  unfold get_action_execution_server_startup_command.
  rewrite andb_false_r.
  set (plain := (python_prefix ++ _)%list).
  assert (Hne : plain <> []).
  { unfold plain. intros H. apply app_eq_nil in H as [_ H]. discriminate H. }
  split; [|exact Hne].
  destruct (String.eqb _ "root" && use_nice_for_root); [|reflexivity].
  eexists. split; [reflexivity|]. split; [reflexivity|].
  intros Hall. destruct plain as [|x l]; [now elim Hne|].
  inversion Hall; subst. unfold split_space.
  now rewrite split_space_join.
Qed.

(** X23.  The user of the startup command.  An override that is falsy
    counts as no override: a user id of [0] and an empty user name are
    ignored.  The plain command always holds [--username] followed by a
    user name that is not empty and [--user-id] followed by the user id,
    and that id is [0] only when no (truthy) override was given and either
    the runtime does not run as [openhands] or the user id of the sandbox
    configuration is [0] itself. *)
Theorem startup_command_user
    server_port plugins app_config python_prefix use_nice_for_root
    override_user_id override_username :
  get_action_execution_server_startup_command server_port plugins app_config
    python_prefix use_nice_for_root (Some 0%Z) override_username
  = get_action_execution_server_startup_command server_port plugins
      app_config python_prefix use_nice_for_root None override_username
  /\ get_action_execution_server_startup_command server_port plugins
       app_config python_prefix use_nice_for_root override_user_id (Some "")
     = get_action_execution_server_startup_command server_port plugins
         app_config python_prefix use_nice_for_root override_user_id None
  /\ exists before who id after,
       get_action_execution_server_startup_command server_port plugins
         app_config python_prefix false override_user_id override_username
       = (before ++ ["--username"; who; "--user-id"; str_Z id] ++ after)%list
       /\ who <> ""
       /\ (id = 0%Z ->
           (override_user_id = None \/ override_user_id = Some 0%Z)
           /\ (run_as_openhands app_config = false
               \/ user_id (sandbox app_config) = 0%Z)).
Proof.
  split; [reflexivity|]. split; [reflexivity|].
  unfold get_action_execution_server_startup_command.
  rewrite andb_false_r.
  set (plugin_args := match plugins with Some (_ :: _ as ps) => _ | _ => _ end).
  set (browsergym_args := match browsergym_eval_env _ with Some _ => _ | None => _ end).
  exists (python_prefix
          ++ ["python"; "-u"; "-m"; "openhands.runtime.action_execution_server";
              str_Z server_port; "--working-dir";
              workspace_mount_path_in_sandbox app_config]
          ++ plugin_args)%list,
    (or_str override_username
       (if run_as_openhands app_config then "openhands" else "root")),
    (or_int override_user_id
       (if run_as_openhands app_config then user_id (sandbox app_config)
        else 0%Z)),
    browsergym_args.
  split.
  - rewrite <- !app_assoc. reflexivity.
  - split.
    + destruct override_username as [[|c u]|]; cbn;
        try destruct (run_as_openhands app_config); discriminate.
    + intros H0. destruct override_user_id as [[|p|p]|]; cbn in H0;
        try discriminate H0.
      * split; [now right|].
        destruct (run_as_openhands app_config); [now right | now left].
      * split; [now left|].
        destruct (run_as_openhands app_config); [now right | now left].
Qed.

(* ================================================================== *)
(** * The git changes of the runtime *)

Lemma lstrip_head s c r : lstrip s = String c r -> is_space c = false.
Proof.
  induction s as [|x s IH]; cbn; [discriminate|].
  destruct (is_space x) eqn:E; [exact IH|].
  intros H. inversion H; subst. exact E.
Qed.

Lemma space_is_space c : Ascii.eqb c " " = true -> is_space c = true.
Proof. intros H. apply Ascii.eqb_eq in H. now subst c. Qed.

Lemma dict_get_status_map k : dict_get status_map k k = k.
Proof.
  unfold status_map. cbn [dict_get].
  repeat match goal with
         | |- context [String.eqb ?a k] =>
             destruct (String.eqb_spec a k); [now subst k|]
         end.
  reflexivity.
Qed.

Lemma change_of_line_spec line :
  change_of_line line
  = if nonempty (strip (take 2 line))
    then Some (mkGitChange (take 1 (strip (take 2 line))) (strip (drop 2 line)))
    else None.
Proof.
  unfold change_of_line, strip at 1 3 4.
  destruct (lstrip (rstrip (take 2 line))) as [|c r] eqn:E; [reflexivity|].
  pose proof (lstrip_head _ _ _ E) as Hc.
  cbn [remove_spaces nonempty take].
  destruct (Ascii.eqb c " ") eqn:Es.
  - apply space_is_space in Es. congruence.
  - now rewrite dict_get_status_map.
Qed.

Lemma changes_of_lines_spec lines : forall result,
  changes_of_lines lines result
  = if forallb (fun line => nonempty (strip (take 2 line))) lines
    then Some (result
               ++ map (fun line =>
                         mkGitChange (take 1 (strip (take 2 line)))
                                     (strip (drop 2 line))) lines)%list
    else None.
Proof.
  induction lines as [|line lines IH]; intros result; cbn [changes_of_lines forallb map].
  - now rewrite app_nil_r.
  - rewrite change_of_line_spec.
    destruct (nonempty (strip (take 2 line))); [|reflexivity].
    rewrite IH. cbn [andb].
    destruct (forallb _ lines); [|reflexivity].
    now rewrite <- app_assoc.
Qed.

(** X24.  [get_git_changes] is all or nothing on the diff and lenient on
    the untracked files.  When the diff command fails, or when one line of
    its output has no status (its first two characters are white space or
    missing, as in an empty line), the result is empty: the entries of the
    other lines and the untracked files are dropped with it.  Otherwise
    the result has one entry per line of the diff, in order, followed by
    the untracked files, which are simply missing when their listing
    fails.  The status of an entry is one character, never white space:
    the first one of the line that is not white space, which the status
    map leaves as it is; the path is what follows the second character,
    without the white space around it. *)
Theorem git_changes_outcome (run : string -> option string) :
  let has_status := fun line => nonempty (strip (take 2 line)) in
  let entry := fun line =>
    mkGitChange (take 1 (strip (take 2 line))) (strip (drop 2 line)) in
  get_git_changes run
  = match run "git diff --name-status HEAD" with
    | Some content =>
        if forallb has_status (splitlines content)
        then (map entry (splitlines content)
              ++ match run "git ls-files --others --exclude-standard" with
                 | Some listing =>
                     map (mkGitChange "A") (splitlines listing)
                 | None => []
                 end)%list
        else []
    | None => []
    end
  /\ Forall (fun change =>
               exists c, change_status change = String c ""
                         /\ is_space c = false)
            (get_git_changes run).
Proof.
  cbv zeta.
  assert (E : get_git_changes run
              = match run "git diff --name-status HEAD" with
                | Some content =>
                    if forallb (fun line => nonempty (strip (take 2 line)))
                               (splitlines content)
                    then (map (fun line =>
                                 mkGitChange (take 1 (strip (take 2 line)))
                                             (strip (drop 2 line)))
                              (splitlines content)
                          ++ match run "git ls-files --others --exclude-standard" with
                             | Some listing =>
                                 map (mkGitChange "A") (splitlines listing)
                             | None => []
                             end)%list
                    else []
                | None => []
                end).
  { unfold get_git_changes, get_untracked_files.
    destruct (run "git diff --name-status HEAD") as [content|]; [|reflexivity].
    rewrite changes_of_lines_spec.
    destruct (forallb _ (splitlines content)); reflexivity. }
  split; [exact E|].
  rewrite E.
  destruct (run "git diff --name-status HEAD") as [content|]; [|constructor].
  destruct (forallb _ (splitlines content)) eqn:Hall; [|constructor].
  apply Forall_app. split.
  - apply Forall_forall. intros change Hin.
    apply in_map_iff in Hin as (line & <- & Hline).
    rewrite forallb_forall in Hall. specialize (Hall _ Hline).
    cbn [change_status]. unfold strip in *.
    destruct (lstrip (rstrip (take 2 line))) as [|c r] eqn:El; [discriminate|].
    exists c. split; [reflexivity|]. exact (lstrip_head _ _ _ El).
  - destruct (run "git ls-files --others --exclude-standard") as [listing|];
      [|constructor].
    apply Forall_forall. intros change Hin.
    apply in_map_iff in Hin as (path & <- & _).
    exists "A"%char. split; reflexivity.
Qed.
